(** * Fractex terrain geometry: cells to box meshes, and when they are rebuilt

    A shallow embedding of [source/game/terrain.h],
    [source/game/terrain_vertex.h] and the streaming and editing parts of
    [source/game/world.h], with the state kept by [game/gun_state.h],
    [game/player.h] and [explode_particle.h].

    Conventions of the embedding.
    - a finite [float] or [double] value is the rational it denotes ([Q]).
      The arithmetic of the terrain geometry ([create_box], [create_uvs])
      and of the timer of the particle is IEEE 754 arithmetic: the exact
      result of an operation is rounded to the format of its C++ type
      ([Float.round], to nearest, ties to even), a decimal literal of the
      source is the [double] nearest to it, and a conversion from
      [double] to [float] rounds once more.  Infinities and NaN are left
      out.  The layout and the editing code only store, copy and compare
      float values.  The clock readings of the gun and the health of the
      player are rationals whose sums and differences are taken exactly:
      the statements about them are about the branches taken.
    - [size_t] positions and counts are [nat]: they index vectors that were
      allocated, so they stay far below 2^64.
    - [uint32_t] index values are [Z] reduced modulo 2^32 at every store
      ([to_uint32]), as the assignment of a [size_t] to a [uint32_t] does.
    - an [int] that would overflow has no defined value: the operation
      returns [None].
    - a [std::vector] is a [list]; [v[i] = x] is stdpp's [<[i:=x]> v] and
      every store is shown to be in range where that matters. *)

From Stdlib Require Import ZArith QArith Qround Qpower Lia Permutation String.
From Stdlib Require Import Lqa.
From Stdlib Require Qabs.
From Stdlib Require Import Floats.SpecFloat.
From stdpp Require Import base list.

Set Default Proof Using "Type".

(** ** Binary floating point numbers *)
Module Float.

(** A binary format: [prec] bits of significand, exponents below [emax].
    The least exponent of a significand bit is [emin]. *)
Record format := Format { prec : Z; emax : Z }.

(** [float] and [double]. *)
Definition binary32 : format := Format 24 128.
Definition binary64 : format := Format 53 1024.

Definition emin (f : format) : Z := (3 - emax f - prec f)%Z.

(** The power of two [2 ^ z], for any integer [z]. *)
Definition pow2 (z : Z) : Q :=
  if (0 <=? z)%Z then inject_Z (2 ^ z) else 1 # Z.to_pos (2 ^ (- z)).

(** For [a] above zero, the exponent [e] with [2 ^ e <= a < 2 ^ (e + 1)]. *)
Definition ilog2 (a : Q) : Z :=
  let e := (Z.log2 (Qnum a) - Z.log2 (Z.pos (Qden a)))%Z in
  if Qle_bool (pow2 e) a then e else (e - 1)%Z.

(** The integer nearest to [x], the even one of the two when [x] lies
    half way. *)
Definition nearest_even (x : Q) : Z :=
  let m := Qfloor x in
  match ((x - inject_Z m) ?= (1 # 2))%Q with
  | Lt => m
  | Gt => (m + 1)%Z
  | Eq => if Z.even m then m else (m + 1)%Z
  end.

(** The exponent of the last bit that the format keeps of a number of
    magnitude [a]: the significand has [prec] bits, fewer below
    [2 ^ (emin + prec - 1)] (gradual underflow). *)
Definition exponent (f : format) (a : Q) : Z :=
  Z.max (ilog2 a - (prec f - 1)) (emin f).

(** The multiple of [2 ^ exponent] nearest to a magnitude [a], in lowest
    terms, so that equal numbers are equal terms. *)
Definition round_magnitude (f : format) (a : Q) : Q :=
  let e := exponent f a in
  Qred (inject_Z (nearest_even (a / pow2 e)) * pow2 e).

(** What rounds to [2 ^ emax] or beyond is infinite in IEEE 754; the
    embedding has no infinity and stops at [2 ^ emax]. *)
Definition clamp (f : format) (r : Q) : Q :=
  if Qle_bool (pow2 (emax f)) r then pow2 (emax f) else r.

(** The number of the format nearest to [q], the one with the even
    significand when [q] lies half way between two of them. *)
Definition round (f : format) (q : Q) : Q :=
  if Qeq_bool q 0 then 0%Q
  else
    let r := clamp f (round_magnitude f (Qabs.Qabs q)) in
    if Qle_bool 0 q then r else (- r)%Q.

(** [q] is a number of the format: [m * 2 ^ e] with a significand [m] of
    at most [prec] bits and an exponent [e] not below [emin], of
    magnitude below [2 ^ emax]. *)
Definition representable (f : format) (q : Q) : Prop :=
  exists m e : Z,
    (q == inject_Z m * pow2 e)%Q
    /\ (Z.abs m < 2 ^ prec f)%Z /\ (emin f <= e)%Z
    /\ (Qabs.Qabs q < pow2 (emax f))%Q.

(** The rational that a finite number of the Standard Library's
    specification of IEEE 754 denotes; used to compare [round] with that
    specification. *)
Definition of_spec_float (f : format) (x : spec_float) : Q :=
  match x with
  | S754_zero _ => 0%Q
  | S754_infinity s => if s then (- pow2 (emax f))%Q else pow2 (emax f)
  | S754_nan => 0%Q
  | S754_finite s m e =>
      Qred ((if s then -1 else 1) * (inject_Z (Z.pos m) * pow2 e))
  end.

(** Significands and exponents to compare on: halves and quarters that
    tie, numbers with more bits than either format keeps, numbers below
    the normal range and numbers at the upper end of binary32. *)
Definition samples : list (Z * Z) :=
  [ (1, 0); (3, -1); (33554431, -1); (33554433, -1); (16777217, 0);
    (16777219, 0); (-16777217, 0); (13421773, -27); (-8321499, -26);
    (124, -10); (1, -149); (3, -151); (1, -150); (5, -152); (-3, -150);
    (8388607, -150); (16777215, -151); (16777215, 104); (33554431, 103);
    (9007199254740993, -60); (-9007199254740995, 10);
    (3602879701896397, -55) ]%Z.

Definition dyadic (me : Z * Z) : Q := Qred (inject_Z (fst me) * pow2 (snd me)).

Definition finite (x : spec_float) : bool :=
  match x with S754_zero _ | S754_finite _ _ _ => true | _ => false end.

End Float.

(** ** The parts of the Minimal Graphics Library the game code relies on *)
Module Min.

(** The vectors are instantiated at [float] throughout the game. *)
Record vec2 := Vec2 { x2 : Q; y2 : Q }.
Record vec3 := Vec3 { x3 : Q; y3 : Q; z3 : Q }.
Record vec4 := Vec4 { x4 : Q; y4 : Q; z4 : Q; w4 : Q }.

(** Arithmetic on [float]: the exact result, rounded to binary32. *)
Definition fadd (a b : Q) : Q := Float.round Float.binary32 (a + b).
Definition fsub (a b : Q) : Q := Float.round Float.binary32 (a - b).
Definition fmul (a b : Q) : Q := Float.round Float.binary32 (a * b).

(** A decimal literal without suffix is a [double]. *)
Definition double_literal (q : Q) : Q := Float.round Float.binary64 q.

(** Addition of two [double] values. *)
Definition dadd (a b : Q) : Q := Float.round Float.binary64 (a + b).

(** Conversion of a [double] to [float], where a [double] is passed for a
    [float] parameter. *)
Definition to_float (d : Q) : Q := Float.round Float.binary32 d.

(** [uv *= s] *)
Definition vec2_scale (uv : vec2) (s : Q) : vec2 :=
  Vec2 (fmul (x2 uv) s) (fmul (y2 uv) s).

Definition vec3_sub (a b : vec3) : vec3 :=
  Vec3 (fsub (x3 a) (x3 b)) (fsub (y3 a) (y3 b)) (fsub (z3 a) (z3 b)).

Definition vec3_add (a b : vec3) : vec3 :=
  Vec3 (fadd (x3 a) (x3 b)) (fadd (y3 a) (y3 b)) (fadd (z3 a) (z3 b)).

Record aabbox := Aabbox { get_min : vec3; get_max : vec3 }.

(** [min::mesh<float, uint32_t>]: four parallel arrays. *)
Record mesh := Mesh {
  vertex : list vec4;
  uv : list vec2;
  normal : list vec3;
  index : list Z
}.

Definition empty_mesh : mesh := Mesh [] [] [] [].

(** Conversion of a [size_t] to [uint32_t]. *)
Definition to_uint32 (z : Z) : Z := (z mod 2 ^ 32)%Z.

(** [static_cast<int8_t>] of a float: the fraction is dropped (towards
    zero).  The C++ standard leaves the result undefined when the integer
    part does not fit; the embedding keeps the low eight bits. *)
Definition to_int8 (q : Q) : Z :=
  ((Z.quot (Qnum q) (Z.pos (Qden q)) + 128) mod 256 - 128)%Z.

(** Value-initialised elements that [std::vector::resize] appends.  Every
    one of them is overwritten before the mesh is used. *)
Definition vec4_zero : vec4 := Vec4 0 0 0 0.
Definition vec3_zero : vec3 := Vec3 0 0 0.
Definition vec2_zero : vec2 := Vec2 0 0.

(** Modelled from the spec: [min::vertex_buffer<float, uint32_t,
    vertex_type, ...>] belongs to the Minimal Graphics Library, whose
    sources are not under [source/].  The spec has a geometry store that
    pairs each compiled mesh with a GPU buffer, goes through "compile,
    upload, bind, draw" for it, validates a mesh before it is uploaded
    and makes the draw of an empty target a no-op.  The model keeps that
    much of the buffer: [vb_data] is what was added since the last
    [clear], [vb_gpu] what the last [upload] sent to the graphics memory,
    and [vb_calls] records the member functions called, oldest first. *)
Inductive vb_call := VbClear | VbAddMesh | VbBind | VbUpload | VbDrawAll.

Record vertex_buffer := VertexBuffer {
  vb_data : list mesh;
  vb_gpu : list mesh;
  vb_calls : list vb_call
}.

Definition vb_new : vertex_buffer := VertexBuffer [] [] [].

Definition vb_clear (vb : vertex_buffer) : vertex_buffer :=
  VertexBuffer [] (vb_gpu vb) (vb_calls vb ++ [VbClear]).

(** [add_mesh] first runs [vertex_type::check], which may throw; the
    result carries the message of the exception, if any. *)
Definition vb_add_mesh (check : mesh -> option string) (m : mesh)
    (vb : vertex_buffer) : vertex_buffer * option string :=
  let vb :=
    VertexBuffer (vb_data vb) (vb_gpu vb) (vb_calls vb ++ [VbAddMesh]) in
  match check m with
  | Some msg => (vb, Some msg)
  | None => (VertexBuffer (vb_data vb ++ [m]) (vb_gpu vb) (vb_calls vb), None)
  end.

Definition vb_bind (vb : vertex_buffer) : vertex_buffer :=
  VertexBuffer (vb_data vb) (vb_gpu vb) (vb_calls vb ++ [VbBind]).

Definition vb_upload (vb : vertex_buffer) : vertex_buffer :=
  VertexBuffer (vb_data vb) (vb_data vb) (vb_calls vb ++ [VbUpload]).

(** Number of index elements a [draw_all] submits. *)
Definition vb_elements (vb : vertex_buffer) : nat :=
  sum_list (map (fun m => length (index m)) (vb_data vb)).

Definition vb_draw_all (vb : vertex_buffer) : vertex_buffer * nat :=
  (VertexBuffer (vb_data vb) (vb_gpu vb) (vb_calls vb ++ [VbDrawAll]),
   vb_elements vb).

End Min.
Export Min.

(** ** terrain_vertex.h *)
Module TerrainVertex.

(** [check] of the box build: [None] is a normal return, [Some msg] the
    [std::runtime_error] thrown. *)
Definition check (m : mesh) : option string :=
  let vert_size := length (vertex m) in
  if negb (length (uv m) =? vert_size) || negb (length (normal m) =? vert_size)
  then Some "terrain_vertex: vertex, uv, or normals invalid length"%string
  else None.

(** [check] of the [USE_GS_RENDER] build does nothing. *)
Definition check_gs (m : mesh) : option string := None.

End TerrainVertex.

(** ** terrain.h: the atlas table and the box of one cell *)
Module Terrain.

(** The 24 corner coordinates [create_uvs] starts from. *)
Definition base_uvs : list vec2 :=
  [ Vec2 1.0 0.0; Vec2 0.0 1.0; Vec2 0.0 0.0;
    Vec2 1.0 0.0; Vec2 0.0 1.0; Vec2 0.0 0.0;
    Vec2 1.0 0.0; Vec2 0.0 1.0; Vec2 0.0 0.0;
    Vec2 1.0 0.0; Vec2 0.0 1.0; Vec2 0.0 0.0;
    Vec2 0.0 0.0; Vec2 1.0 1.0; Vec2 0.0 1.0;
    Vec2 1.0 0.0; Vec2 0.0 1.0; Vec2 0.0 0.0;
    Vec2 1.0 1.0; Vec2 1.0 1.0; Vec2 1.0 1.0;
    Vec2 1.0 1.0; Vec2 1.0 0.0; Vec2 1.0 1.0 ].

(** The body shared by the sixteen cases of the [switch]:
    [uv *= 0.124; uv.x(uv.x() + dx); uv.y(uv.y() + dy)], where [dx] and
    [dy] are decimal literals.  The factor is converted to [float] for
    [operator*=]; [uv.x() + dx] is a sum of a [float] and a [double],
    computed in [double] and converted to [float] by the setter. *)
Definition slot_uv (dx dy : Q) (uv : vec2) : vec2 :=
  let uv := vec2_scale uv (to_float (double_literal 0.124)) in
  let uv := Vec2 (to_float (dadd (x2 uv) (double_literal dx))) (y2 uv) in
  Vec2 (x2 uv) (to_float (dadd (y2 uv) (double_literal dy))).

Definition atlas_slot (dx dy : Q) (uvs : list vec2) : list vec2 :=
  map (slot_uv dx dy) uvs.

(** The sixteen materials of the atlas. *)
Definition material_ids : list Z :=
  [0; 1; 2; 3; 4; 5; 6; 7; 8; 9; 10; 11; 12; 13; 14; 15]%Z.

(** The lower left corner of the atlas slot of a material, as the
    decimal numbers of the table, and the side of a slot. *)
Definition slot_x0 (id : Z) : Q := 0.001 + 0.125 * inject_Z (id mod 8).
Definition slot_y0 (id : Z) : Q := 0.876 - 0.125 * inject_Z (id / 8).
Definition slot_side : Q := 0.124.

(** [a] and [b] differ by [eps] at most. *)
Definition near (eps a b : Q) : bool := Qle_bool (Qabs.Qabs (a - b)) eps.

(** A quarter of the distance between neighbouring [float] numbers just
    below 1: 2^-26. *)
Definition uv_eps : Q := 1 # 67108864.


Definition create_uvs (atlas_id : Z) : list vec2 :=
  let uvs := base_uvs in
  match atlas_id with
  | 0%Z => atlas_slot 0.001 0.876 uvs
  | 1%Z => atlas_slot 0.126 0.876 uvs
  | 2%Z => atlas_slot 0.251 0.876 uvs
  | 3%Z => atlas_slot 0.376 0.876 uvs
  | 4%Z => atlas_slot 0.501 0.876 uvs
  | 5%Z => atlas_slot 0.626 0.876 uvs
  | 6%Z => atlas_slot 0.751 0.876 uvs
  | 7%Z => atlas_slot 0.876 0.876 uvs
  | 8%Z => atlas_slot 0.001 0.751 uvs
  | 9%Z => atlas_slot 0.126 0.751 uvs
  | 10%Z => atlas_slot 0.251 0.751 uvs
  | 11%Z => atlas_slot 0.376 0.751 uvs
  | 12%Z => atlas_slot 0.501 0.751 uvs
  | 13%Z => atlas_slot 0.626 0.751 uvs
  | 14%Z => atlas_slot 0.751 0.751 uvs
  | 15%Z => atlas_slot 0.876 0.751 uvs
  | _ => uvs
  end.

Definition create_box (center : vec3) : aabbox :=
  let min := vec3_sub center (Vec3 0.5 0.5 0.5) in
  let max := vec3_add center (Vec3 0.5 0.5 0.5) in
  Aabbox min max.

(** The 24 vertices [set_cell] stores, in the order of the stores. *)
Definition box_vertices (b : aabbox) : list vec4 :=
  let min := get_min b in
  let max := get_max b in
  [ Vec4 (x3 min) (y3 min) (z3 min) 1.0;
    Vec4 (x3 max) (y3 min) (z3 max) 1.0;
    Vec4 (x3 min) (y3 min) (z3 max) 1.0;
    Vec4 (x3 max) (y3 max) (z3 max) 1.0;
    Vec4 (x3 min) (y3 max) (z3 min) 1.0;
    Vec4 (x3 min) (y3 max) (z3 max) 1.0;
    Vec4 (x3 min) (y3 max) (z3 max) 1.0;
    Vec4 (x3 min) (y3 min) (z3 min) 1.0;
    Vec4 (x3 min) (y3 min) (z3 max) 1.0;
    Vec4 (x3 min) (y3 max) (z3 min) 1.0;
    Vec4 (x3 max) (y3 min) (z3 min) 1.0;
    Vec4 (x3 min) (y3 min) (z3 min) 1.0;
    Vec4 (x3 max) (y3 min) (z3 min) 1.0;
    Vec4 (x3 max) (y3 max) (z3 max) 1.0;
    Vec4 (x3 max) (y3 min) (z3 max) 1.0;
    Vec4 (x3 min) (y3 min) (z3 max) 1.0;
    Vec4 (x3 max) (y3 max) (z3 max) 1.0;
    Vec4 (x3 min) (y3 max) (z3 max) 1.0;
    Vec4 (x3 max) (y3 min) (z3 min) 1.0;
    Vec4 (x3 max) (y3 max) (z3 min) 1.0;
    Vec4 (x3 min) (y3 max) (z3 min) 1.0;
    Vec4 (x3 max) (y3 max) (z3 min) 1.0;
    Vec4 (x3 max) (y3 max) (z3 min) 1.0;
    Vec4 (x3 max) (y3 min) (z3 max) 1.0 ].

(** The 36 index stores are [offset + vertex_start]; these are the offsets. *)
Definition box_index_offsets : list nat :=
  [ 0; 1; 2; 3; 4; 5; 6; 7; 8; 9; 10; 11; 12; 13; 14; 15; 16; 17;
    0; 18; 1; 3; 19; 4; 6; 20; 7; 9; 21; 10; 12; 22; 13; 15; 23; 16 ]%nat.

Definition box_normals : list vec3 :=
  [ Vec3 0.0 (-1.0) 0.0; Vec3 0.0 (-1.0) 0.0; Vec3 0.0 (-1.0) 0.0;
    Vec3 0.0 1.0 0.0; Vec3 0.0 1.0 0.0; Vec3 0.0 1.0 0.0;
    Vec3 (-1.0) 0.0 0.0; Vec3 (-1.0) 0.0 0.0; Vec3 (-1.0) 0.0 0.0;
    Vec3 0.0 0.0 (-1.0); Vec3 0.0 0.0 (-1.0); Vec3 0.0 0.0 (-1.0);
    Vec3 1.0 0.0 0.0; Vec3 1.0 0.0 0.0; Vec3 1.0 0.0 0.0;
    Vec3 0.0 0.0 1.0; Vec3 0.0 0.0 1.0; Vec3 0.0 0.0 1.0;
    Vec3 0.0 (-1.0) 0.0; Vec3 0.0 1.0 0.0; Vec3 (-1.0) 0.0 0.0;
    Vec3 0.0 0.0 (-1.0); Vec3 1.0 0.0 0.0; Vec3 0.0 0.0 1.0 ].

(** *** Stores into the parent mesh

    [set_cell] reads one element of the cell buffer and then only assigns
    to elements of the four arrays of [_parent]; it never reads them.  A
    call is therefore the list of its stores, in program order. *)
Inductive store :=
| StVertex (pos : nat) (v : vec4)
| StUv (pos : nat) (v : vec2)
| StIndex (pos : nat) (k : Z)
| StNormal (pos : nat) (n : vec3).

Definition do_store (m : mesh) (s : store) : mesh :=
  match s with
  | StVertex p v => Mesh (<[p:=v]> (vertex m)) (uv m) (normal m) (index m)
  | StUv p v => Mesh (vertex m) (<[p:=v]> (uv m)) (normal m) (index m)
  | StIndex p k => Mesh (vertex m) (uv m) (normal m) (<[p:=k]> (index m))
  | StNormal p n => Mesh (vertex m) (uv m) (<[p:=n]> (normal m)) (index m)
  end.

Definition exec (ws : list store) (m : mesh) : mesh := foldl do_store m ws.

(** The stores of [set_cell(cell)] when [_cell_buffer[cell]] is [unpack]. *)
Definition set_cell_stores (unpack : vec4) (cell : nat) : list store :=
  let vertex_start := 24 * cell in
  let index_start := 36 * cell in
  let p := Vec3 (x4 unpack) (y4 unpack) (z4 unpack) in
  let b := create_box p in
  let atlas_id := to_int8 (w4 unpack) in
  let uvs := create_uvs atlas_id in
  imap (fun k v => StVertex (vertex_start + k) v) (box_vertices b)
  ++ imap (fun i t => StUv (i + vertex_start) t) uvs
  ++ imap (fun k o => StIndex (index_start + k)
                        (to_uint32 (Z.of_nat (o + vertex_start))))
       box_index_offsets
  ++ imap (fun k n => StNormal (vertex_start + k) n) box_normals.

(** [set_cell] is only ever called with [cell < _cell_buffer.size()]; past
    the end the embedding stores nothing. *)
Definition cell_work (cell_buffer : list vec4) (cell : nat) : list store :=
  match cell_buffer !! cell with
  | Some unpack => set_cell_stores unpack cell
  | None => []
  end.

Definition set_cell (cell_buffer : list vec4) (cell : nat) (parent : mesh)
    : mesh :=
  exec (cell_work cell_buffer cell) parent.

Definition populate_cell_buffer (child : mesh) (cell_buffer : list vec4)
    : list vec4 :=
  cell_buffer ++ vertex child.

Definition allocate_mesh_buffer (cell_buffer : list vec4) (parent : mesh)
    : mesh :=
  let size := length cell_buffer in
  let size24 := size * 24 in
  let size36 := size * 36 in
  Mesh (resize size24 vec4_zero (vertex parent))
       (resize size24 vec2_zero (uv parent))
       (resize size24 vec3_zero (normal parent))
       (resize size36 0%Z (index parent)).

(** The sequential loop of [upload_preview]:
    [for (size_t i = 0; i < size; i++) set_cell(i);]. *)
Definition set_cells_loop (cell_buffer : list vec4) (size : nat)
    (parent : mesh) : mesh :=
  foldl (fun m i => set_cell cell_buffer i m) parent (seq 0 size).

(** *** The parallel for of the work queue *)

(** What one call of [run] is free to choose: how the range is cut into
    contiguous sub-ranges (one per worker; the last worker takes what is
    left) and, store by store, which worker advances next. *)
Record schedule := Schedule { cuts : list nat; picks : list nat }.

Fixpoint split_range (cuts : list nat) (start size : nat)
    : list (nat * nat) :=
  match cuts with
  | [] => [(start, size)]
  | c :: cuts' =>
      let n := Nat.min c size in
      (start, n) :: split_range cuts' (start + n) (size - n)
  end.

(** The stores of the worker that was handed the sub-range
    [[fst r, fst r + snd r)]. *)
Definition worker_stores (work : nat -> list store) (r : nat * nat)
    : list store :=
  concat (map work (seq (fst r) (snd r))).

(** Workers advance one store at a time in the order of [picks]; a pick of
    a worker that has finished (or does not exist) is skipped.  When the
    picks are used up the caller still waits for every worker, so what is
    left is completed. *)
Fixpoint run_threads (picks : list nat) (threads : list (list store))
    (m : mesh) : mesh :=
  match picks with
  | [] => exec (concat threads) m
  | j :: picks' =>
      match threads !! j with
      | Some (s :: rest) =>
          run_threads picks' (<[j:=rest]> threads) (do_store m s)
      | _ => run_threads picks' threads m
      end
  end.

(** Modelled from the spec: [work_queue::worker.run(work, first, last)] of
    game/work_queue.h, which is not among the sources.  The spec describes
    a synchronous parallel for: the range is partitioned into contiguous
    sub-ranges, the sub-ranges are run by the workers in an unspecified
    order, and the caller blocks until all of them are complete. *)
Definition run (sch : schedule) (work : nat -> list store)
    (first last : nat) (m : mesh) : mesh :=
  run_threads (picks sch)
    (map (worker_stores work) (split_range (cuts sch) first (last - first)))
    m.

(** *** The terrain object (box build) *)
Record terrain := Build_terrain {
  _pb : vertex_buffer;
  _gb : vertex_buffer;
  _parent : mesh;
  _cell_buffer : list vec4
}.

(** Lines 501-512 and 542-553: the parent mesh is added when it has
    vertices, then the buffer is bound and uploaded.  An exception of
    [add_mesh] leaves through the caller. *)
Definition add_and_upload (parent : mesh) (vb : vertex_buffer)
    : vertex_buffer * option string :=
  let '(vb, thrown) :=
    if (0 <? length (vertex parent))%nat
    then vb_add_mesh TerrainVertex.check parent vb
    else (vb, None) in
  match thrown with
  | Some msg => (vb, Some msg)
  | None => (vb_upload (vb_bind vb), None)
  end.

(** Lines 489-499 of [upload_geometry]: size the parent mesh, then convert
    the cells with the parallel for. *)
Definition compile_view (sch : schedule) (cell_buffer : list vec4)
    (parent : mesh) : mesh :=
  let parent := allocate_mesh_buffer cell_buffer parent in
  let size := length cell_buffer in
  run sch (cell_work cell_buffer) 0 size parent.

(** Lines 532-540 of [upload_preview]: the same with a plain loop. *)
Definition compile_preview (cell_buffer : list vec4) (parent : mesh)
    : mesh :=
  let parent := allocate_mesh_buffer cell_buffer parent in
  let size := length cell_buffer in
  set_cells_loop cell_buffer size parent.

(** The cell buffer [upload_geometry] fills from the chunk meshes. *)
Definition view_cells (index : list nat) (f : nat -> mesh) : list vec4 :=
  foldl (fun cb i => populate_cell_buffer (f i) cb) [] index.

Definition upload_geometry (sch : schedule) (index : list nat)
    (f : nat -> mesh) (t : terrain) : terrain * option string :=
  let gb := vb_clear (_gb t) in
  let cell_buffer := view_cells index f in
  let parent := compile_view sch cell_buffer (_parent t) in
  let '(gb, thrown) := add_and_upload parent gb in
  (Build_terrain (_pb t) gb parent cell_buffer, thrown).

Definition upload_preview (terrain0 : mesh) (t : terrain)
    : terrain * option string :=
  let pb := vb_clear (_pb t) in
  let cell_buffer := populate_cell_buffer terrain0 [] in
  let parent := compile_preview cell_buffer (_parent t) in
  let '(pb, thrown) := add_and_upload parent pb in
  (Build_terrain pb (_gb t) parent cell_buffer, thrown).

Definition draw_placemark (t : terrain) : terrain * nat :=
  let '(pb, n) := vb_draw_all (vb_bind (_pb t)) in
  (Build_terrain pb (_gb t) (_parent t) (_cell_buffer t), n).

Definition draw_terrain (t : terrain) : terrain * nat :=
  let '(gb, n) := vb_draw_all (vb_bind (_gb t)) in
  (Build_terrain (_pb t) gb (_parent t) (_cell_buffer t), n).

(** *** The point build ([USE_GS_RENDER]) *)

(** The largest [int]. *)
Definition int_max : Z := 2147483647.

(** [std::iota(first, last, value)] with an [int] for [value]:
    [for (; first != last; ++first, ++value) *first = value;].  Each
    element receives the running value converted to [uint32_t], and the
    value is incremented after every store, also after the last one.  An
    increment of [int_max] overflows, which leaves the behaviour of the
    program undefined: the result is [None]. *)
Fixpoint iota (l : list Z) (value : Z) : option (list Z) :=
  match l with
  | [] => Some []
  | _ :: l' =>
      if (value <? int_max)%Z
      then option_map (cons (to_uint32 value)) (iota l' (value + 1))
      else None
  end.

Definition generate_indices (m : mesh) : option mesh :=
  let index := resize (length (vertex m)) 0%Z (index m) in
  option_map (Mesh (vertex m) (uv m) (normal m)) (iota index 0).

(** A mesh with the index array 0, 1, 2, ..., one entry for each vertex. *)
Definition point_mesh (m : mesh) : mesh :=
  Mesh (vertex m) (uv m) (normal m)
       (map (fun i => to_uint32 (Z.of_nat i)) (seq 0 (length (vertex m)))).

(** *** The stores seen from one array *)

(** A run of stores [(position, value)] into one array. *)
Definition write_all {A} (ws : list (nat * A)) (l : list A) : list A :=
  foldl (fun l pv => <[fst pv:=snd pv]> l) l ws.

Definition vertex_of (s : store) : option (nat * vec4) :=
  match s with StVertex p v => Some (p, v) | _ => None end.

Definition uv_of (s : store) : option (nat * vec2) :=
  match s with StUv p v => Some (p, v) | _ => None end.

Definition index_of (s : store) : option (nat * Z) :=
  match s with StIndex p v => Some (p, v) | _ => None end.

Definition normal_of (s : store) : option (nat * vec3) :=
  match s with StNormal p v => Some (p, v) | _ => None end.

Abbreviation vertex_stores := (omap vertex_of).
Abbreviation uv_stores := (omap uv_of).
Abbreviation index_stores := (omap index_of).
Abbreviation normal_stores := (omap normal_of).

(** No two stores of [ws] go to the same element of the same array. *)
Definition disjoint_stores (ws : list store) : Prop :=
  NoDup (map fst (vertex_stores ws)) /\ NoDup (map fst (uv_stores ws))
  /\ NoDup (map fst (index_stores ws)) /\ NoDup (map fst (normal_stores ws)).

(** All stores of a whole compile pass over [cells], in cell order. *)
Definition all_stores (cells : list vec4) : list store :=
  concat (map (cell_work cells) (seq 0 (length cells))).

(** *** What the compiled box mesh is, array by array *)
Definition cell_box_vertices (c : vec4) : list vec4 :=
  box_vertices (create_box (Vec3 (x4 c) (y4 c) (z4 c))).

Definition cell_uvs (c : vec4) : list vec2 := create_uvs (to_int8 (w4 c)).

Definition cell_indices (cell : nat) : list Z :=
  map (fun o => to_uint32 (Z.of_nat (o + 24 * cell))) box_index_offsets.

Definition box_mesh (cells : list vec4) : mesh :=
  Mesh (concat (map cell_box_vertices cells))
       (concat (map cell_uvs cells))
       (concat (map (fun _ => box_normals) cells))
       (concat (map cell_indices (seq 0 (length cells)))).

(** What a buffer holds after a compile of [cells] was added to it. *)
Definition staged (cells : list vec4) : list mesh :=
  match cells with [] => [] | _ :: _ => [box_mesh cells] end.

(** The calls an upload makes on its buffer. *)
Definition upload_calls (cells : list vec4) : list vb_call :=
  match cells with
  | [] => [VbClear; VbBind; VbUpload]
  | _ :: _ => [VbClear; VbAddMesh; VbBind; VbUpload]
  end.

(** *** Inputs of the examples *)
Definition fresh_terrain : terrain :=
  Build_terrain vb_new vb_new empty_mesh [].

Definition one_cell_mesh (c : vec4) : mesh := Mesh [c] [] [] [].

(** A mesh with a vertex but neither uv nor normal. *)
Definition short_uv_mesh : mesh := Mesh [Vec4 0 0 0 1] [] [] [0%Z].

Definition two_cells : list vec4 := [Vec4 0 0 0 0; Vec4 1 0 0 9].

Definition two_workers : schedule := Schedule [1] [1; 0; 0; 1; 1; 0].

(** A cell buffer of 178956971 cells: the 24 * 178956971 vertices are
    more than a [uint32_t] index can tell apart. *)
Definition many_cells : list vec4 :=
  replicate (N.to_nat 178956971) vec4_zero.

(** A point mesh of 2^31 vertices, one more than the largest [int]. *)
Definition many_points : mesh :=
  Mesh (replicate (N.to_nat 2147483648) vec4_zero) [] [] [].

(** A point mesh of five cells that still carries two stale indices. *)
Definition five_points : mesh :=
  Mesh [Vec4 0 0 0 0; Vec4 1 0 0 1; Vec4 2 0 0 2; Vec4 3 0 0 3;
        Vec4 4 0 0 4] [] [] [7; 7]%Z.


(** *** Axes, to speak about faces *)
Inductive axis := AxisX | AxisY | AxisZ.

Definition coord3 (a : axis) (p : vec3) : Q :=
  match a with AxisX => x3 p | AxisY => y3 p | AxisZ => z3 p end.


(** The unit vector along [a], pointing up ([true]) or down the axis. *)
Definition unit_normal (a : axis) (up : bool) : vec3 :=
  let s := (if up then 1.0 else -1.0)%Q in
  match a with
  | AxisX => Vec3 s 0.0 0.0
  | AxisY => Vec3 0.0 s 0.0
  | AxisZ => Vec3 0.0 0.0 s
  end.


(** The two coordinates of the box of [create_box] along an axis: the
    [float] difference and the [float] sum of the centre and 0.5. *)
Definition box_lo (centre : Q) : Q := fsub centre 0.5.
Definition box_hi (centre : Q) : Q := fadd centre 0.5.




(** A centre that is a multiple of one half, of magnitude below 2^22. *)
Definition on_half_grid (centre : Q) : Prop :=
  exists n : Z, (Z.abs n < 2 ^ 23)%Z /\ (centre == inject_Z n / 2)%Q.

(** The two axes other than [a]. *)
Definition other_axes (a : axis) : axis * axis :=
  match a with
  | AxisX => (AxisY, AxisZ)
  | AxisY => (AxisZ, AxisX)
  | AxisZ => (AxisX, AxisY)
  end.

Definition cell_position (c : vec4) : vec3 := Vec3 (x4 c) (y4 c) (z4 c).

(** The four vertices of face [f]: its two triangles are the index
    triples at [3f] and at [18 + 3f], which name [3f, 3f+1, 3f+2] and
    [3f, 18+f, 3f+1]. *)
Definition face_quad (f : nat) : list nat :=
  [3 * f; 3 * f + 1; 3 * f + 2; 18 + f]%nat.


End Terrain.

(** ** world.h: when the view geometry is rebuilt *)
Module World.
Import Terrain.

(** The world, as far as [update] and [generate_terrain] touch it.
    [recent_chunk] is the key kept by the grid ([get_recent_chunk],
    [update_chunk]); [view_uploads] is bookkeeping of the embedding: the
    chunk list of every [upload_geometry] call made so far, oldest
    first. *)
Record world := Build_world {
  _terrain : terrain;
  _view_chunks : list nat;
  recent_chunk : nat;
  view_uploads : list (list nat)
}.

Section Grid.
(** The grid of game/cgrid.h is not among the sources; [world] uses it
    through these queries, which stay parameters. *)

(** [cgrid::chunk_key(p, is_valid)]: the chunk key of a position; the
    second component is the value the call leaves in [is_valid], which
    the caller had set to [true]. *)
Variable chunk_key : vec3 -> nat * bool.

(** [cgrid::get_view_chunks]: the chunks within the streaming radius of
    the recent chunk. *)
Variable get_view_chunks : nat -> list nat.

(** [cgrid::get_chunk]: the cells of one chunk, each a [vec4] of position
    and atlas id. *)
Variable get_chunk : nat -> mesh.

(** Modelled from the spec: [cgrid::update_chunk(key)] stores the key as
    the recent chunk. *)
Definition update_chunk (key : nat) (w : world) : world :=
  Build_world (_terrain w) (_view_chunks w) key (view_uploads w).

Definition generate_terrain (sch : schedule) (w : world)
    : world * option string :=
  let view_chunks := get_view_chunks (recent_chunk w) in
  let f := fun key => get_chunk key in
  let '(t, thrown) := upload_geometry sch view_chunks f (_terrain w) in
  (Build_world t view_chunks (recent_chunk w)
     (view_uploads w ++ [view_chunks]), thrown).

(** [update], from the player position [p] that the physics step left,
    up to the terrain: the mobs, the particles and the uniforms that
    follow do not reach the terrain. *)
Definition update (sch : schedule) (p : vec3) (w : world)
    : world * option string :=
  let '(current_chunk, is_valid) := chunk_key p in
  let recent_chunk0 := recent_chunk w in
  if is_valid && negb (recent_chunk0 =? current_chunk)
  then generate_terrain sch (update_chunk current_chunk w)
  else (w, None).

End Grid.

(** A grid for the examples: chunks eight units wide along x, over
    [0 <= x < 64]; positions outside are not valid and get key 0. *)
Definition line_chunk_key (p : vec3) : nat * bool :=
  if Qle_bool 0 (x3 p) && negb (Qle_bool 64 (x3 p))
  then (Z.to_nat (Qfloor (x3 p / 8)), true)
  else (0, false).

Definition line_view_chunks (recent : nat) : list nat :=
  [recent; recent + 1].

Definition line_get_chunk (key : nat) : mesh :=
  Mesh [Vec4 (inject_Z (Z.of_nat (8 * key))) 0 0 1] [] [] [].

(** A world whose viewer was last seen in chunk 1. *)
Definition start_world : world := Build_world fresh_terrain [] 1 [].

End World.

(** ** terrain_vertex.h: the interleaved vertex layout *)
Module VertexLayout.
Import Terrain.

(** [sizeof(T)] for [T = float]; a [vec4<T>], [vec2<T>] and [vec3<T>] hold
    their four, two and three components and nothing else. *)
Definition sizeof_T : nat := 4.
Definition sizeof_vec4 : nat := 4 * sizeof_T.
Definition sizeof_vec2 : nat := 2 * sizeof_T.
Definition sizeof_vec3 : nat := 3 * sizeof_T.

(** The constants of the box build. *)
Definition vertex_size : nat := sizeof_vec4.
Definition uv_size : nat := sizeof_vec2.
Definition normal_size : nat := sizeof_vec3.
Definition uv_off : nat := vertex_size / sizeof_T.
Definition normal_off : nat := uv_off + uv_size / sizeof_T.
Definition width_bytes : nat := vertex_size + uv_size + normal_size.
Definition width_size : nat := width_bytes / sizeof_T.
Definition width : nat := width_size.

(** The constants of the point build ([USE_GS_RENDER]). *)
Definition gs_width_bytes : nat := sizeof_vec4.
Definition gs_width_size : nat := gs_width_bytes / sizeof_T.
Definition gs_width : nat := gs_width_size.

(** The floats a vector is made of, in memory order. *)
Definition floats4 (v : vec4) : list Q := [x4 v; y4 v; z4 v; w4 v].
Definition floats2 (t : vec2) : list Q := [x2 t; y2 t].
Definition floats3 (n : vec3) : list Q := [x3 n; y3 n; z3 n].

(** [std::memcpy(&data[j], src, bytes)] as the stores of floats it makes. *)
Definition memcpy (j : nat) (src : list Q) (bytes : nat) : list (nat * Q) :=
  imap (fun k x => (j + k, x)) (take (bytes / sizeof_T) src).

(** The body of the lambda of [copy] for vertex [i].  Reading [m.uv[i]] or
    [m.normal[i]] past the end is undefined in C++; the embedding stores
    nothing then. *)
Definition copy_work (m : mesh) (mesh_offset : nat) (i : nat)
    : list (nat * Q) :=
  match vertex m !! i, uv m !! i, normal m !! i with
  | Some v, Some t, Some n =>
      let j := mesh_offset + i * width_size in
      memcpy j (floats4 v) vertex_size
      ++ memcpy (j + uv_off) (floats2 t) uv_size
      ++ memcpy (j + normal_off) (floats3 n) normal_size
  | _, _, _ => []
  end.

(** Workers that store into one array, taking turns as in
    [Terrain.run_threads]. *)
Fixpoint run_threads_on {A} (picks : list nat)
    (threads : list (list (nat * A))) (l : list A) : list A :=
  match picks with
  | [] => write_all (concat threads) l
  | j :: picks' =>
      match threads !! j with
      | Some (s :: rest) =>
          run_threads_on picks' (<[j:=rest]> threads) (<[fst s:=snd s]> l)
      | _ => run_threads_on picks' threads l
      end
  end.

(** Modelled from the spec: [work_queue::worker.run(work, first, last)], as
    [Terrain.run], for a work function that stores into a float array. *)
Definition run_on {A} (sch : schedule) (work : nat -> list (nat * A))
    (first last : nat) (l : list A) : list A :=
  run_threads_on (picks sch)
    (map (fun r => concat (map work (seq (fst r) (snd r))))
       (split_range (cuts sch) first (last - first)))
    l.

(** [copy] of the box build. *)
Definition copy (sch : schedule) (data : list Q) (m : mesh)
    (mesh_offset : nat) : list Q :=
  run_on sch (copy_work m mesh_offset) 0 (length (vertex m)) data.

(** [copy] of the point build: a plain loop over the vertices, [j] moving
    on by [width_size] each time. *)
Definition copy_gs (data : list Q) (m : mesh) (mesh_offset : nat) : list Q :=
  fst (foldl (fun '(data, j) v =>
                (write_all (memcpy j (floats4 v) sizeof_vec4) data,
                 j + gs_width_size))
         (data, mesh_offset) (vertex m)).

(** One [glVertexAttribPointer(location, size, type, GL_FALSE, stride,
    pointer)]; [stride] and [pointer] are in bytes. *)
Record attrib := Attrib {
  location : nat;
  components : nat;
  stride : nat;
  pointer : nat
}.

(** The attributes [create] declares, box build and point build. *)
Definition create : list attrib :=
  [ Attrib 0 4 width_bytes 0;
    Attrib 1 2 width_bytes (uv_off * sizeof_T);
    Attrib 2 3 width_bytes (normal_off * sizeof_T) ].

Definition create_gs : list attrib := [ Attrib 0 4 gs_width_bytes 0 ].

(** What OpenGL reads for attribute [a] of vertex [i] from a buffer of
    floats: [components a] floats starting at byte
    [pointer a + stride a * i]. *)
Definition fetch (a : attrib) (buffer : list Q) (i : nat) : list Q :=
  take (components a) (drop ((pointer a + stride a * i) / sizeof_T) buffer).

(** The rows of the interleaved array, one per vertex. *)
Definition row (v : vec4) (t : vec2) (n : vec3) : list Q :=
  floats4 v ++ floats2 t ++ floats3 n.

Definition rows (m : mesh) : list (list Q) :=
  zip_with (fun v tn => row v (fst tn) (snd tn)) (vertex m)
    (zip (uv m) (normal m)).

(** A small mesh for examples: two vertices with uv and normal. *)
Definition two_vertex_mesh : mesh :=
  Mesh [Vec4 1 2 3 1; Vec4 4 5 6 1] [Vec2 0 1; Vec2 1 0]
       [Vec3 0 1 0; Vec3 0 0 1] [0%Z; 1%Z].

End VertexLayout.

(** ** Vocabulary for the geometry of the box *)
Module BoxGeometry.
Import Terrain.

Definition vec3_of (v : vec4) : vec3 := Vec3 (x4 v) (y4 v) (z4 v).

(** The difference of two points and the cross product, as vectors of
    the space the coordinates lie in: without rounding. *)
Definition edge (a b : vec3) : vec3 :=
  Vec3 (x3 a - x3 b) (y3 a - y3 b) (z3 a - z3 b).

Definition cross (a b : vec3) : vec3 :=
  Vec3 (y3 a * z3 b - z3 a * y3 b)
       (z3 a * x3 b - x3 a * z3 b)
       (x3 a * y3 b - y3 a * x3 b).

Definition vec3_times (s : Q) (n : vec3) : vec3 :=
  Vec3 (s * x3 n) (s * y3 n) (s * z3 n).

(** Equality of vectors up to the representation of the rationals. *)
Definition vec3_eqv (a b : vec3) : Prop :=
  x3 a == x3 b /\ y3 a == y3 b /\ z3 a == z3 b.

(** The extent of a box along an axis. *)
Definition extent (b : aabbox) (a : axis) : Q :=
  coord3 a (get_max b) - coord3 a (get_min b).

(** The area of the face of a box that is orthogonal to [a]. *)
Definition face_area (b : aabbox) (a : axis) : Q :=
  extent b (fst (other_axes a)) * extent b (snd (other_axes a)).

(** The index triples of a [GL_TRIANGLES] index list. *)
Fixpoint triangles (l : list nat) : list (nat * nat * nat) :=
  match l with
  | a :: b :: c :: l' => (a, b, c) :: triangles l'
  | _ => []
  end.

Definition box_triangles : list (nat * nat * nat) :=
  triangles box_index_offsets.

(** The axis and the direction of the normal of each of the six faces,
    in the order in which [set_cell] stores them. *)
Definition face_axes : list (axis * bool) :=
  [ (AxisY, false); (AxisY, true); (AxisX, false); (AxisZ, false);
    (AxisX, true); (AxisZ, true) ].

(** Triangles [f] and [6 + f] make up face [f]. *)
Definition triangle_face (tau : nat) : nat := tau mod 6.








(** Half a unit off the position [p] there are [float] numbers along
    every axis, so that [create_box] does not round. *)
Definition exact_box (p : vec3) : Prop :=
  forall a,
    Float.representable Float.binary32 (coord3 a p - 0.5)
    /\ Float.representable Float.binary32 (coord3 a p + 0.5).

(** The least distance, in x or in y, between uv coordinates of
    different materials that the statement below gives. *)
Definition slot_gap : Q := 0.000999.

(** [t] lies in the slot of [id], up to [uv_eps]. *)
Definition inside_slot (id : Z) (t : vec2) : bool :=
  Qle_bool (slot_x0 id - uv_eps) (x2 t)
  && Qle_bool (x2 t) (slot_x0 id + slot_side + uv_eps)
  && Qle_bool (slot_y0 id - uv_eps) (y2 t)
  && Qle_bool (y2 t) (slot_y0 id + slot_side + uv_eps).

(** [t] lies in the texture, a thousandth off the left and lower
    border. *)
Definition inside_texture (t : vec2) : bool :=
  Qle_bool 0.001 (x2 t) && Qle_bool (x2 t) 1
  && Qle_bool 0.001 (y2 t) && Qle_bool (y2 t) 1.

(** An axis-aligned rectangle of the texture. *)
Record rectangle := Rectangle {
  x_lo : Q; x_hi : Q; y_lo : Q; y_hi : Q
}.

(** The rectangle between entry 2 and entry 13 of a list of 24 uv
    coordinates, the entries that come from the base corners (0, 0) and
    (1, 1). *)
Definition rectangle_of (uvs : list vec2) : rectangle :=
  let t0 := default vec2_zero (uvs !! 2) in
  let t1 := default vec2_zero (uvs !! 13) in
  Rectangle (x2 t0) (x2 t1) (y2 t0) (y2 t1).

(** The rectangle that the stored uv coordinates of a material span. *)
Definition uv_rectangle (id : Z) : rectangle := rectangle_of (create_uvs id).

Definition inside_rectangle (r : rectangle) (t : vec2) : bool :=
  Qle_bool (x_lo r) (x2 t) && Qle_bool (x2 t) (x_hi r)
  && Qle_bool (y_lo r) (y2 t) && Qle_bool (y2 t) (y_hi r).

(** Two rectangles that are [slot_gap] apart in x or in y. *)
Definition rectangles_apart (r1 r2 : rectangle) : bool :=
  Qle_bool (x_hi r1 + slot_gap) (x_lo r2)
  || Qle_bool (x_hi r2 + slot_gap) (x_lo r1)
  || Qle_bool (y_hi r1 + slot_gap) (y_lo r2)
  || Qle_bool (y_hi r2 + slot_gap) (y_lo r1).

(** [t] is a corner of [r]. *)
Definition rectangle_corner (r : rectangle) (t : vec2) : Prop :=
  (x2 t == x_lo r \/ x2 t == x_hi r) /\ (y2 t == y_lo r \/ y2 t == y_hi r).

(** [r] is the slot of [id] up to [uv_eps], and not empty. *)
Definition near_slot (id : Z) (r : rectangle) : Prop :=
  near uv_eps (x_lo r) (slot_x0 id) = true
  /\ near uv_eps (x_hi r) (slot_x0 id + slot_side) = true
  /\ near uv_eps (y_lo r) (slot_y0 id) = true
  /\ near uv_eps (y_hi r) (slot_y0 id + slot_side) = true
  /\ (x_lo r < x_hi r)%Q /\ (y_lo r < y_hi r)%Q.

(** Two uv coordinates that differ in x and in y. *)
Definition opposite (t1 t2 : vec2) : Prop :=
  ~ x2 t1 == x2 t2 /\ ~ y2 t1 == y2 t2.

Definition same_uv (t1 t2 : vec2) : Prop :=
  x2 t1 == x2 t2 /\ y2 t1 == y2 t2.

(** The same as tests, to go through the table of all materials and
    faces. *)
Definition rectangle_corner_b (r : rectangle) (t : vec2) : bool :=
  (Qeq_bool (x2 t) (x_lo r) || Qeq_bool (x2 t) (x_hi r))
  && (Qeq_bool (y2 t) (y_lo r) || Qeq_bool (y2 t) (y_hi r)).

Definition near_slot_b (id : Z) (r : rectangle) : bool :=
  near uv_eps (x_lo r) (slot_x0 id)
  && near uv_eps (x_hi r) (slot_x0 id + slot_side)
  && near uv_eps (y_lo r) (slot_y0 id)
  && near uv_eps (y_hi r) (slot_y0 id + slot_side)
  && negb (Qle_bool (x_hi r) (x_lo r))
  && negb (Qle_bool (y_hi r) (y_lo r)).

Definition opposite_b (t1 t2 : vec2) : bool :=
  negb (Qeq_bool (x2 t1) (x2 t2)) && negb (Qeq_bool (y2 t1) (y2 t2)).

Definition same_uv_b (t1 t2 : vec2) : bool :=
  Qeq_bool (x2 t1) (x2 t2) && Qeq_bool (y2 t1) (y2 t2).

Definition face_uvs_ok (r : rectangle) (uvs : list vec2) (f : nat) : bool :=
  match map (fun k => uvs !! k) (face_quad f) with
  | [Some t0; Some t1; Some t2; Some t3] =>
      forallb (rectangle_corner_b r) [t0; t1; t2; t3]
      && opposite_b t0 t1 && opposite_b t2 t3
      && negb (same_uv_b t2 t0) && negb (same_uv_b t2 t1)
  | _ => false
  end.

Definition atlas_ok (id : Z) : bool :=
  let uvs := create_uvs id in
  let r := rectangle_of uvs in
  near_slot_b id r
  && forallb (face_uvs_ok r uvs) (seq 0 6)
  && forallb (fun t => inside_rectangle r t && inside_slot id t
                       && inside_texture t) uvs.

(** Any two rectangles of a table with different keys are apart. *)
Definition apart_in (table : list (Z * rectangle)) : bool :=
  forallb (fun p1 =>
             forallb (fun p2 =>
                        Z.eqb (fst p1) (fst p2)
                        || rectangles_apart (snd p1) (snd p2))
               table)
    table.

End BoxGeometry.

(** ** terrain.h, point build ([USE_GS_RENDER]) *)
Module TerrainGS.
Import Terrain.

(** The terrain object of the point build has the two vertex buffers and
    no parent mesh or cell buffer. *)
Record terrain := Build_terrain {
  _pb : vertex_buffer;
  _gb : vertex_buffer
}.

(** [f] hands out references to the chunk meshes, and [generate_indices]
    writes through them: the chunk meshes are a store, [set_mesh] the
    store after the mesh of chunk [i] was overwritten. *)
Definition set_mesh (i : nat) (m : mesh) (f : nat -> mesh) : nat -> mesh :=
  fun k => if k =? i then m else f k.

(** One turn of the loop of [upload_geometry], lines 463-477; the third
    component is the exception on its way out, if any. *)
Definition add_chunk (st : (nat -> mesh) * vertex_buffer * option string)
    (i : nat) : option ((nat -> mesh) * vertex_buffer * option string) :=
  let '(f, gb, thrown) := st in
  match thrown with
  | Some _ => Some st
  | None =>
      let mesh := f i in
      if 0 <? length (vertex mesh)
      then
        match generate_indices mesh with
        | Some mesh =>
            let '(gb, thrown) :=
              vb_add_mesh TerrainVertex.check_gs mesh gb in
            Some (set_mesh i mesh f, gb, thrown)
        | None => None
        end
      else Some (f, gb, None)
  end.

(** The loop over [index]; there is no result once a turn had none. *)
Definition add_chunks (index : list nat)
    (st : (nat -> mesh) * vertex_buffer * option string)
    : option ((nat -> mesh) * vertex_buffer * option string) :=
  foldl (fun st i =>
           match st with Some st => add_chunk st i | None => None end)
    (Some st) index.

(** The result is [None] where [generate_indices] has no defined outcome
    for one of the chunk meshes. *)
Definition upload_geometry (index : list nat) (f : nat -> mesh)
    (t : terrain) : option ((nat -> mesh) * terrain * option string) :=
  let gb := vb_clear (_gb t) in
  match add_chunks index (f, gb, None) with
  | Some (f, gb, Some msg) => Some (f, Build_terrain (_pb t) gb, Some msg)
  | Some (f, gb, None) =>
      Some (f, Build_terrain (_pb t) (vb_upload (vb_bind gb)), None)
  | None => None
  end.

(** The first component is the caller's mesh after the call. *)
Definition upload_preview (terrain0 : mesh) (t : terrain)
    : option (mesh * terrain * option string) :=
  let pb := vb_clear (_pb t) in
  match generate_indices terrain0 with
  | Some terrain0 =>
      let '(pb, thrown) := vb_add_mesh TerrainVertex.check_gs terrain0 pb in
      match thrown with
      | Some msg => Some (terrain0, Build_terrain pb (_gb t), Some msg)
      | None =>
          Some (terrain0, Build_terrain (vb_upload (vb_bind pb)) (_gb t),
                None)
      end
  | None => None
  end.

Definition draw_placemark (t : terrain) : terrain * nat :=
  let '(pb, n) := vb_draw_all (vb_bind (_pb t)) in
  (Build_terrain pb (_gb t), n).

Definition draw_terrain (t : terrain) : terrain * nat :=
  let '(gb, n) := vb_draw_all (vb_bind (_gb t)) in
  (Build_terrain (_pb t) gb, n).

(** The chunks of [index] that have cells, in order. *)
Definition filled (index : list nat) (f : nat -> mesh) : list nat :=
  filter (fun i => 0 < length (vertex (f i))) index.

(** The vertices of [m] can be counted in an [int]. *)
Definition fits_int (m : mesh) : Prop :=
  (Z.of_nat (length (vertex m)) <= int_max)%Z.

(** The chunk meshes after an upload that visited [index]. *)
Definition visited (index : list nat) (f : nat -> mesh) (k : nat) : mesh :=
  if bool_decide (k ∈ index) && (0 <? length (vertex (f k)))
  then point_mesh (f k) else f k.

(** A point mesh of three cells, and chunk meshes for the examples:
    chunk 1 is empty, every other chunk has the three cells. *)
Definition three_points : mesh :=
  Mesh [Vec4 0 0 0 0; Vec4 1 0 0 1; Vec4 2 0 0 2] [] [] [].

Definition some_chunks (i : nat) : mesh :=
  if i =? 1 then empty_mesh else three_points.

Definition fresh_terrain : terrain := Build_terrain vb_new vb_new.

End TerrainGS.

(** ** world.h: editing, preview and drawing *)
Module Edit.
Import Terrain.

(** [min::vec3<int>] and [min::vec3<unsigned>]: the components of an
    unsigned vector are kept in [0, 2^32). *)
Record ivec3 := IVec3 { ix : Z; iy : Z; iz : Z }.

(** [min::ray<float, min::vec3>], as far as the world looks into it. *)
Record ray := Ray { get_origin : vec3; get_direction : vec3 }.

(** The grid of game/cgrid.h is not among the sources.  The world uses it
    through the member functions below, which stay an interface over the
    state [G] of the grid; a function that may change the grid returns
    the grid it leaves. *)
Class Cgrid (G : Type) := {
  (** the constructor, from grid size, chunk size and view chunk size *)
  cgrid : nat -> nat -> nat -> G;
  (** fills the preview mesh for an offset and a scale *)
  atlas_preview : G -> mesh -> ivec3 -> ivec3 -> mesh;
  (** the chunk key of a position, and the value left in [is_valid] *)
  chunk_key : G -> vec3 -> nat * bool;
  get_atlas : G -> Z;
  get_chunk : G -> nat -> mesh;
  get_recent_chunk : G -> nat;
  get_view_chunks : G -> list nat;
  grid_value : G -> vec3 -> Z;
  ray_trace_atlas : ray -> nat -> G -> G;
  ray_trace_last : G -> ray -> nat -> vec3;
  ray_trace_prev : G -> ray -> nat -> vec3;
  set_atlas : Z -> G -> G;
  (** start, scale, offset and atlas id; also returns the number of cells
      changed *)
  set_geometry : vec3 -> ivec3 -> ivec3 -> Z -> G -> G * Z;
  snap : vec3 -> vec3;
  (** [update_chunk] of a chunk key, and of a position *)
  update_chunk : nat -> G -> G;
  update_chunk_at : vec3 -> G -> G
}.

(** The world, as far as the grid, the terrain and the edit state go: the
    physics simulation, the mobs, the sky and the uniform buffers are
    left out.  [_particles] records the calls of [particle::load], oldest
    first. *)
Record world (G : Type) := Build_world {
  _terrain : terrain;
  _view_chunks : list nat;
  _terr_mesh : mesh;
  _scale : ivec3;
  _cached_offset : ivec3;
  _preview_offset : ivec3;
  _grid : G;
  _particles : list (vec3 * vec3 * Q);
  _ai_mode : bool;
  _edit_mode : bool
}.
Arguments Build_world {G}.
Arguments _terrain {G}.
Arguments _view_chunks {G}.
Arguments _terr_mesh {G}.
Arguments _scale {G}.
Arguments _cached_offset {G}.
Arguments _preview_offset {G}.
Arguments _grid {G}.
Arguments _particles {G}.
Arguments _ai_mode {G}.
Arguments _edit_mode {G}.

Definition _pre_max_scale : Z := 5.
Definition _pre_max_vol : Z :=
  _pre_max_scale * _pre_max_scale * _pre_max_scale.

Section World.
Context {G : Type} {grid : Cgrid G}.

(** [min::vec3<float>::normalize] takes a square root; it only feeds the
    direction of a particle effect and stays a parameter. *)
Variable normalize : vec3 -> vec3.

(** Assignments to one member. *)
Definition set_terrain (t : terrain) (w : world G) : world G :=
  Build_world t (_view_chunks w) (_terr_mesh w) (_scale w)
    (_cached_offset w) (_preview_offset w) (_grid w) (_particles w)
    (_ai_mode w) (_edit_mode w).

Definition set_view_chunks (view_chunks : list nat) (w : world G)
    : world G :=
  Build_world (_terrain w) view_chunks (_terr_mesh w) (_scale w)
    (_cached_offset w) (_preview_offset w) (_grid w) (_particles w)
    (_ai_mode w) (_edit_mode w).

Definition set_terr_mesh (m : mesh) (w : world G) : world G :=
  Build_world (_terrain w) (_view_chunks w) m (_scale w)
    (_cached_offset w) (_preview_offset w) (_grid w) (_particles w)
    (_ai_mode w) (_edit_mode w).

Definition set_scale (scale : ivec3) (w : world G) : world G :=
  Build_world (_terrain w) (_view_chunks w) (_terr_mesh w) scale
    (_cached_offset w) (_preview_offset w) (_grid w) (_particles w)
    (_ai_mode w) (_edit_mode w).

Definition set_cached_offset (offset : ivec3) (w : world G) : world G :=
  Build_world (_terrain w) (_view_chunks w) (_terr_mesh w) (_scale w)
    offset (_preview_offset w) (_grid w) (_particles w)
    (_ai_mode w) (_edit_mode w).

Definition set_preview_offset (offset : ivec3) (w : world G) : world G :=
  Build_world (_terrain w) (_view_chunks w) (_terr_mesh w) (_scale w)
    (_cached_offset w) offset (_grid w) (_particles w)
    (_ai_mode w) (_edit_mode w).

Definition set_grid (g : G) (w : world G) : world G :=
  Build_world (_terrain w) (_view_chunks w) (_terr_mesh w) (_scale w)
    (_cached_offset w) (_preview_offset w) g (_particles w)
    (_ai_mode w) (_edit_mode w).

(** [_particles->load(point, direction, size)]. *)
Definition particles_load (point direction : vec3) (size : Q)
    (w : world G) : world G :=
  Build_world (_terrain w) (_view_chunks w) (_terr_mesh w) (_scale w)
    (_cached_offset w) (_preview_offset w) (_grid w)
    (_particles w ++ [(point, direction, size)])
    (_ai_mode w) (_edit_mode w).

Definition set_ai_mode (b : bool) (w : world G) : world G :=
  Build_world (_terrain w) (_view_chunks w) (_terr_mesh w) (_scale w)
    (_cached_offset w) (_preview_offset w) (_grid w) (_particles w)
    b (_edit_mode w).

Definition set_edit_mode (b : bool) (w : world G) : world G :=
  Build_world (_terrain w) (_view_chunks w) (_terr_mesh w) (_scale w)
    (_cached_offset w) (_preview_offset w) (_grid w) (_particles w)
    (_ai_mode w) b.

(** Sequencing: the second component of a result is the exception on its
    way out, if any; what follows a throwing call is not run. *)
Definition and_then (r : world G * option string)
    (k : world G -> world G * option string) : world G * option string :=
  match r with
  | (w, Some msg) => (w, Some msg)
  | (w, None) => k w
  end.

Definition generate_terrain (sch : schedule) (w : world G)
    : world G * option string :=
  let w := set_view_chunks (get_view_chunks (_grid w)) w in
  let f := fun key => get_chunk (_grid w) key in
  let '(t, thrown) := upload_geometry sch (_view_chunks w) f (_terrain w) in
  (set_terrain t w, thrown).

Definition generate_preview (w : world G) : world G * option string :=
  let w := set_preview_offset (_cached_offset w) w in
  let w :=
    set_terr_mesh
      (atlas_preview (_grid w) (_terr_mesh w) (_preview_offset w) (_scale w))
      w in
  let '(t, thrown) := upload_preview (_terr_mesh w) (_terrain w) in
  (set_terrain t w, thrown).

(** The private [remove_block], of a point and a direction. *)
Definition remove_block_at (sch : schedule) (point direction : vec3)
    (w : world G) : world G * option string :=
  let '(g, removed) :=
    set_geometry point (_scale w) (_preview_offset w) (-1) (_grid w) in
  let w := set_grid g w in
  if (0 <? removed)%Z
  then and_then (generate_terrain sch w)
         (fun w => (particles_load point direction 5 w, None))
  else (w, None).

(** [update_uniform], as far as the cached offset goes; [forward] is the
    forward vector of the camera. *)
Definition update_uniform (forward : vec3) (w : world G) : world G :=
  let cached := _cached_offset w in
  let cached :=
    if Qle_bool 0 (x3 forward)
    then IVec3 1 (iy cached) (iz cached)
    else IVec3 (-1) (iy cached) (iz cached) in
  let cached :=
    if Qle_bool 0 (z3 forward)
    then IVec3 (ix cached) (iy cached) 1
    else IVec3 (ix cached) (iy cached) (-1) in
  set_cached_offset cached w.

(** [state] is the position and whether a saved state was loaded. *)
Definition character_load (sch : schedule) (state : vec3 * bool)
    (w : world G) : world G * option string :=
  let position := fst state in
  let w := set_grid (update_chunk_at position (_grid w)) w in
  and_then (generate_terrain sch w) (fun w =>
    if negb (snd state)
    then
      let w := set_scale (IVec3 3 3 3) w in
      let snapped := snap position in
      let direction := normalize (vec3_add position (Vec3 (-1) 0 0)) in
      and_then (remove_block_at sch snapped direction w) (fun w =>
        (set_scale (IVec3 1 1 1) w, None))
    else (w, None)).

(** The constructor.  The members are initialised first, the grid among
    them, then the sizes are checked.  A [chunk_size] of zero makes the
    remainder undefined in C++; here it is the [grid_size]. *)
Definition new_world (sch : schedule) (state : vec3 * bool)
    (grid_size chunk_size view_chunk_size : nat)
    : world G * option string :=
  let w :=
    Build_world fresh_terrain [] empty_mesh (IVec3 1 1 1) (IVec3 1 1 1)
      (IVec3 1 1 1) (cgrid grid_size chunk_size view_chunk_size) []
      false false in
  if negb (grid_size mod chunk_size =? 0)
  then
    (w, Some "world: chunk_size must be integer multiple of grid_size"%string)
  else
    and_then (generate_preview w) (fun w => character_load sch state w).

Definition add_block (sch : schedule) (r : ray) (w : world G)
    : world G * option string :=
  let traced := ray_trace_prev (_grid w) r 6 in
  let '(g, _) :=
    set_geometry traced (_scale w) (_preview_offset w) (get_atlas (_grid w))
      (_grid w) in
  generate_terrain sch (set_grid g w).

Definition ray_block (sch : schedule) (r : ray) (w : world G)
    : world G * option string :=
  generate_terrain sch (set_grid (ray_trace_atlas r 100 (_grid w)) w).

(** The public [remove_block], of a ray: the first component is the value
    returned when the call does not throw. *)
Definition remove_block (sch : schedule) (r : ray) (w : world G)
    : Z * (world G * option string) :=
  let traced := ray_trace_last (_grid w) r 6 in
  let value := grid_value (_grid w) traced in
  if (0 <=? value)%Z
  then
    let direction :=
      Vec3 (x3 (get_direction r) * -1) (y3 (get_direction r) * -1)
        (z3 (get_direction r) * -1) in
    (value, remove_block_at sch traced direction w)
  else (value, (w, None)).

Definition reset_scale (w : world G) : world G * option string :=
  generate_preview (set_scale (IVec3 1 1 1) w).

(** The force on the body of the character is left out. *)
Definition grappling (sch : schedule) (r : ray) (w : world G)
    : Z * (world G * option string) :=
  let traced := ray_trace_last (_grid w) r 100 in
  let atlas := grid_value (_grid w) traced in
  if negb (atlas =? -1)%Z
  then
    (atlas,
     and_then (reset_scale w) (fun w =>
       remove_block_at sch traced (get_direction r) w))
  else (atlas, (w, None)).

(** [update], from the player position [p] that the physics step left and
    the forward vector of the camera. *)
Definition update (sch : schedule) (p forward : vec3) (w : world G)
    : world G * option string :=
  let '(current_chunk, is_valid) := chunk_key (_grid w) p in
  let recent_chunk := get_recent_chunk (_grid w) in
  and_then
    (if is_valid && negb (recent_chunk =? current_chunk)
     then generate_terrain sch
            (set_grid (update_chunk current_chunk (_grid w)) w)
     else (w, None))
    (fun w => (update_uniform forward w, None)).

(** [draw]: the second component lists the numbers of elements that the
    draw calls of the terrain submit, in order. *)
Definition draw (w : world G) : world G * list nat :=
  let '(t, n) := draw_terrain (_terrain w) in
  let w := set_terrain t w in
  if _edit_mode w
  then
    let '(t, k) := draw_placemark (_terrain w) in
    (set_terrain t w, [n; k])
  else (w, [n]).

Definition set_atlas_id (id : Z) (w : world G) : world G * option string :=
  generate_preview (set_grid (set_atlas id (_grid w)) w).

Definition set_scale_x (dx : Z) (w : world G) : world G * option string :=
  if _edit_mode w
  then
    if negb (ix (_cached_offset w) =? ix (_preview_offset w))%Z
    then generate_preview w
    else if (ix (_scale w) <? _pre_max_scale)%Z
    then
      generate_preview
        (set_scale
           (IVec3 (to_uint32 (ix (_scale w) + dx)) (iy (_scale w))
              (iz (_scale w))) w)
    else (w, None)
  else (w, None).

Definition set_scale_y (dy : Z) (w : world G) : world G * option string :=
  if _edit_mode w
  then
    if negb (iy (_cached_offset w) =? iy (_preview_offset w))%Z
    then generate_preview w
    else if (iy (_scale w) <? _pre_max_scale)%Z
    then
      generate_preview
        (set_scale
           (IVec3 (ix (_scale w)) (to_uint32 (iy (_scale w) + dy))
              (iz (_scale w))) w)
    else (w, None)
  else (w, None).

Definition set_scale_z (dz : Z) (w : world G) : world G * option string :=
  if _edit_mode w
  then
    if negb (iz (_cached_offset w) =? iz (_preview_offset w))%Z
    then generate_preview w
    else if (iz (_scale w) <? _pre_max_scale)%Z
    then
      generate_preview
        (set_scale
           (IVec3 (ix (_scale w)) (iy (_scale w))
              (to_uint32 (iz (_scale w) + dz))) w)
    else (w, None)
  else (w, None).

Definition toggle_ai_mode (w : world G) : world G * bool :=
  (set_ai_mode (negb (_ai_mode w)) w, negb (_ai_mode w)).

Definition toggle_edit_mode (w : world G) : world G * bool :=
  (set_edit_mode (negb (_edit_mode w)) w, negb (_edit_mode w)).

(** *** Sequences of calls *)

(** A call of a public member function that reaches the grid, the terrain
    or the edit state, with its arguments. *)
Inductive call :=
  | Update (p forward : vec3)
  | AddBlock (r : ray)
  | RayBlock (r : ray)
  | RemoveBlock (r : ray)
  | Grappling (r : ray)
  | Draw
  | ResetScale
  | SetAtlasId (id : Z)
  | SetScaleX (dx : Z)
  | SetScaleY (dy : Z)
  | SetScaleZ (dz : Z)
  | ToggleAiMode
  | ToggleEditMode.

Definition do_call (sch : schedule) (c : call) (w : world G)
    : world G * option string :=
  match c with
  | Update p forward => update sch p forward w
  | AddBlock r => add_block sch r w
  | RayBlock r => ray_block sch r w
  | RemoveBlock r => snd (remove_block sch r w)
  | Grappling r => snd (grappling sch r w)
  | Draw => (fst (draw w), None)
  | ResetScale => reset_scale w
  | SetAtlasId id => set_atlas_id id w
  | SetScaleX dx => set_scale_x dx w
  | SetScaleY dy => set_scale_y dy w
  | SetScaleZ dz => set_scale_z dz w
  | ToggleAiMode => (fst (toggle_ai_mode w), None)
  | ToggleEditMode => (fst (toggle_edit_mode w), None)
  end.

(** The calls of a list in turn, up to the first that throws. *)
Definition do_calls (sch : schedule) (cs : list call) (w : world G)
    : world G * option string :=
  foldl (fun r c => and_then r (do_call sch c)) (w, None) cs.

(** The increments of the scale in a list of calls. *)
Definition increment (c : call) : option Z :=
  match c with
  | SetScaleX d | SetScaleY d | SetScaleZ d => Some d
  | _ => None
  end.

(** The cells of the view chunks of a grid, in the order of the upload. *)
Definition grid_cells (g : G) : list vec4 :=
  view_cells (get_view_chunks g) (get_chunk g).

(** The view buffer holds, staged and uploaded, the mesh compiled from
    the view chunks of the grid as it is now. *)
Definition view_current (w : world G) : Prop :=
  vb_data (_gb (_terrain w)) = staged (grid_cells (_grid w))
  /\ vb_gpu (_gb (_terrain w)) = staged (grid_cells (_grid w)).

(** The preview buffer holds the mesh compiled from the preview mesh. *)
Definition preview_current (w : world G) : Prop :=
  vb_data (_pb (_terrain w)) = staged (vertex (_terr_mesh w))
  /\ vb_gpu (_pb (_terrain w)) = staged (vertex (_terr_mesh w)).

(** A removal that reports no cell removed, and a change of the atlas id,
    leave the cells of the view chunks as they are. *)
Definition quiet_grid : Prop :=
  (forall point scale offset (g : G),
     (snd (set_geometry point scale offset (-1) g) <= 0)%Z ->
     grid_cells (fst (set_geometry point scale offset (-1) g))
     = grid_cells g)
  /\ (forall id (g : G), grid_cells (set_atlas id g) = grid_cells g).

End World.

(** The terrain after an upload of the view, and of the preview, compiled
    from [cells]. *)
Definition view_uploaded (cells : list vec4) (t : terrain) : terrain :=
  Build_terrain (_pb t)
    (VertexBuffer (staged cells) (staged cells)
       (vb_calls (_gb t) ++ upload_calls cells))
    (box_mesh cells) cells.

Definition preview_uploaded (cells : list vec4) (t : terrain) : terrain :=
  Build_terrain
    (VertexBuffer (staged cells) (staged cells)
       (vb_calls (_pb t) ++ upload_calls cells))
    (_gb t) (box_mesh cells) cells.

(** An offset as the constructor and [update_uniform] leave it. *)
Definition unit_offset (o : ivec3) : Prop :=
  (ix o = 1 \/ ix o = -1)%Z /\ iy o = 1%Z /\ (iz o = 1 \/ iz o = -1)%Z.

(** Every component of a scale lies between 1 and [b]. *)
Definition scale_within (b : Z) (s : ivec3) : Prop :=
  (1 <= ix s <= b /\ 1 <= iy s <= b /\ 1 <= iz s <= b)%Z.

(** *** A grid for the examples *)

(** One chunk that holds a list of cells; a ray ends where it starts. *)
Definition same_place (p : vec3) (c : vec4) : bool :=
  Qeq_bool (x3 p) (x4 c) && Qeq_bool (y3 p) (y4 c) && Qeq_bool (z3 p) (z4 c).

#[export] Instance list_grid : Cgrid (list vec4) := {
  cgrid := fun _ _ _ => [Vec4 0 0 0 1; Vec4 1 0 0 2];
  atlas_preview := fun g _ offset scale =>
    Mesh [Vec4 (inject_Z (ix offset)) (inject_Z (ix scale)) 0 3] [] [] [];
  chunk_key := fun _ p => (0, Qle_bool 0 (x3 p));
  get_atlas := fun _ => 3%Z;
  get_chunk := fun g _ => Mesh g [] [] [];
  get_recent_chunk := fun _ => 0;
  get_view_chunks := fun _ => [0];
  grid_value := fun g p =>
    match filter (fun c => same_place p c = true) g with
    | c :: _ => to_int8 (w4 c)
    | [] => (-1)%Z
    end;
  ray_trace_atlas := fun r _ g =>
    g ++ [Vec4 (x3 (get_origin r)) (y3 (get_origin r)) (z3 (get_origin r)) 3];
  ray_trace_last := fun _ r _ => get_origin r;
  ray_trace_prev := fun _ r _ => get_origin r;
  set_atlas := fun _ g => g;
  set_geometry := fun p _ _ atlas g =>
    if (atlas =? -1)%Z
    then (filter (fun c => same_place p c = false) g,
          Z.of_nat (length (filter (fun c => same_place p c = true) g)))
    else (g ++ [Vec4 (x3 p) (y3 p) (z3 p) (inject_Z atlas)], 1%Z);
  snap := fun p => p;
  update_chunk := fun _ g => g;
  update_chunk_at := fun _ g => g
}.

Definition start_state : vec3 * bool := (Vec3 0 0 0, false).

Definition start_world : world (list vec4) :=
  fst (new_world (fun v => v) two_workers start_state 8 4 3).

(** The camera turns, in edit mode, and the scale is asked to grow. *)
Definition turn_and_grow : list call :=
  [ToggleEditMode; Update (Vec3 0 0 0) (Vec3 (-1) 0 (-1)); SetScaleY 1].

(** The camera turns about, in edit mode, so that it looks down the x
    axis and still up the z axis. *)
Definition turned_x_world : world (list vec4) :=
  fst (do_calls two_workers
         [ToggleEditMode; Update (Vec3 0 0 0) (Vec3 (-1) 0 1)]
         start_world).

Definition grow_six_times : list call :=
  [ToggleEditMode; SetScaleX 1; SetScaleX 1; SetScaleX 1; SetScaleX 1;
   SetScaleX 1; SetScaleX 1].

Definition build_and_break : list call :=
  [AddBlock (Ray (Vec3 2 0 0) (Vec3 1 0 0));
   RemoveBlock (Ray (Vec3 7 0 0) (Vec3 1 0 0));
   SetAtlasId 2;
   Grappling (Ray (Vec3 1 0 0) (Vec3 0 1 0));
   RayBlock (Ray (Vec3 3 0 0) (Vec3 1 0 0));
   Draw].

End Edit.

(** ** gun_state.h *)
Module GunState.

(** A time point is kept as the milliseconds since the epoch of the
    clock; the functions that read the clock take the time [now] read
    as an argument. *)
Record gun_state := Build_gun_state {
  _charge : Q;
  _cool : Q;
  _energy : Z;
  _beam_mode : bool;
  _fire_mode : bool;
  _shoot_cooldown : bool
}.

(** [a << n] of an [int] and an [int8_t], converted to [uint32_t].  The
    shift is undefined in C++ for a negative [n] and for a result that
    is not below 2^32. *)
Definition shift_left (a n : Z) : Z := to_uint32 (Z.shiftl a n).

Definition get_charge_time (now : Q) (s : gun_state) : Q := now - _charge s.

Definition get_cool_time (now : Q) (s : gun_state) : Q := now - _cool s.

(** The constructor; the time points are those of the epoch. *)
Definition new_gun_state : gun_state :=
  Build_gun_state 0 0 0 true true false.

Definition set_energy (energy : Z) (s : gun_state) : gun_state :=
  Build_gun_state (_charge s) (_cool s) energy (_beam_mode s) (_fire_mode s)
    (_shoot_cooldown s).

Definition absorb (atlas_id : Z) (s : gun_state) : gun_state :=
  let value := shift_left 1 atlas_id in
  set_energy (to_uint32 (_energy s + value)) s.

Definition can_consume (atlas_id : Z) (s : gun_state) : bool :=
  let value := shift_left 2 atlas_id in
  if (value <=? _energy s)%Z then true else false.

Definition consume (atlas_id : Z) (s : gun_state) : gun_state :=
  let value := shift_left 2 atlas_id in
  set_energy (to_uint32 (_energy s - value)) s.

Definition will_consume (atlas_id : Z) (s : gun_state) : gun_state * bool :=
  let value := shift_left 2 atlas_id in
  if (value <=? _energy s)%Z
  then (set_energy (to_uint32 (_energy s - value)) s, true)
  else (s, false).

Definition get_energy (s : gun_state) : Z := _energy s.

Definition is_beam_charged (now : Q) (s : gun_state) : bool :=
  _beam_mode s && negb (_shoot_cooldown s)
  && negb (Qle_bool (get_charge_time now s) 1000).

Definition check_cooldown (now : Q) (s : gun_state) : gun_state * bool :=
  let s :=
    if _shoot_cooldown s
    then
      let dt := get_cool_time now s in
      if negb (Qle_bool dt 2000)
      then
        Build_gun_state (_charge s) (_cool s) (_energy s) (_beam_mode s)
          (_fire_mode s) (negb (_shoot_cooldown s))
      else s
    else s in
  (s, negb (_shoot_cooldown s)).

Definition start_charge (now : Q) (s : gun_state) : gun_state :=
  Build_gun_state now (_cool s) (_energy s) (_beam_mode s) (_fire_mode s)
    (_shoot_cooldown s).

Definition start_cooldown (now : Q) (s : gun_state) : gun_state :=
  Build_gun_state (_charge s) now (_energy s) (_beam_mode s) (_fire_mode s)
    true.

Definition toggle_beam_mode (s : gun_state) : gun_state :=
  Build_gun_state (_charge s) (_cool s) (_energy s) (negb (_beam_mode s))
    (_fire_mode s) (_shoot_cooldown s).

(** [check_cooldown] at each time of a list in turn; the result of the
    last call, [true] for no call on a gun that is not cooling. *)
Definition check_cooldowns (times : list Q) (s : gun_state)
    : gun_state * bool :=
  foldl (fun r now => check_cooldown now (fst r))
    (s, negb (_shoot_cooldown s)) times.

End GunState.

(** ** player.h *)
Module Player.

(** The player, without the physics body, the inventory and the skills:
    the velocity of the body is an argument where it is read, and
    [_forces] records the vectors handed to [force], oldest first.
    [_jump_count] is an [unsigned], [_land_count] a [size_t]. *)
Record player := Build_player {
  _land_vel : vec3;
  _jump_count : Z;
  _land_count : Z;
  _explode_id : Z;
  _airborn : bool;
  _exploded : bool;
  _falling : bool;
  _hooked : bool;
  _jet : bool;
  _landed : bool;
  _health : Q;
  _dead : bool;
  _forces : list vec3
}.

Definition _health_cap : Q := 100.


(** The constructor. *)
Definition new_player : player :=
  Build_player vec3_zero 0 0 (-1) false false false false false false
    _health_cap false [].

Definition force (f : vec3) (p : player) : player :=
  Build_player (_land_vel p) (_jump_count p) (_land_count p) (_explode_id p)
    (_airborn p) (_exploded p) (_falling p) (_hooked p) (_jet p) (_landed p)
    (_health p) (_dead p) (_forces p ++ [f]).

Definition set_health (health : Q) (dead : bool) (p : player) : player :=
  Build_player (_land_vel p) (_jump_count p) (_land_count p) (_explode_id p)
    (_airborn p) (_exploded p) (_falling p) (_hooked p) (_jet p) (_landed p)
    health dead (_forces p).

Definition set_jump_count (jump_count : Z) (p : player) : player :=
  Build_player (_land_vel p) jump_count (_land_count p) (_explode_id p)
    (_airborn p) (_exploded p) (_falling p) (_hooked p) (_jet p) (_landed p)
    (_health p) (_dead p) (_forces p).

Definition add_health (health : Q) (p : player) : player :=
  if negb (Qle_bool _health_cap (_health p))
  then
    let h := (_health p + health)%Q in
    let h := if negb (Qle_bool h _health_cap) then _health_cap else h in
    set_health h (_dead p) p
  else p.

Definition consume_health (health : Q) (p : player) : player :=
  let h := (_health p - health)%Q in
  set_health h (if Qle_bool h 0 then true else _dead p) p.

Definition drone_collide (p : player) : player := consume_health 5 p.

Definition has_landed (p : player) : player * bool :=
  (Build_player (_land_vel p) (_jump_count p) (_land_count p)
     (_explode_id p) (_airborn p) (_exploded p) (_falling p) (_hooked p)
     (_jet p) false (_health p) (_dead p) (_forces p),
   _landed p).

Definition jump (p : player) : player :=
  if negb (_hooked p)
  then
    if (_jump_count p =? 0)%Z && negb (_airborn p)
    then force (Vec3 0 900 0) (set_jump_count (to_uint32 (_jump_count p + 1)) p)
    else if (_jump_count p =? 1)%Z
    then force (Vec3 0 900 0) (set_jump_count (to_uint32 (_jump_count p + 1)) p)
    else p
  else p.

(** The skills are left out: [respawn] also sets their energy to zero. *)
Definition respawn (p : player) : player :=
  Build_player (_land_vel p) (_jump_count p) (_land_count p) (-1)
    (_airborn p) false (_falling p) false false (_landed p)
    _health_cap false (_forces p).

Section Body.
(** [min::vec3<float>::magnitude] takes a square root and stays a
    parameter. *)
Variable magnitude : vec3 -> Q.


End Body.

(** *** Sequences of calls on the health *)
Inductive health_call :=
  | AddHealth (health : Q)
  | ConsumeHealth (health : Q)
  | DroneCollide
  | Respawn.

Definition do_health (c : health_call) (p : player) : player :=
  match c with
  | AddHealth health => add_health health p
  | ConsumeHealth health => consume_health health p
  | DroneCollide => drone_collide p
  | Respawn => respawn p
  end.

Definition do_healths (cs : list health_call) (p : player) : player :=
  foldl (fun p c => do_health c p) p cs.

(** The amount a call adds or takes is not negative. *)
Definition fair (c : health_call) : Prop :=
  match c with
  | AddHealth health | ConsumeHealth health => (0 <= health)%Q
  | _ => True
  end.

(** [n] calls of [jump]. *)
Definition jumps (n : nat) (p : player) : player := Nat.iter n jump p.

(** How many of [n] calls of [jump] push the player. *)
Definition pushes (n : nat) (p : player) : nat :=
  if _hooked p then 0
  else if (_jump_count p =? 0)%Z
  then (if _airborn p then 0 else n `min` 2)
  else if (_jump_count p =? 1)%Z then n `min` 1
  else 0.

End Player.

(** ** explode_particle.h *)
Module ExplodeParticle.

(** The calls made on the emitter buffer. *)
Inductive emitter_call :=
  | Step (dt : Q)
  | Upload
  | Bind
  | DrawEmitter
  | SetSpeed (direction : vec3)
  | SetPosition (position : vec3)
  | Reset.

(** The particle, as far as its timer and its emitter go; [_ebuffer]
    records the calls made on the emitter, oldest first. *)
Record explode_particle := Build_explode_particle {
  _ebuffer : list emitter_call;
  _time : Q
}.

(** The constructor, after the emitter was set up. *)
Definition new_explode_particle : explode_particle :=
  Build_explode_particle [] 0.

Definition step (dt : Q) (s : explode_particle) : explode_particle :=
  Build_explode_particle (_ebuffer s ++ [Step dt; Upload]) (_time s).

(** [_time -= dt] is a subtraction of two [float] values. *)
Definition draw (dt : Q) (s : explode_particle) : explode_particle :=
  let s := step dt s in
  if negb (Qle_bool (_time s) 0)
  then
    Build_explode_particle (_ebuffer s ++ [Bind; DrawEmitter])
      (fsub (_time s) dt)
  else s.

Definition load (position direction : vec3) (time : Q)
    (s : explode_particle) : explode_particle :=
  Build_explode_particle
    (_ebuffer s ++ [SetSpeed direction; SetPosition position; Reset])
    time.

(** The frames of a list of frame times, in turn. *)
Definition draws (dts : list Q) (s : explode_particle) : explode_particle :=
  foldl (fun s dt => draw dt s) s dts.

Definition is_draw (c : emitter_call) : bool :=
  match c with DrawEmitter => true | _ => false end.

Definition is_step (c : emitter_call) : bool :=
  match c with Step _ => true | _ => false end.

(** How often the emitter was drawn, and stepped. *)
Definition drawn (s : explode_particle) : nat :=
  length (filter (fun c => is_draw c = true) (_ebuffer s)).

Definition stepped (s : explode_particle) : nat :=
  length (filter (fun c => is_step c = true) (_ebuffer s)).

(** The timer after the frame times of the first [k] frames were taken
    off, one after the other, in [float] arithmetic. *)
Definition timer (time : Q) (dts : list Q) (k : nat) : Q :=
  foldl fsub time (take k dts).

(** The calls of frame [j] when the first [k] frames are drawn. *)
Definition frame_calls (k j : nat) (dt : Q) : list emitter_call :=
  [Step dt; Upload] ++ (if j <? k then [Bind; DrawEmitter] else []).

Definition frames_calls (k : nat) (dts : list Q) : list emitter_call :=
  concat (imap (frame_calls k) dts).

(** Sixty frames of a tenth of a second, as a [float]. *)
Definition tenth : Q := to_float (double_literal 0.1).
Definition sixty_frames : list Q := replicate 60 tenth.

End ExplodeParticle.

(** * Facts *)

(** ** Runs of stores into one array *)
Module ArrayFacts.
Import Terrain.

Section Array.
Context {A : Type}.
Implicit Types (ws : list (nat * A)) (l : list A).

Lemma write_all_cons p v ws l :
  write_all ((p, v) :: ws) l = write_all ws (<[p:=v]> l).
Proof. reflexivity. Qed.

Lemma write_all_length ws l : length (write_all ws l) = length l.
Proof.
  revert l. induction ws as [|[p v] ws IH]; intros l; [done|].
  rewrite write_all_cons, IH. apply length_insert.
Qed.

(** An element no store goes to keeps its value. *)
Lemma write_all_lookup_other ws l p :
  p ∉ map fst ws -> write_all ws l !! p = l !! p.
Proof.
  revert l. induction ws as [|[q v] ws IH]; intros l Hp; [done|].
  rewrite write_all_cons, IH.
  - apply list_lookup_insert_ne. intros ->. apply Hp. simpl. left.
  - intros Hin. apply Hp. simpl. by right.
Qed.

(** An element exactly one store goes to holds the value stored. *)
Lemma write_all_lookup_stored ws l p v :
  NoDup (map fst ws) -> (p, v) ∈ ws -> p < length l ->
  write_all ws l !! p = Some v.
Proof.
  revert l. induction ws as [|[q u] ws IH]; intros l Hnd Hin Hlt.
  - by apply elem_of_nil in Hin.
  - simpl in Hnd. apply NoDup_cons in Hnd as [Hq Hnd].
    rewrite write_all_cons. apply elem_of_cons in Hin as [Heq|Hin].
    + inversion Heq; subst q u.
      rewrite write_all_lookup_other by done.
      by apply list_lookup_insert_eq.
    + apply IH; [done|done|]. by rewrite length_insert.
Qed.

Lemma elem_of_fst ws p : p ∈ map fst ws -> exists v, (p, v) ∈ ws.
Proof.
  induction ws as [|[q u] ws IH]; simpl; intros Hin.
  - by apply elem_of_nil in Hin.
  - apply elem_of_cons in Hin as [->|Hin].
    + exists u. left.
    + destruct (IH Hin) as [v Hv]. exists v. by right.
Qed.

(** The order of stores to distinct elements does not matter. *)
Lemma write_all_perm ws ws' l :
  ws ≡ₚ ws' -> NoDup (map fst ws) -> write_all ws l = write_all ws' l.
Proof.
  intros Hperm Hnd. apply list_eq. intros p.
  assert (Hfst : map fst ws ≡ₚ map fst ws') by by apply Permutation_map.
  assert (Hnd' : NoDup (map fst ws')) by by rewrite <- Hfst.
  destruct (decide (p ∈ map fst ws)) as [Hin|Hout].
  - destruct (elem_of_fst _ _ Hin) as [v Hv].
    destruct (decide (p < length l)) as [Hlt|Hge].
    + rewrite (write_all_lookup_stored ws l p v) by done.
      rewrite (write_all_lookup_stored ws' l p v); [done|done| |done].
      by rewrite <- Hperm.
    + rewrite !lookup_ge_None_2; [done| |];
        rewrite write_all_length; lia.
  - rewrite !write_all_lookup_other; [done| |done].
    by rewrite <- Hfst.
Qed.

(** Stores that visit every element once, in order, leave exactly the
    values stored. *)
Lemma write_all_seq ws l :
  map fst ws = seq 0 (length l) -> write_all ws l = map snd ws.
Proof.
  intros Hpos. apply list_eq. intros p.
  assert (Hlen : length ws = length l).
  { rewrite <- (length_map fst ws), Hpos. apply length_seq. }
  destruct (decide (p < length l)) as [Hlt|Hge].
  - destruct (lookup_lt_is_Some_2 ws p) as [[q v] Hq]; [lia|].
    assert (q = p) as ->.
    { assert (Hs : map fst ws !! p = Some q).
      { change (map fst ws) with (fst <$> ws).
        by rewrite list_lookup_fmap, Hq. }
      rewrite Hpos in Hs. apply lookup_seq in Hs. lia. }
    rewrite (write_all_lookup_stored ws l p v).
    + change (map snd ws) with (snd <$> ws).
      by rewrite list_lookup_fmap, Hq.
    + rewrite Hpos. apply NoDup_seq.
    + by eapply list_elem_of_lookup_2.
    + done.
  - rewrite !lookup_ge_None_2; [done| |].
    + rewrite length_map. lia.
    + rewrite write_all_length. lia.
Qed.

End Array.

End ArrayFacts.

(** ** Stores into the parent mesh, and their order *)
Module StoreFacts.
Import Terrain ArrayFacts.

Lemma mesh_eq (m1 m2 : mesh) :
  vertex m1 = vertex m2 -> uv m1 = uv m2 -> normal m1 = normal m2 ->
  index m1 = index m2 -> m1 = m2.
Proof. destruct m1, m2; simpl; congruence. Qed.

Lemma exec_app ws1 ws2 m : exec (ws1 ++ ws2) m = exec ws2 (exec ws1 m).
Proof. apply foldl_app. Qed.

Lemma exec_cons s ws m : exec (s :: ws) m = exec ws (do_store m s).
Proof. reflexivity. Qed.

Ltac by_stores :=
  let ws := fresh "ws" in
  let IH := fresh "IH" in
  intros ws; induction ws as [|[] ws IH]; intros ?;
  [reflexivity|rewrite exec_cons, IH; reflexivity ..].

Lemma vertex_exec : forall ws m,
  vertex (exec ws m) = write_all (vertex_stores ws) (vertex m).
Proof. by_stores. Qed.

Lemma uv_exec : forall ws m,
  uv (exec ws m) = write_all (uv_stores ws) (uv m).
Proof. by_stores. Qed.

Lemma index_exec : forall ws m,
  index (exec ws m) = write_all (index_stores ws) (index m).
Proof. by_stores. Qed.

Lemma normal_exec : forall ws m,
  normal (exec ws m) = write_all (normal_stores ws) (normal m).
Proof. by_stores. Qed.

(** Stores to pairwise distinct elements may be done in any order. *)
Lemma exec_perm ws ws' m :
  ws ≡ₚ ws' -> disjoint_stores ws -> exec ws m = exec ws' m.
Proof.
  intros Hperm (Hv & Hu & Hi & Hn). apply mesh_eq.
  - rewrite !vertex_exec. apply write_all_perm; [|done]. by rewrite Hperm.
  - rewrite !uv_exec. apply write_all_perm; [|done]. by rewrite Hperm.
  - rewrite !normal_exec. apply write_all_perm; [|done]. by rewrite Hperm.
  - rewrite !index_exec. apply write_all_perm; [|done]. by rewrite Hperm.
Qed.

Lemma NoDup_fst_omap {B} (f : store -> option (nat * B)) ws ws' :
  ws ≡ₚ ws' -> NoDup (map fst (omap f ws)) -> NoDup (map fst (omap f ws')).
Proof.
  intros Hperm Hnd.
  assert (Hfst : map fst (omap f ws) ≡ₚ map fst (omap f ws')).
  { apply Permutation_map. by rewrite Hperm. }
  by rewrite <- Hfst.
Qed.

Lemma disjoint_stores_perm ws ws' :
  ws ≡ₚ ws' -> disjoint_stores ws -> disjoint_stores ws'.
Proof.
  intros Hperm (Hv & Hu & Hi & Hn).
  repeat split; eapply NoDup_fst_omap; eauto.
Qed.

Lemma disjoint_stores_tail s ws :
  disjoint_stores (s :: ws) -> disjoint_stores ws.
Proof.
  unfold disjoint_stores.
  intros (Hv & Hu & Hi & Hn).
  destruct s; simpl in *;
    repeat match goal with
           | H : NoDup (_ :: _) |- _ => apply NoDup_cons in H as [_ H]
           end; done.
Qed.

(** The next store of worker [j], pulled to the front. *)
Lemma concat_pick (threads : list (list store)) j s rest :
  threads !! j = Some (s :: rest) ->
  concat threads ≡ₚ s :: concat (<[j:=rest]> threads).
Proof.
  intros Hj.
  rewrite insert_take_drop by (by eapply lookup_lt_Some).
  rewrite <- (take_drop_middle threads j (s :: rest)) at 1 by done.
  rewrite !concat_app. simpl.
  by rewrite <- Permutation_middle.
Qed.

(** However the workers take turns, the mesh is the one the stores give
    in program order, as long as no element is stored to twice. *)
Lemma run_threads_exec picks : forall threads m,
  disjoint_stores (concat threads) ->
  run_threads picks threads m = exec (concat threads) m.
Proof.
  induction picks as [|j picks IH]; intros threads m Hd; [done|].
  simpl. destruct (threads !! j) as [[|s rest]|] eqn:Hj; try by apply IH.
  pose proof (concat_pick _ _ _ _ Hj) as Hperm.
  rewrite IH.
  - rewrite (exec_perm _ _ m Hperm Hd). reflexivity.
  - eapply disjoint_stores_tail, disjoint_stores_perm; [exact Hperm|done].
Qed.

Lemma worker_stores_split (work : nat -> list store) cuts : forall start size,
  concat (map (worker_stores work) (split_range cuts start size))
  = concat (map work (seq start size)).
Proof.
  induction cuts as [|c cuts IH]; intros start size; simpl.
  - unfold worker_stores. simpl. by rewrite app_nil_r.
  - rewrite IH. unfold worker_stores at 1. simpl.
    rewrite <- concat_app, <- map_app, <- seq_app.
    do 3 f_equal. lia.
Qed.

(** The sequential loop does the stores of all cells in cell order. *)
Lemma set_cells_loop_exec cells (ns : list nat) m :
  foldl (fun m i => set_cell cells i m) m ns
  = exec (concat (map (cell_work cells) ns)) m.
Proof.
  revert m. induction ns as [|i ns IH]; intros m; [done|].
  simpl. rewrite exec_app, IH. reflexivity.
Qed.

End StoreFacts.

(** ** The rounding of the float formats *)
Module FloatFacts.
Import Float.

(** On the samples, [round] gives the number that [binary_normalize] of
    the Standard Library's specification of IEEE 754 gives, for [float]
    and for [double]. *)
Lemma round_agrees_on_samples :
  forallb (fun me =>
             Qeq_bool (round binary32 (dyadic me))
               (of_spec_float binary32
                  (binary_normalize 24 128 (fst me) (snd me) false))
             && Qeq_bool (round binary64 (dyadic me))
                  (of_spec_float binary64
                     (binary_normalize 53 1024 (fst me) (snd me) false)))
    samples = true.
Proof. vm_compute. reflexivity. Qed.

(** Sums, differences and products of the finite [float] samples round
    as [SFadd], [SFsub] and [SFmul] have it. *)
Lemma operations_agree_on_samples :
  let floats :=
    List.filter finite
      (map (fun me => binary_normalize 24 128 (fst me) (snd me) false)
         samples) in
  let q := of_spec_float binary32 in
  forallb (fun x =>
             forallb (fun y =>
                        Qeq_bool (fadd (q x) (q y)) (q (SFadd 24 128 x y))
                        && Qeq_bool (fsub (q x) (q y)) (q (SFsub 24 128 x y))
                        && Qeq_bool (fmul (q x) (q y)) (q (SFmul 24 128 x y)))
               floats)
    floats = true.
Proof. vm_compute. reflexivity. Qed.

(** The [double] of a decimal literal [n / 1000] is the quotient that
    [SFdiv] gives for [n] and 1000. *)
Lemma literals_agree :
  let d (n : Z) := binary_normalize 53 1024 n 0 false in
  forallb (fun n =>
             Qeq_bool (double_literal (inject_Z n / 1000))
               (of_spec_float binary64 (SFdiv 53 1024 (d n) (d 1000%Z))))
    [1; 124; 126; 251; 376; 501; 626; 751; 876]%Z = true.
Proof. vm_compute. reflexivity. Qed.

Local Open Scope Q_scope.

Lemma pow2_Qpower z : pow2 z == 2 ^ z.
Proof.
  unfold pow2. destruct (Z.leb_spec 0 z) as [Hz|Hz].
  - by rewrite Zpower_Qpower.
  - replace z with (- - z)%Z at 2 by lia.
    rewrite Qpower_opp. change 2 with (inject_Z 2).
    rewrite <- Zpower_Qpower by lia.
    assert (Hpos : (0 < 2 ^ (- z))%Z) by (apply Z.pow_pos_nonneg; lia).
    destruct (2 ^ (- z))%Z as [|p|p] eqn:Hp; [lia| |lia].
    reflexivity.
Qed.

Lemma pow2_pos z : 0 < pow2 z.
Proof. rewrite pow2_Qpower. by apply Qpower_0_lt. Qed.

Lemma pow2_add x y : pow2 (x + y) == pow2 x * pow2 y.
Proof. rewrite !pow2_Qpower. by apply Qpower_plus. Qed.

Lemma pow2_le x y : (x <= y)%Z -> pow2 x <= pow2 y.
Proof.
  intros Hxy. rewrite !pow2_Qpower. apply Qpower_le_compat_l; [done|].
  discriminate.
Qed.

Lemma pow2_lt_inv x y : pow2 x < pow2 y -> (x < y)%Z.
Proof.
  rewrite !pow2_Qpower. intros Hlt.
  by apply (Qpower_lt_compat_l_inv 2).
Qed.

Lemma pow2_nonneg z : (0 <= z)%Z -> pow2 z = inject_Z (2 ^ z).
Proof. intros Hz. unfold pow2. by rewrite (proj2 (Z.leb_le _ _) Hz). Qed.

(** [ilog2] is the binary logarithm, rounded down. *)
Lemma ilog2_spec a : 0 < a -> pow2 (ilog2 a) <= a /\ a < pow2 (ilog2 a + 1).
Proof.
  intros Ha. destruct a as [n d].
  assert (Hn : (0 < n)%Z) by (unfold Qlt in Ha; simpl in Ha; lia).
  unfold ilog2. cbn [Qnum Qden].
  set (ln := Z.log2 n). set (ld := Z.log2 (Z.pos d)).
  assert (Hln0 : (0 <= ln)%Z) by apply Z.log2_nonneg.
  assert (Hld0 : (0 <= ld)%Z) by apply Z.log2_nonneg.
  destruct (Z.log2_spec n Hn) as [Hn1 Hn2]. fold ln in Hn1, Hn2.
  destruct (Z.log2_spec (Z.pos d) eq_refl) as [Hd1 Hd2]. fold ld in Hd1, Hd2.
  assert (Hqn1 : pow2 ln <= inject_Z n)
    by (rewrite pow2_nonneg by done; by rewrite <- Zle_Qle).
  assert (Hqn2 : inject_Z n < pow2 (ln + 1))
    by (rewrite pow2_nonneg by lia; by rewrite <- Zlt_Qlt).
  assert (Hqd1 : pow2 ld <= inject_Z (Z.pos d))
    by (rewrite pow2_nonneg by done; by rewrite <- Zle_Qle).
  assert (Hqd2 : inject_Z (Z.pos d) < pow2 (ld + 1))
    by (rewrite pow2_nonneg by lia; by rewrite <- Zlt_Qlt).
  assert (Had : (n # d) * inject_Z (Z.pos d) == inject_Z n).
  { unfold Qeq, Qmult, inject_Z. simpl. lia. }
  pose proof (pow2_pos ld) as Hpd.
  pose proof (pow2_pos (ln - ld)) as Hp0.
  pose proof (pow2_pos (ln - ld - 1)) as Hp1.
  assert (E1 : pow2 (ln + 1) == pow2 (ln - ld + 1) * pow2 ld)
    by (rewrite <- pow2_add; f_equiv; lia).
  assert (E2 : pow2 ln == pow2 (ln - ld - 1) * pow2 (ld + 1))
    by (rewrite <- pow2_add; f_equiv; lia).
  destruct (Qle_bool (pow2 (ln - ld)) (n # d)) eqn:Htest.
  - apply Qle_bool_iff in Htest. split; [done|].
    apply Qnot_le_lt. intros Hge.
    assert (pow2 (ln - ld + 1) * pow2 ld <= (n # d) * inject_Z (Z.pos d))
      by nra.
    lra.
  - assert (Hlt : n # d < pow2 (ln - ld)).
    { apply Qnot_le_lt. intros Hle. apply Qle_bool_iff in Hle. congruence. }
    replace (ln - ld - 1 + 1)%Z with (ln - ld)%Z by lia.
    split; [|done].
    apply Qnot_lt_le. intros Hgt.
    assert ((n # d) * inject_Z (Z.pos d)
            < pow2 (ln - ld - 1) * pow2 (ld + 1)) by nra.
    lra.
Qed.

Lemma nearest_even_Z x n : x == inject_Z n -> nearest_even x = n.
Proof.
  intros Hx. unfold nearest_even.
  assert (Hf : Qfloor x = n) by (rewrite Hx; apply Qfloor_Z).
  cbv zeta. rewrite Hf.
  assert (Hlt : (x - inject_Z n ?= 1 # 2) = Lt)
    by (rewrite <- Qlt_alt; lra).
  by rewrite Hlt.
Qed.

(** Rounding leaves the numbers of the format as they are: a number
    [m * 2 ^ e] whose significand [m] has at most [prec] bits and whose
    exponent [e] is not below [emin]. *)
Lemma round_exact f q m e :
  q == inject_Z m * pow2 e -> (Z.abs m < 2 ^ prec f)%Z -> (emin f <= e)%Z ->
  (0 <= prec f)%Z -> Qabs.Qabs q < pow2 (emax f) ->
  round f q == q.
Proof.
  intros Hq Hm He Hprec Hmax. unfold round, clamp, round_magnitude, exponent.
  cbv zeta.
  destruct (Qeq_bool q 0) eqn:H0.
  { apply Qeq_bool_eq in H0. by rewrite H0. }
  apply Qeq_bool_neq in H0.
  set (a := Qabs.Qabs q) in *.
  assert (Ha : 0 < a).
  { pose proof (Qabs.Qabs_nonneg q) as Hge. fold a in Hge.
    destruct (Qeq_dec a 0) as [Hz|Hz]; [|lra].
    apply Qabs.Qabs_case; intros; lra. }
  pose proof (pow2_pos e) as Hpe.
  assert (Ham : a == inject_Z (Z.abs m) * pow2 e).
  { unfold a. rewrite Hq, Qabs.Qabs_Qmult.
    change (Qabs.Qabs (inject_Z m)) with (inject_Z (Z.abs m)).
    by rewrite (Qabs.Qabs_pos (pow2 e)) by lra. }
  destruct (ilog2_spec a Ha) as [Hlo Hhi].
  set (L := ilog2 a) in *.
  assert (HL : (L < prec f + e)%Z).
  { apply pow2_lt_inv. rewrite pow2_add, (pow2_nonneg (prec f)) by done.
    assert (Hmq : inject_Z (Z.abs m) < inject_Z (2 ^ prec f))
      by (by rewrite <- Zlt_Qlt).
    nra. }
  set (e' := Z.max (L - (prec f - 1)) (emin f)).
  assert (He' : (e' <= e)%Z) by lia.
  pose proof (pow2_pos e') as Hpe'.
  set (N := (Z.abs m * 2 ^ (e - e'))%Z).
  assert (Hee : pow2 e == inject_Z (2 ^ (e - e')) * pow2 e').
  { rewrite <- pow2_nonneg by lia. rewrite <- pow2_add. f_equiv. lia. }
  assert (HaN : a / pow2 e' == inject_Z N).
  { unfold N. rewrite inject_Z_mult, Ham, Hee. field. lra. }
  rewrite (nearest_even_Z _ N HaN).
  assert (Hr : Qred (inject_Z N * pow2 e') == a).
  { rewrite Qred_correct, <- HaN. field. lra. }
  destruct (Qle_bool (pow2 (emax f)) (Qred (inject_Z N * pow2 e'))) eqn:Hov.
  { apply Qle_bool_iff in Hov. rewrite Hr in Hov. lra. }
  destruct (Qle_bool 0 q) eqn:Hs.
  - rewrite Hr. apply Qabs.Qabs_pos. by apply Qle_bool_iff.
  - rewrite Hr. unfold a.
    assert (Hneg : q <= 0).
    { apply Qlt_le_weak, Qnot_le_lt. intros Hle. apply Qle_bool_iff in Hle.
      congruence. }
    rewrite (Qabs.Qabs_neg q Hneg). ring.
Qed.

Lemma nearest_even_floor x :
  (Qfloor x <= nearest_even x <= Qfloor x + 1)%Z.
Proof.
  unfold nearest_even. cbv zeta.
  destruct (x - inject_Z (Qfloor x) ?= 1 # 2); [|lia|lia].
  destruct (Z.even (Qfloor x)); lia.
Qed.

Lemma nearest_even_le_Z x n : x <= inject_Z n -> (nearest_even x <= n)%Z.
Proof.
  intros Hx.
  assert (Hf : (Qfloor x <= n)%Z).
  { rewrite <- (Qfloor_Z n). by apply Qfloor_resp_le. }
  destruct (Z.eq_dec (Qfloor x) n) as [Heq|Hne].
  - assert (Hxn : x == inject_Z n).
    { apply Qle_antisym; [done|]. rewrite <- Heq. apply Qfloor_le. }
    by rewrite (nearest_even_Z x n Hxn).
  - pose proof (nearest_even_floor x). lia.
Qed.

Lemma nearest_even_ge_Z x n : inject_Z n <= x -> (n <= nearest_even x)%Z.
Proof.
  intros Hx.
  assert (Hf : (n <= Qfloor x)%Z).
  { rewrite <- (Qfloor_Z n). by apply Qfloor_resp_le. }
  pose proof (nearest_even_floor x). lia.
Qed.

Lemma nearest_even_mono x y : x <= y -> (nearest_even x <= nearest_even y)%Z.
Proof.
  intros Hxy.
  pose proof (Qfloor_resp_le x y Hxy) as Hf.
  pose proof (nearest_even_floor x) as Hx.
  pose proof (nearest_even_floor y) as Hy.
  destruct (Z.eq_dec (Qfloor x) (Qfloor y)) as [Heq|Hne]; [|lia].
  unfold nearest_even. cbv zeta. rewrite <- Heq.
  set (m := Qfloor x) in *.
  destruct (Qcompare_spec (x - inject_Z m) (1 # 2)) as [Hx2|Hx2|Hx2];
    destruct (Qcompare_spec (y - inject_Z m) (1 # 2)) as [Hy2|Hy2|Hy2];
    try (destruct (Z.even m)); try lia; lra.
Qed.

Lemma ilog2_mono x y : 0 < x -> x <= y -> (ilog2 x <= ilog2 y)%Z.
Proof.
  intros Hx Hxy.
  destruct (ilog2_spec x Hx) as [Hlo _].
  destruct (ilog2_spec y) as [_ Hhi]; [lra|].
  assert (Hlt : pow2 (ilog2 x) < pow2 (ilog2 y + 1)) by lra.
  apply pow2_lt_inv in Hlt. lia.
Qed.

(** The rounded magnitude without the reduction to lowest terms. *)
Lemma round_magnitude_eq f a :
  round_magnitude f a
  == inject_Z (nearest_even (a / pow2 (exponent f a))) * pow2 (exponent f a).
Proof. unfold round_magnitude. cbv zeta. apply Qred_correct. Qed.

Lemma pow2_quotient x y : pow2 x / pow2 y == pow2 (x - y).
Proof.
  pose proof (pow2_pos y) as Hy.
  assert (Hx : pow2 x == pow2 (x - y) * pow2 y)
    by (rewrite <- pow2_add; f_equiv; lia).
  rewrite Hx. field. lra.
Qed.

Lemma round_magnitude_nonneg f a : 0 <= a -> 0 <= round_magnitude f a.
Proof.
  intros Ha. rewrite round_magnitude_eq.
  pose proof (pow2_pos (exponent f a)) as He.
  assert (Hq : inject_Z 0 <= a / pow2 (exponent f a)).
  { change (inject_Z 0) with 0. apply Qle_shift_div_l; lra. }
  apply nearest_even_ge_Z in Hq.
  assert (Hn : inject_Z 0 <= inject_Z (nearest_even (a / pow2 (exponent f a))))
    by (by rewrite <- Zle_Qle).
  change (inject_Z 0) with 0 in Hn. nra.
Qed.

(** Rounding does not pass the next power of two. *)
Lemma round_magnitude_upper f a :
  0 < a -> round_magnitude f a <= pow2 (ilog2 a + 1).
Proof.
  intros Ha. rewrite round_magnitude_eq.
  destruct (ilog2_spec a Ha) as [_ Hhi].
  set (L := ilog2 a) in *. set (e := exponent f a).
  pose proof (pow2_pos e) as He.
  assert (Hq : a / pow2 e <= pow2 (L + 1 - e)).
  { rewrite <- pow2_quotient. apply Qle_shift_div_l; [done|].
    unfold Qdiv. rewrite <- Qmult_assoc, (Qmult_comm (/ pow2 e)).
    rewrite Qmult_inv_r by lra. lra. }
  assert (Hsplit : pow2 (L + 1) == pow2 (L + 1 - e) * pow2 e)
    by (rewrite <- pow2_add; f_equiv; lia).
  destruct (Z.le_gt_cases 0 (L + 1 - e)) as [Hpos|Hneg].
  - rewrite (pow2_nonneg _ Hpos) in Hq.
    apply nearest_even_le_Z in Hq.
    assert (Hn : inject_Z (nearest_even (a / pow2 e))
                 <= pow2 (L + 1 - e))
      by (rewrite (pow2_nonneg _ Hpos); by rewrite <- Zle_Qle).
    rewrite Hsplit. nra.
  - assert (Hhalf : pow2 (L + 1 - e) <= pow2 (-1)) by (apply pow2_le; lia).
    change (pow2 (-1)) with (1 # 2) in Hhalf.
    assert (Hzero : nearest_even (a / pow2 e) = 0%Z).
    { assert (Hq0 : 0 < a / pow2 e) by (apply Qlt_shift_div_l; lra).
      assert (Hq1 : a / pow2 e < pow2 (L + 1 - e)).
      { rewrite <- pow2_quotient. apply Qlt_shift_div_r; [done|].
        unfold Qdiv. rewrite <- Qmult_assoc, (Qmult_comm (/ pow2 e)).
        rewrite Qmult_inv_r by lra. lra. }
      assert (Hfl : Qfloor (a / pow2 e) = 0%Z).
      { pose proof (Qfloor_le (a / pow2 e)) as H1.
        pose proof (Qlt_floor (a / pow2 e)) as H2.
        assert (H3 : inject_Z (Qfloor (a / pow2 e)) < inject_Z 1)
          by (change (inject_Z 1) with 1; lra).
        assert (H4 : inject_Z 0 < inject_Z (Qfloor (a / pow2 e) + 1))
          by (change (inject_Z 0) with 0; lra).
        rewrite <- Zlt_Qlt in H3, H4. lia. }
      unfold nearest_even. cbv zeta. rewrite Hfl.
      assert (Hc : (a / pow2 e - inject_Z 0 ?= 1 # 2) = Lt).
      { rewrite <- Qlt_alt. change (inject_Z 0) with 0. lra. }
      by rewrite Hc. }
    rewrite Hzero. pose proof (pow2_pos (L + 1)). change (inject_Z 0) with 0.
    lra.
Qed.

(** In the normal range rounding does not fall below the power of two
    under the number. *)
Lemma round_magnitude_lower f a :
  (1 <= prec f)%Z -> 0 < a ->
  exponent f a = (ilog2 a - (prec f - 1))%Z ->
  pow2 (ilog2 a) <= round_magnitude f a.
Proof.
  intros Hprec Ha Hnormal. rewrite round_magnitude_eq, Hnormal.
  destruct (ilog2_spec a Ha) as [Hlo _].
  set (L := ilog2 a) in *. set (e := (L - (prec f - 1))%Z).
  pose proof (pow2_pos e) as He.
  assert (Hq : pow2 (L - e) <= a / pow2 e).
  { rewrite <- pow2_quotient. apply Qle_shift_div_l; [done|].
    unfold Qdiv. rewrite <- Qmult_assoc, (Qmult_comm (/ pow2 e)).
    rewrite Qmult_inv_r by lra. lra. }
  assert (Hsplit : pow2 L == pow2 (L - e) * pow2 e)
    by (rewrite <- pow2_add; f_equiv; lia).
  assert (Hpos : (0 <= L - e)%Z) by (unfold e; lia).
  rewrite (pow2_nonneg _ Hpos) in Hq.
  apply nearest_even_ge_Z in Hq.
  assert (Hn : pow2 (L - e) <= inject_Z (nearest_even (a / pow2 e)))
    by (rewrite (pow2_nonneg _ Hpos); by rewrite <- Zle_Qle).
  rewrite Hsplit. nra.
Qed.

Lemma round_magnitude_mono f x y :
  (1 <= prec f)%Z -> 0 < x -> x <= y ->
  round_magnitude f x <= round_magnitude f y.
Proof.
  intros Hprec Hx Hxy.
  pose proof (ilog2_mono x y Hx Hxy) as HL.
  destruct (Z.eq_dec (exponent f x) (exponent f y)) as [Heq|Hne].
  - rewrite !round_magnitude_eq, Heq.
    pose proof (pow2_pos (exponent f y)) as He.
    assert (Hq : x / pow2 (exponent f y) <= y / pow2 (exponent f y)).
    { apply Qle_shift_div_l; [done|].
      unfold Qdiv. rewrite <- Qmult_assoc, (Qmult_comm (/ pow2 _)).
      rewrite Qmult_inv_r by lra. lra. }
    apply nearest_even_mono in Hq.
    assert (Hn : inject_Z (nearest_even (x / pow2 (exponent f y)))
                 <= inject_Z (nearest_even (y / pow2 (exponent f y))))
      by (by rewrite <- Zle_Qle).
    nra.
  - assert (Hlt : (ilog2 x < ilog2 y)%Z) by (unfold exponent in Hne; lia).
    assert (Hnormal : exponent f y = (ilog2 y - (prec f - 1))%Z)
      by (unfold exponent in Hne |- *; lia).
    pose proof (round_magnitude_upper f x Hx) as Hup.
    pose proof (round_magnitude_lower f y Hprec ltac:(lra) Hnormal) as Hlow.
    assert (Hpow : pow2 (ilog2 x + 1) <= pow2 (ilog2 y))
      by (apply pow2_le; lia).
    lra.
Qed.

Lemma clamp_mono f r s : r <= s -> clamp f r <= clamp f s.
Proof.
  intros Hrs. unfold clamp.
  destruct (Qle_bool (pow2 (emax f)) r) eqn:Hr;
    destruct (Qle_bool (pow2 (emax f)) s) eqn:Hs; try lra.
  - apply Qle_bool_iff in Hr.
    assert (Hle : pow2 (emax f) <= s) by lra.
    apply Qle_bool_iff in Hle. congruence.
  - apply Qlt_le_weak, Qnot_le_lt. intros Hle. apply Qle_bool_iff in Hle.
    congruence.
Qed.

Lemma clamp_nonneg f r : 0 <= r -> 0 <= clamp f r.
Proof.
  intros Hr. unfold clamp. pose proof (pow2_pos (emax f)).
  destruct (Qle_bool (pow2 (emax f)) r); lra.
Qed.

Lemma round_zero f q : q == 0 -> round f q = 0.
Proof.
  intros Hq. unfold round. apply Qeq_bool_iff in Hq. by rewrite Hq.
Qed.

Lemma round_positive f q :
  0 < q -> round f q = clamp f (round_magnitude f (Qabs.Qabs q)).
Proof.
  intros Hq. unfold round.
  assert (Hne : Qeq_bool q 0 = false).
  { destruct (Qeq_bool q 0) eqn:H0; [|done]. apply Qeq_bool_iff in H0. lra. }
  assert (Hpos : Qle_bool 0 q = true) by (apply Qle_bool_iff; lra).
  by rewrite Hne, Hpos.
Qed.

Lemma round_negative f q :
  q < 0 -> round f q = - clamp f (round_magnitude f (Qabs.Qabs q)).
Proof.
  intros Hq. unfold round.
  assert (Hne : Qeq_bool q 0 = false).
  { destruct (Qeq_bool q 0) eqn:H0; [|done]. apply Qeq_bool_iff in H0. lra. }
  assert (Hneg : Qle_bool 0 q = false).
  { destruct (Qle_bool 0 q) eqn:H0; [|done]. apply Qle_bool_iff in H0. lra. }
  by rewrite Hne, Hneg.
Qed.


(** Rounding keeps the order. *)
Lemma round_mono f x y :
  (1 <= prec f)%Z -> x <= y -> round f x <= round f y.
Proof.
  intros Hprec Hxy.
  assert (Hmag : forall q, 0 <= clamp f (round_magnitude f (Qabs.Qabs q))).
  { intros q. apply clamp_nonneg, round_magnitude_nonneg, Qabs.Qabs_nonneg. }
  destruct (Q_dec x 0) as [[Hx|Hx]|Hx]; destruct (Q_dec y 0) as [[Hy|Hy]|Hy];
    try lra.
  - rewrite (round_negative f x Hx), (round_negative f y Hy).
    apply Qopp_le_compat, clamp_mono, round_magnitude_mono; [done| |].
    + rewrite Qabs.Qabs_neg by lra. lra.
    + rewrite !Qabs.Qabs_neg by lra. lra.
  - rewrite (round_negative f x Hx), (round_positive f y Hy).
    pose proof (Hmag x). pose proof (Hmag y). lra.
  - rewrite (round_negative f x Hx), (round_zero f y Hy).
    pose proof (Hmag x). lra.
  - rewrite (round_positive f x Hx), (round_positive f y Hy).
    apply clamp_mono, round_magnitude_mono; [done| |].
    + rewrite Qabs.Qabs_pos by lra. lra.
    + rewrite !Qabs.Qabs_pos by lra. lra.
  - rewrite (round_zero f x Hx), (round_positive f y Hy). apply Hmag.
  - rewrite (round_zero f x Hx), (round_zero f y Hy). lra.
Qed.

Lemma round_representable f q :
  (0 <= prec f)%Z -> representable f q -> round f q == q.
Proof.
  intros Hprec (m & e & Hq & Hm & He & Hmax).
  by apply (round_exact f q m e).
Qed.

Lemma half_steps (centre : Q) (n : Z) :
  centre == inject_Z n / 2 ->
  centre - 0.5 == inject_Z (n - 1) * pow2 (-1)
  /\ centre + 0.5 == inject_Z (n + 1) * pow2 (-1).
Proof.
  intros Hc. change (pow2 (-1)) with (1 # 2).
  replace (n - 1)%Z with (n + -1)%Z by lia.
  rewrite !inject_Z_plus, Hc.
  change (inject_Z (-1)) with (-1). change (inject_Z 1) with 1.
  split; field.
Qed.

Lemma half_step_bound (k : Z) :
  (Z.abs k < 2 ^ 24)%Z ->
  Qabs.Qabs (inject_Z k * pow2 (-1)) < pow2 (emax binary32).
Proof.
  intros Hk. rewrite Qabs.Qabs_Qmult.
  change (Qabs.Qabs (inject_Z k)) with (inject_Z (Z.abs k)).
  change (Qabs.Qabs (pow2 (-1))) with (1 # 2).
  change (pow2 (emax binary32)) with (inject_Z (2 ^ 128)).
  assert (H1 : inject_Z (Z.abs k) < inject_Z (2 ^ 24))
    by (by rewrite <- Zlt_Qlt).
  assert (H2 : inject_Z (2 ^ 24) <= inject_Z (2 ^ 128))
    by (rewrite <- Zle_Qle; lia).
  assert (H3 : inject_Z 0 <= inject_Z (Z.abs k)) by (rewrite <- Zle_Qle; lia).
  change (inject_Z 0) with 0 in H3.
  lra.
Qed.

(** Half a unit off a centre on the half-unit grid there are [float]
    numbers. *)
Lemma half_grid_representable (centre : Q) :
  Terrain.on_half_grid centre ->
  representable binary32 (centre - 0.5)
  /\ representable binary32 (centre + 0.5).
Proof.
  intros (n & Hn & Hc). destruct (half_steps centre n Hc) as [Hlo Hhi].
  split.
  - exists (n - 1)%Z, (-1)%Z. split; [exact Hlo|].
    split; [change (prec binary32) with 24%Z; lia|].
    split; [vm_compute; discriminate|].
    rewrite Hlo. apply half_step_bound. lia.
  - exists (n + 1)%Z, (-1)%Z. split; [exact Hhi|].
    split; [change (prec binary32) with 24%Z; lia|].
    split; [vm_compute; discriminate|].
    rewrite Hhi. apply half_step_bound. lia.
Qed.

(** The two coordinates of the box along an axis are in order, and they
    are half a unit off the centre where that is a [float] number. *)
Lemma box_sides (centre : Q) :
  Terrain.box_lo centre <= Terrain.box_hi centre
  /\ (representable binary32 (centre - 0.5) ->
      Terrain.box_lo centre == centre - 0.5)
  /\ (representable binary32 (centre + 0.5) ->
      Terrain.box_hi centre == centre + 0.5).
Proof.
  unfold Terrain.box_lo, Terrain.box_hi, fsub, fadd.
  split; [|split].
  - apply round_mono; [vm_compute; discriminate|lra].
  - apply round_representable. vm_compute. discriminate.
  - apply round_representable. vm_compute. discriminate.
Qed.

Local Close Scope Q_scope.

(** The numbers met in the examples: the [float] of 0.001 lies above
    0.001, and at 2^24 half a unit is lost in either direction. *)
Example float_of_a_thousandth :
  to_float (double_literal 0.001) = (8589935 # 8589934592)%Q.
Proof. vm_compute. reflexivity. Qed.

Example half_lost_at_two_to_24 :
  fsub 16777216 0.5 = 16777216%Q /\ fadd 16777216 0.5 = 16777216%Q.
Proof. split; vm_compute; reflexivity. Qed.

End FloatFacts.

(** ** The atlas table *)
Module AtlasFacts.
Import Terrain.

(** The two ways out of the [switch] of [create_uvs]. *)
Lemma create_uvs_cases (id : Z) :
  (0 <= id <= 15)%Z /\ (exists dx dy, create_uvs id = atlas_slot dx dy base_uvs)
  \/ ~ (0 <= id <= 15)%Z /\ create_uvs id = base_uvs.
Proof.
  destruct id as [|p|p].
  - left. split; [lia|]. by eexists _, _.
  - do 4 (try destruct p as [p|p|]);
      first [ right; split; [lia|reflexivity]
            | left; split; [lia|]; by eexists _, _ ].
  - right. split; [lia|reflexivity].
Qed.

Lemma atlas_slot_length dx dy uvs :
  length (atlas_slot dx dy uvs) = length uvs.
Proof. unfold atlas_slot. apply length_map. Qed.

Lemma create_uvs_length (id : Z) : length (create_uvs id) = 24.
Proof.
  destruct (create_uvs_cases id) as [[_ (dx & dy & ->)]|[_ ->]];
    [apply atlas_slot_length|reflexivity].
Qed.

Lemma base_uvs_corners :
  Forall (fun b => (x2 b == 0 \/ x2 b == 1) /\ (y2 b == 0 \/ y2 b == 1))
    base_uvs.
Proof.
  unfold base_uvs.
  repeat (apply Forall_cons; split;
          [cbn [x2 y2]; split; first [left; reflexivity | right; reflexivity]|]).
  apply Forall_nil_2.
Qed.

Lemma atlas_slot_lookup dx dy uvs k b :
  uvs !! k = Some b ->
  atlas_slot dx dy uvs !! k = Some (slot_uv dx dy b).
Proof.
  intros Hk. unfold atlas_slot.
  change (map ?f uvs) with (f <$> uvs).
  by rewrite list_lookup_fmap, Hk.
Qed.

Lemma slot_uv_unfold dx dy b :
  slot_uv dx dy b
  = let scale := to_float (double_literal 0.124) in
    Vec2 (to_float (dadd (fmul (x2 b) scale) (double_literal dx)))
         (to_float (dadd (fmul (y2 b) scale) (double_literal dy))).
Proof. reflexivity. Qed.

(** The literals of the table, case by case, and how far the stored
    coordinates are from the numbers without rounding. *)
Lemma create_uvs_table (id : Z) :
  (0 <= id <= 15)%Z ->
  exists x0 y0 : Q,
    x0 == slot_x0 id /\ y0 == slot_y0 id
    /\ create_uvs id = atlas_slot x0 y0 base_uvs
    /\ Forall (fun b =>
                 let scale := to_float (double_literal 0.124) in
                 near (1 # 67108864)
                   (to_float (dadd (fmul (x2 b) scale) (double_literal x0)))
                   (x2 b * 0.124 + x0)
                 && near (1 # 67108864)
                      (to_float
                         (dadd (fmul (y2 b) scale) (double_literal y0)))
                      (y2 b * 0.124 + y0)
                 = true) base_uvs.
Proof.
  intros Hid.
  assert (Hsixteen : In id material_ids)
    by (unfold material_ids; simpl; lia).
  unfold material_ids in Hsixteen. simpl in Hsixteen.
  repeat (destruct Hsixteen as [<-|Hsixteen];
          [eexists _, _; split; [|split; [|split; [reflexivity|]]];
           [vm_compute; reflexivity | vm_compute; reflexivity
           | apply (bool_decide_unpack _); vm_compute; reflexivity ]|]).
  contradiction.
Qed.

Lemma near_spec eps a b :
  near eps a b = true -> (Qabs.Qabs (a - b) <= eps)%Q.
Proof. unfold near. apply Qle_bool_imp_le. Qed.

(** C3, amended. For a material id in 0..15, [create_uvs] takes each of
    the 24 base corners (coordinates 0 or 1), multiplies it by the
    [float] nearest to 0.124 and adds, in [double], the literal
    [x0 = 0.001 + 0.125 * (id mod 8)] to x and
    [y0 = 0.876 - 0.125 * (id / 8)] to y; the sum is stored as a [float].
    What is stored is the rounded value, within 2^-26 of
    [corner * 0.124 + offset]. *)
Theorem create_uvs_atlas_offset (material_id : Z) :
  (0 <= material_id <= 15)%Z ->
  exists x0 y0 : Q,
    x0 == 0.001 + 0.125 * inject_Z (material_id mod 8)
    /\ y0 == 0.876 - 0.125 * inject_Z (material_id / 8)
    /\ create_uvs material_id = atlas_slot x0 y0 base_uvs
    /\ length (create_uvs material_id) = 24
    /\ Forall (fun b => (x2 b == 0 \/ x2 b == 1) /\ (y2 b == 0 \/ y2 b == 1))
         base_uvs
    /\ forall k b, base_uvs !! k = Some b ->
         let scale := to_float (double_literal 0.124) in
         let u := to_float (dadd (fmul (x2 b) scale) (double_literal x0)) in
         let v := to_float (dadd (fmul (y2 b) scale) (double_literal y0)) in
         create_uvs material_id !! k = Some (Vec2 u v)
         /\ (Qabs.Qabs (u - (x2 b * 0.124 + x0)) <= 1 # 67108864)%Q
         /\ (Qabs.Qabs (v - (y2 b * 0.124 + y0)) <= 1 # 67108864)%Q.
Proof.
  intros Hid.
  destruct (create_uvs_table material_id Hid)
    as (x0 & y0 & Hx & Hy & Huv & Hnear).
  exists x0, y0.
  split; [exact Hx|]. split; [exact Hy|]. split; [exact Huv|].
  split; [apply create_uvs_length|]. split; [apply base_uvs_corners|].
  intros k b Hk.
  pose proof (proj1 (Forall_forall _ _) Hnear b
                (list_elem_of_lookup_2 _ _ _ Hk)) as Hb.
  cbv beta zeta in Hb |- *.
  apply andb_true_iff in Hb as [Hbx Hby].
  split; [|split; [exact (near_spec _ _ _ Hbx)|exact (near_spec _ _ _ Hby)]].
  rewrite Huv, (atlas_slot_lookup _ _ _ _ _ Hk). apply f_equal.
  apply slot_uv_unfold.
Qed.

Lemma create_uvs_atlas_offset_witness :
  exists x0 y0 : Q,
    x0 == 0.001 + 0.125 * inject_Z (9 mod 8)
    /\ y0 == 0.876 - 0.125 * inject_Z (9 / 8)
    /\ create_uvs 9 = atlas_slot x0 y0 base_uvs
    /\ length (create_uvs 9) = 24
    /\ Forall (fun b => (x2 b == 0 \/ x2 b == 1) /\ (y2 b == 0 \/ y2 b == 1))
         base_uvs
    /\ forall k b, base_uvs !! k = Some b ->
         let scale := to_float (double_literal 0.124) in
         let u := to_float (dadd (fmul (x2 b) scale) (double_literal x0)) in
         let v := to_float (dadd (fmul (y2 b) scale) (double_literal y0)) in
         create_uvs 9 !! k = Some (Vec2 u v)
         /\ (Qabs.Qabs (u - (x2 b * 0.124 + x0)) <= 1 # 67108864)%Q
         /\ (Qabs.Qabs (v - (y2 b * 0.124 + y0)) <= 1 # 67108864)%Q.
Proof. apply (create_uvs_atlas_offset 9). lia. Defined.

(** C3 as first stated fails on "exactly": for material 0 the first base
    corner is (1, 0), and its y coordinate is stored as the [float]
    nearest to 0.876, which is 14696841 / 2^24 and not 0.876. *)
Lemma create_uvs_offset_is_rounded :
  base_uvs !! 0 = Some (Vec2 1.0 0.0)
  /\ create_uvs 0 !! 0 = Some (Vec2 (1 # 8) (14696841 # 16777216))
  /\ ~ (14696841 # 16777216 == 0.0 * 0.124 + 0.876).
Proof.
  split; [reflexivity|]. split; [vm_compute; reflexivity|].
  vm_compute. discriminate.
Qed.

(** C10. For an atlas id outside 0..15 no case of the [switch] applies:
    [create_uvs] returns the 24 base corners as they are, neither scaled
    by 0.124 nor offset; there is no error, no clamping and no wrapping. *)
Theorem create_uvs_out_of_range (atlas_id : Z) :
  (atlas_id < 0 \/ 15 < atlas_id)%Z ->
  create_uvs atlas_id = base_uvs
  /\ length (create_uvs atlas_id) = 24
  /\ Forall (fun b => (x2 b == 0 \/ x2 b == 1) /\ (y2 b == 0 \/ y2 b == 1))
       (create_uvs atlas_id).
Proof.
  intros Hout.
  destruct (create_uvs_cases atlas_id) as [[Hin _]|[_ Hbase]]; [lia|].
  rewrite Hbase. split; [done|]. split; [done|apply base_uvs_corners].
Qed.

Lemma create_uvs_out_of_range_witness :
  (create_uvs (-1) = base_uvs
   /\ length (create_uvs (-1)) = 24
   /\ Forall (fun b => (x2 b == 0 \/ x2 b == 1) /\ (y2 b == 0 \/ y2 b == 1))
        (create_uvs (-1)))
  /\ (create_uvs 16 = base_uvs
      /\ length (create_uvs 16) = 24
      /\ Forall (fun b => (x2 b == 0 \/ x2 b == 1) /\ (y2 b == 0 \/ y2 b == 1))
           (create_uvs 16)).
Proof.
  split.
  - apply (create_uvs_out_of_range (-1)). lia.
  - apply (create_uvs_out_of_range 16). lia.
Defined.

End AtlasFacts.

(** ** The mesh of a whole compile pass *)
Module CompileFacts.
Import Terrain ArrayFacts StoreFacts AtlasFacts.

Lemma omap_imap_some {A B C} (f : B -> option C) (l : list A) :
  forall (g : nat -> A -> B) (h : nat -> A -> C),
  (forall k x, f (g k x) = Some (h k x)) -> omap f (imap g l) = imap h l.
Proof.
  induction l as [|x l IH]; intros g h Hfg; [done|].
  simpl. rewrite Hfg. f_equal. apply IH. intros k y. apply Hfg.
Qed.

Lemma omap_imap_none {A B C} (f : B -> option C) (l : list A) :
  forall (g : nat -> A -> B),
  (forall k x, f (g k x) = None) -> omap f (imap g l) = [].
Proof.
  induction l as [|x l IH]; intros g Hfg; [done|].
  simpl. rewrite Hfg. apply IH. intros k y. apply Hfg.
Qed.

Lemma omap_concat {A B} (f : A -> option B) (ls : list (list A)) :
  omap f (concat ls) = concat (map (omap f) ls).
Proof.
  induction ls as [|l ls IH]; [done|].
  simpl. by rewrite omap_app, IH.
Qed.

(** Positions and values of a block of stores [g k], [k = 0, 1, ...]. *)
Lemma imap_fst_seq {A B} (h : A -> B) (l : list A) :
  forall (g : nat -> nat) (a : nat),
  (forall k, g k = a + k) ->
  map fst (imap (fun k x => (g k, h x)) l) = seq a (length l).
Proof.
  induction l as [|x l IH]; intros g a Hg; [done|].
  simpl. rewrite Hg, Nat.add_0_r. f_equal.
  apply (IH (g ∘ S) (S a)). intros k. simpl. rewrite Hg. lia.
Qed.

Lemma imap_snd_map {A B} (h : A -> B) (l : list A) :
  forall (g : nat -> nat), map snd (imap (fun k x => (g k, h x)) l) = map h l.
Proof.
  induction l as [|x l IH]; intros g; [done|].
  simpl. f_equal. apply (IH (g ∘ S)).
Qed.

Lemma imap_snd_id {A} (l : list A) (g : nat -> nat) :
  map snd (imap (fun k x => (g k, x)) l) = l.
Proof. etrans; [apply (imap_snd_map id l g)|apply map_id]. Qed.

(** The stores of one cell, array by array. *)
Ltac one_array :=
  unfold set_cell_stores, cell_box_vertices, cell_uvs;
  rewrite !omap_app;
  repeat match goal with
    | |- context [omap ?f (imap ?g ?l)] =>
        first [ rewrite (omap_imap_none f l g) by (intros; reflexivity)
              | erewrite (omap_imap_some f l g) by (intros; reflexivity) ]
    end;
  rewrite ?app_nil_r; reflexivity.

Lemma vertex_stores_cell c i :
  vertex_stores (set_cell_stores c i)
  = imap (fun k v => (24 * i + k, v)) (cell_box_vertices c).
Proof. one_array. Qed.

Lemma uv_stores_cell c i :
  uv_stores (set_cell_stores c i)
  = imap (fun k t => (k + 24 * i, t)) (cell_uvs c).
Proof. one_array. Qed.

Lemma index_stores_cell c i :
  index_stores (set_cell_stores c i)
  = imap (fun k o => (36 * i + k, to_uint32 (Z.of_nat (o + 24 * i))))
      box_index_offsets.
Proof. one_array. Qed.

Lemma normal_stores_cell c i :
  normal_stores (set_cell_stores c i)
  = imap (fun k n => (24 * i + k, n)) box_normals.
Proof. one_array. Qed.


(** *** All cells together *)

Lemma all_stores_imap cells :
  all_stores cells = concat (imap (fun i c => set_cell_stores c i) cells).
Proof.
  unfold all_stores. f_equal. apply list_eq. intros i.
  change (map (cell_work cells) (seq 0 (length cells)))
    with (cell_work cells <$> seq 0 (length cells)).
  rewrite list_lookup_fmap, list_lookup_imap.
  destruct (cells !! i) as [c|] eqn:Hc.
  - rewrite lookup_seq_lt by (by eapply lookup_lt_Some).
    simpl. unfold cell_work. by rewrite Hc.
  - rewrite lookup_seq_ge by (by apply lookup_ge_None). done.
Qed.

(** Blocks of [n] stores each, block [i] going to positions
    [n*i, ..., n*i + n - 1]: together they visit [0, ..., n*N - 1] in
    order. *)
Lemma blocks_fst {B C} (n : nat) (blk : nat -> C -> list (nat * B))
    (cells : list C) :
  (forall i c, map fst (blk i c) = seq (n * i) n) ->
  forall s,
    map fst (concat (imap (fun i c => blk (s + i) c) cells))
    = seq (n * s) (n * length cells).
Proof.
  intros Hblk. induction cells as [|c cells IH]; intros s.
  - simpl. by rewrite Nat.mul_0_r.
  - simpl. rewrite map_app, Hblk, Nat.add_0_r.
    rewrite (imap_ext _ (fun i c => blk (S s + i) c))
      by (intros; simpl; f_equal; lia).
    rewrite IH.
    replace (n * S (length cells)) with (n + n * length cells) by lia.
    rewrite seq_app. do 2 f_equal. lia.
Qed.

Lemma blocks_snd {B C} (blk : nat -> C -> list (nat * B))
    (vals : nat -> C -> list B) (cells : list C) :
  (forall i c, map snd (blk i c) = vals i c) ->
  forall s,
    map snd (concat (imap (fun i c => blk (s + i) c) cells))
    = concat (imap (fun i c => vals (s + i) c) cells).
Proof.
  intros Hblk. induction cells as [|c cells IH]; intros s; [done|].
  simpl. rewrite map_app, Hblk. f_equal.
  rewrite (imap_ext _ (fun i c => blk (S s + i) c))
    by (intros; simpl; f_equal; lia).
  rewrite IH. f_equal. apply imap_ext. intros; simpl; f_equal; lia.
Qed.

Lemma map_imap {A B C} (g : B -> C) (l : list A) :
  forall (f : nat -> A -> B),
  map g (imap f l) = imap (fun n x => g (f n x)) l.
Proof.
  induction l as [|x l IH]; intros f; [done|].
  simpl. f_equal. apply (IH (f ∘ S)).
Qed.

Lemma proj_all_stores {B} (f : store -> option (nat * B))
    (blk : nat -> vec4 -> list (nat * B)) (cells : list vec4) :
  (forall c i, omap f (set_cell_stores c i) = blk i c) ->
  omap f (all_stores cells) = concat (imap (fun i c => blk (0 + i) c) cells).
Proof.
  intros Hblk. rewrite all_stores_imap, omap_concat. f_equal.
  rewrite map_imap. apply imap_ext. intros i c _. apply Hblk.
Qed.

Lemma proj_all_fst {B} (f : store -> option (nat * B))
    (blk : nat -> vec4 -> list (nat * B)) (n : nat) (cells : list vec4) :
  (forall c i, omap f (set_cell_stores c i) = blk i c) ->
  (forall i c, map fst (blk i c) = seq (n * i) n) ->
  map fst (omap f (all_stores cells)) = seq 0 (n * length cells).
Proof.
  intros Hcell Hblk.
  rewrite (proj_all_stores f blk cells Hcell).
  rewrite (blocks_fst n blk cells Hblk 0). f_equal. lia.
Qed.

Lemma proj_all_snd {B} (f : store -> option (nat * B))
    (blk : nat -> vec4 -> list (nat * B)) (vals : nat -> vec4 -> list B)
    (cells : list vec4) :
  (forall c i, omap f (set_cell_stores c i) = blk i c) ->
  (forall i c, map snd (blk i c) = vals i c) ->
  map snd (omap f (all_stores cells)) = concat (imap vals cells).
Proof.
  intros Hcell Hblk.
  rewrite (proj_all_stores f blk cells Hcell).
  rewrite (blocks_snd blk vals cells Hblk 0). reflexivity.
Qed.

Lemma vertex_stores_all cells :
  map fst (vertex_stores (all_stores cells)) = seq 0 (24 * length cells)
  /\ map snd (vertex_stores (all_stores cells))
     = concat (map cell_box_vertices cells).
Proof.
  split.
  - apply (proj_all_fst vertex_of _ 24 cells vertex_stores_cell).
    intros i c.
    apply (imap_fst_seq id (cell_box_vertices c) (fun k => 24 * i + k)).
    done.
  - rewrite <- (imap_const cell_box_vertices).
    apply (proj_all_snd vertex_of _ _ cells vertex_stores_cell).
    intros i c.
    apply (imap_snd_id (cell_box_vertices c) (fun k => 24 * i + k)).
Qed.

Lemma uv_stores_all cells :
  map fst (uv_stores (all_stores cells)) = seq 0 (24 * length cells)
  /\ map snd (uv_stores (all_stores cells)) = concat (map cell_uvs cells).
Proof.
  split.
  - apply (proj_all_fst uv_of _ 24 cells uv_stores_cell).
    intros i c.
    etrans.
    { apply (imap_fst_seq id (cell_uvs c) (fun k => k + 24 * i) (24 * i)).
      intros; lia. }
    unfold cell_uvs. by rewrite create_uvs_length.
  - rewrite <- (imap_const cell_uvs).
    apply (proj_all_snd uv_of _ _ cells uv_stores_cell).
    intros i c.
    apply (imap_snd_id (cell_uvs c) (fun k => k + 24 * i)).
Qed.

Lemma normal_stores_all cells :
  map fst (normal_stores (all_stores cells)) = seq 0 (24 * length cells)
  /\ map snd (normal_stores (all_stores cells))
     = concat (map (fun _ => box_normals) cells).
Proof.
  split.
  - apply (proj_all_fst normal_of _ 24 cells normal_stores_cell).
    intros i c.
    apply (imap_fst_seq id box_normals (fun k => 24 * i + k)). done.
  - rewrite <- (imap_const (fun _ : vec4 => box_normals)).
    apply (proj_all_snd normal_of _ _ cells normal_stores_cell).
    intros i c.
    apply (imap_snd_id box_normals (fun k => 24 * i + k)).
Qed.

Lemma index_stores_all cells :
  map fst (index_stores (all_stores cells)) = seq 0 (36 * length cells)
  /\ map snd (index_stores (all_stores cells))
     = concat (map cell_indices (seq 0 (length cells))).
Proof.
  split.
  - apply (proj_all_fst index_of _ 36 cells index_stores_cell).
    intros i c.
    apply (imap_fst_seq (fun o => to_uint32 (Z.of_nat (o + 24 * i)))
             box_index_offsets (fun k => 36 * i + k)). done.
  - etrans.
    { apply (proj_all_snd index_of _ (fun i _ => cell_indices i) cells
               index_stores_cell).
      intros i c. apply imap_snd_map. }
    f_equal. apply (imap_seq_0 cells cell_indices).
Qed.

(** No element of the parent mesh is stored to twice in a compile pass. *)
Lemma all_stores_disjoint cells : disjoint_stores (all_stores cells).
Proof.
  repeat split.
  - rewrite (proj1 (vertex_stores_all cells)). apply NoDup_seq.
  - rewrite (proj1 (uv_stores_all cells)). apply NoDup_seq.
  - rewrite (proj1 (index_stores_all cells)). apply NoDup_seq.
  - rewrite (proj1 (normal_stores_all cells)). apply NoDup_seq.
Qed.

(** The stores of a pass, done in cell order on the mesh that
    [allocate_mesh_buffer] sized, give [box_mesh]: nothing of the previous
    contents of the parent mesh is left. *)
Lemma exec_all_stores cells parent :
  exec (all_stores cells) (allocate_mesh_buffer cells parent)
  = box_mesh cells.
Proof.
  apply mesh_eq; simpl.
  - rewrite vertex_exec. simpl. rewrite write_all_seq.
    + apply vertex_stores_all.
    + rewrite length_resize, (proj1 (vertex_stores_all cells)). f_equal; lia.
  - rewrite uv_exec. simpl. rewrite write_all_seq.
    + apply uv_stores_all.
    + rewrite length_resize, (proj1 (uv_stores_all cells)). f_equal; lia.
  - rewrite normal_exec. simpl. rewrite write_all_seq.
    + apply normal_stores_all.
    + rewrite length_resize, (proj1 (normal_stores_all cells)). f_equal; lia.
  - rewrite index_exec. simpl. rewrite write_all_seq.
    + apply index_stores_all.
    + rewrite length_resize, (proj1 (index_stores_all cells)). f_equal; lia.
Qed.

(** The loop of [upload_preview] and the parallel for of
    [upload_geometry] both end in [box_mesh]. *)
Lemma compile_preview_box cells parent :
  compile_preview cells parent = box_mesh cells.
Proof.
  unfold compile_preview, set_cells_loop. rewrite set_cells_loop_exec.
  apply exec_all_stores.
Qed.

Lemma compile_view_box sch cells parent :
  compile_view sch cells parent = box_mesh cells.
Proof.
  unfold compile_view, run. rewrite Nat.sub_0_r.
  rewrite run_threads_exec; rewrite worker_stores_split.
  - apply exec_all_stores.
  - apply all_stores_disjoint.
Qed.

End CompileFacts.

(** ** The compiled box mesh: sizes, indices, faces *)
Module BoxMeshFacts.
Import Terrain ArrayFacts StoreFacts AtlasFacts CompileFacts.

Lemma map_lookup {A B} (f : A -> B) (l : list A) i :
  map f l !! i = f <$> l !! i.
Proof. apply list_lookup_fmap. Qed.

(** Blocks of equal length [n], one after the other. *)
Lemma concat_block {A} (n : nat) (ls : list (list A)) :
  Forall (fun b => length b = n) ls ->
  forall i blk, ls !! i = Some blk -> take n (drop (n * i) (concat ls)) = blk.
Proof.
  intros Hall. induction Hall as [|b ls Hb Hall IH]; intros i blk Hi; [done|].
  destruct i as [|i]; simpl in Hi.
  - inversion Hi; subst blk. rewrite Nat.mul_0_r. simpl.
    by apply take_app_length'.
  - replace (n * S i) with (n + n * i) by lia. simpl.
    rewrite drop_app_add' by done. by apply IH.
Qed.

Lemma concat_block_lookup {A} (n : nat) (ls : list (list A)) i blk k :
  Forall (fun b => length b = n) ls -> ls !! i = Some blk -> k < n ->
  concat ls !! (n * i + k) = blk !! k.
Proof.
  intros Hall Hi Hk.
  rewrite <- lookup_drop, <- (lookup_take_lt _ n) by done.
  by erewrite concat_block.
Qed.

Lemma concat_blocks_length {A} (n : nat) (ls : list (list A)) :
  Forall (fun b => length b = n) ls -> length (concat ls) = n * length ls.
Proof.
  induction 1 as [|b ls Hb Hall IH]; simpl; [lia|].
  rewrite length_app, IH, Hb. lia.
Qed.

Lemma Forall_map_const {A B} (f : A -> list B) (n : nat) (l : list A) :
  (forall x, length (f x) = n) -> Forall (fun b => length b = n) (map f l).
Proof. intros Hf. induction l; simpl; constructor; auto. Qed.


Lemma cell_uvs_length c : length (cell_uvs c) = 24.
Proof. apply create_uvs_length. Qed.

Lemma cell_indices_length i : length (cell_indices i) = 36.
Proof. unfold cell_indices. by rewrite length_map. Qed.

Lemma box_mesh_lengths cells :
  length (vertex (box_mesh cells)) = 24 * length cells
  /\ length (uv (box_mesh cells)) = 24 * length cells
  /\ length (normal (box_mesh cells)) = 24 * length cells
  /\ length (index (box_mesh cells)) = 36 * length cells.
Proof.
  unfold box_mesh; cbn [vertex uv normal index]. repeat split.
  - rewrite (concat_blocks_length 24), length_map; [done|].
    by apply Forall_map_const.
  - rewrite (concat_blocks_length 24), length_map; [done|].
    apply Forall_map_const, cell_uvs_length.
  - rewrite (concat_blocks_length 24), length_map; [done|].
    by apply Forall_map_const.
  - rewrite (concat_blocks_length 36), length_map, length_seq; [done|].
    apply Forall_map_const, cell_indices_length.
Qed.

(** The block of cell [i] in each array. *)
Lemma box_mesh_vertex_lookup cells i c k :
  cells !! i = Some c -> k < 24 ->
  vertex (box_mesh cells) !! (24 * i + k) = cell_box_vertices c !! k.
Proof.
  intros Hi Hk. unfold box_mesh; cbn [vertex uv normal index].
  apply concat_block_lookup; [by apply Forall_map_const| |done].
  by rewrite map_lookup, Hi.
Qed.

Lemma box_mesh_uv_lookup cells i c k :
  cells !! i = Some c -> k < 24 ->
  uv (box_mesh cells) !! (24 * i + k) = cell_uvs c !! k.
Proof.
  intros Hi Hk. unfold box_mesh; cbn [vertex uv normal index].
  apply concat_block_lookup;
    [apply Forall_map_const, cell_uvs_length| |done].
  by rewrite map_lookup, Hi.
Qed.

Lemma box_mesh_normal_lookup cells i k :
  i < length cells -> k < 24 ->
  normal (box_mesh cells) !! (24 * i + k) = box_normals !! k.
Proof.
  intros Hi Hk. unfold box_mesh; cbn [vertex uv normal index].
  destruct (lookup_lt_is_Some_2 cells i Hi) as [c Hc].
  apply concat_block_lookup; [by apply Forall_map_const| |done].
  by rewrite map_lookup, Hc.
Qed.

Lemma box_mesh_index_lookup cells i k :
  i < length cells -> k < 36 ->
  index (box_mesh cells) !! (36 * i + k) = cell_indices i !! k.
Proof.
  intros Hi Hk. unfold box_mesh; cbn [vertex uv normal index].
  apply concat_block_lookup;
    [apply Forall_map_const, cell_indices_length| |done].
  rewrite map_lookup, lookup_seq_lt by done. reflexivity.
Qed.

Lemma cell_indices_lookup i k o :
  box_index_offsets !! k = Some o ->
  cell_indices i !! k = Some (to_uint32 (Z.of_nat (o + 24 * i))).
Proof. intros Hk. unfold cell_indices. by rewrite map_lookup, Hk. Qed.

Lemma box_index_offsets_bound :
  Forall (fun o => o < 24) box_index_offsets.
Proof. unfold box_index_offsets. repeat constructor. Qed.

Lemma to_uint32_bound z : (0 <= to_uint32 z < 2 ^ 32)%Z.
Proof. unfold to_uint32. apply Z.mod_pos_bound. lia. Qed.

Lemma to_uint32_small z : (0 <= z < 2 ^ 32)%Z -> to_uint32 z = z.
Proof. unfold to_uint32. apply Z.mod_small. Qed.

(** Every index of cell [i] is the wrapped ordinal of a vertex of the
    block of cell [i]. *)
Lemma box_mesh_index_value cells i k :
  i < length cells -> k < 36 ->
  exists o, o < 24
    /\ index (box_mesh cells) !! (36 * i + k)
       = Some (to_uint32 (Z.of_nat (o + 24 * i))).
Proof.
  intros Hi Hk.
  destruct (lookup_lt_is_Some_2 box_index_offsets k) as [o Ho]; [done|].
  exists o. split.
  - eapply (proj1 (Forall_lookup _ _) box_index_offsets_bound); eauto.
  - rewrite box_mesh_index_lookup by done. by apply cell_indices_lookup.
Qed.


Lemma compiled_is_box_mesh sch cells parent m :
  In m [compile_view sch cells parent; compile_preview cells parent] ->
  m = box_mesh cells.
Proof.
  intros [<-|[<-|[]]];
    [apply compile_view_box|apply compile_preview_box].
Qed.

Lemma box_mesh_index_bound cells :
  Forall (fun v => (0 <= v < Z.of_nat (24 * length cells))%Z)
    (index (box_mesh cells)).
Proof.
  apply Forall_lookup. intros j v Hj.
  pose proof (lookup_lt_Some _ _ _ Hj) as Hlt.
  rewrite (proj2 (proj2 (proj2 (box_mesh_lengths cells)))) in Hlt.
  assert (Hdm : j = 36 * (j `div` 36) + j `mod` 36) by apply Nat.div_mod_eq.
  assert (Hk : j `mod` 36 < 36) by (apply Nat.mod_upper_bound; lia).
  assert (Hi : j `div` 36 < length cells).
  { apply Nat.Div0.div_lt_upper_bound; lia. }
  destruct (box_mesh_index_value cells _ _ Hi Hk) as (o & Ho & Hv).
  rewrite <- Hdm, Hj in Hv.
  assert (v = to_uint32 (Z.of_nat (o + 24 * (j `div` 36)))) as ->
    by congruence.
  clear Hv Hdm Hj Hlt Hk. revert Hi. generalize (j `div` 36). intros i Hi.
  pose proof (to_uint32_bound (Z.of_nat (o + 24 * i))) as Hb.
  change (2 ^ 32)%Z with 4294967296%Z in Hb.
  destruct (decide (Z.of_nat (24 * length cells) <= 4294967296)%Z)
    as [Hs|Hl]; [|lia].
  rewrite to_uint32_small by (change (2 ^ 32)%Z with 4294967296%Z; lia).
  lia.
Qed.

(** C1, amended. A cell buffer of length N compiled in box mode has
    [vertex], [uv] and [normal] of length 24*N and [index] of length
    36*N; every index value is below 24*N; and for every cell [i] whose
    block ends at or below 2^32 (24*i + 24 <= 2^32), each of its 36
    indices, stored at 36*i .. 36*i + 35, lies in its own vertex block
    24*i .. 24*i + 23. *)
Theorem box_mesh_sizes_and_indices sch cells parent m :
  In m [compile_view sch cells parent; compile_preview cells parent] ->
  length (vertex m) = 24 * length cells
  /\ length (uv m) = 24 * length cells
  /\ length (normal m) = 24 * length cells
  /\ length (index m) = 36 * length cells
  /\ Forall (fun v => (0 <= v < Z.of_nat (24 * length cells))%Z) (index m)
  /\ forall i k,
       i < length cells -> k < 36 -> (Z.of_nat (24 * i + 24) <= 2 ^ 32)%Z ->
       exists v, index m !! (36 * i + k) = Some v
                 /\ (Z.of_nat (24 * i) <= v < Z.of_nat (24 * i + 24))%Z.
Proof.
  intros Hm. rewrite (compiled_is_box_mesh _ _ _ _ Hm).
  destruct (box_mesh_lengths cells) as (Hv & Hu & Hn & Hi).
  repeat (split; [done|]). split; [apply box_mesh_index_bound|].
  intros i k Hlt Hk Hfit.
  destruct (box_mesh_index_value cells i k Hlt Hk) as (o & Ho & Hval).
  eexists. split; [exact Hval|].
  rewrite to_uint32_small; lia.
Qed.

Lemma box_mesh_sizes_and_indices_witness :
  let m := compile_view two_workers two_cells empty_mesh in
  length (vertex m) = 24 * length two_cells
  /\ length (uv m) = 24 * length two_cells
  /\ length (normal m) = 24 * length two_cells
  /\ length (index m) = 36 * length two_cells
  /\ Forall (fun v => (0 <= v < Z.of_nat (24 * length two_cells))%Z)
       (index m)
  /\ forall i k,
       i < length two_cells -> k < 36 ->
       (Z.of_nat (24 * i + 24) <= 2 ^ 32)%Z ->
       exists v, index m !! (36 * i + k) = Some v
                 /\ (Z.of_nat (24 * i) <= v < Z.of_nat (24 * i + 24))%Z.
Proof.
  apply (box_mesh_sizes_and_indices two_workers two_cells empty_mesh).
  simpl. left. reflexivity.
Defined.

(** C1 as first stated fails once vertex ordinals pass 2^32: in a buffer
    of 178956971 cells, the last index of cell 178956970 is stored as
    (24 * 178956970 + 16) mod 2^32 = 0, outside the block of that cell. *)
Lemma box_mesh_index_wraps :
  N.to_nat 178956970 < length many_cells
  /\ index (compile_preview many_cells empty_mesh)
       !! (36 * N.to_nat 178956970 + 35) = Some 0%Z
  /\ ~ (Z.of_nat (24 * N.to_nat 178956970) <= 0
        < Z.of_nat (24 * N.to_nat 178956970 + 24))%Z.
Proof.
  assert (Hlt : N.to_nat 178956970 < length many_cells).
  { unfold many_cells. rewrite length_replicate. lia. }
  split; [exact Hlt|]. split; [|lia].
  rewrite compile_preview_box, box_mesh_index_lookup by (done || lia).
  rewrite (cell_indices_lookup _ 35 16 eq_refl).
  unfold to_uint32.
  rewrite Nat2Z.inj_add, Nat2Z.inj_mul, N_nat_Z. reflexivity.
Qed.


(** *** The cube of one cell *)











(** One cell at the origin with material 0, compiled by two workers: 24
    vertices, 36 indices, the first triangle is 0, 1, 2, and the first uv
    is the corner (1, 0) scaled and moved into atlas slot 0. *)
Example one_cell_compiled :
  let m := compile_view two_workers [Vec4 0 0 0 0] empty_mesh in
  length (vertex m) = 24 /\ length (index m) = 36
  /\ take 3 (index m) = [0; 1; 2]%Z
  /\ vertex m !! 1 = Some (Vec4 (1 # 2) (-1 # 2) (1 # 2) 1.0)
  /\ normal m !! 18 = Some (Vec3 0.0 (-1.0) 0.0)
  /\ uv m !! 0 = Some (Vec2 (1 # 8) (14696841 # 16777216)).
Proof.
  cbv zeta. rewrite compile_view_box.
  repeat split; vm_compute; reflexivity.
Qed.


(** The same by plain evaluation of the model: two workers taking turns
    store by store, one worker alone, and the sequential loop. *)
Example two_cells_evaluated :
  compile_view two_workers two_cells empty_mesh
  = compile_view (Schedule [] []) two_cells empty_mesh
  /\ compile_view two_workers two_cells empty_mesh
     = compile_preview two_cells short_uv_mesh.
Proof. split; vm_compute; reflexivity. Qed.

End BoxMeshFacts.

(** ** Uploads: what reaches the two vertex buffers *)
Module UploadFacts.
Import Terrain ArrayFacts StoreFacts AtlasFacts CompileFacts BoxMeshFacts.

Lemma check_box_mesh cells : TerrainVertex.check (box_mesh cells) = None.
Proof.
  unfold TerrainVertex.check.
  destruct (box_mesh_lengths cells) as (-> & -> & -> & _).
  by rewrite Nat.eqb_refl.
Qed.

Lemma check_spec m :
  TerrainVertex.check m = None
  <-> length (uv m) = length (vertex m)
      /\ length (normal m) = length (vertex m).
Proof.
  unfold TerrainVertex.check.
  destruct (Nat.eqb_spec (length (uv m)) (length (vertex m)));
    destruct (Nat.eqb_spec (length (normal m)) (length (vertex m)));
    simpl; split; intros H; try done; by destruct H.
Qed.

(** The compiled mesh always passes [check]: adding it never throws. *)
Lemma add_and_upload_box cells vb :
  add_and_upload (box_mesh cells) (vb_clear vb)
  = (VertexBuffer (staged cells) (staged cells)
       (vb_calls vb ++ upload_calls cells), None).
Proof.
  unfold add_and_upload.
  rewrite (proj1 (box_mesh_lengths cells)).
  destruct cells as [|c cells].
  - change (0 <? 24 * length (@nil vec4)) with false. cbv iota.
    unfold vb_upload, vb_bind, vb_clear, staged, upload_calls;
      cbn [vb_data vb_gpu vb_calls].
    by rewrite <- !app_assoc.
  - change (0 <? 24 * length (c :: cells)) with true. cbv iota.
    unfold vb_add_mesh. rewrite check_box_mesh.
    unfold vb_upload, vb_bind, vb_clear, staged, upload_calls;
      cbn [vb_data vb_gpu vb_calls].
    by rewrite <- !app_assoc.
Qed.

Lemma upload_geometry_result sch index f t :
  upload_geometry sch index f t
  = (Build_terrain (_pb t)
       (VertexBuffer (staged (view_cells index f))
          (staged (view_cells index f))
          (vb_calls (_gb t) ++ upload_calls (view_cells index f)))
       (box_mesh (view_cells index f)) (view_cells index f), None).
Proof.
  unfold upload_geometry.
  by rewrite compile_view_box, add_and_upload_box.
Qed.

Lemma upload_preview_result terrain0 t :
  upload_preview terrain0 t
  = (Build_terrain
       (VertexBuffer (staged (vertex terrain0)) (staged (vertex terrain0))
          (vb_calls (_pb t) ++ upload_calls (vertex terrain0)))
       (_gb t) (box_mesh (vertex terrain0)) (vertex terrain0), None).
Proof.
  unfold upload_preview, populate_cell_buffer. rewrite app_nil_l.
  by rewrite compile_preview_box, add_and_upload_box.
Qed.






(** C9, amended. The two targets have vertex buffers of their own:
    [upload_preview] leaves the view buffer as it was and
    [upload_geometry] leaves the preview buffer as it was, and each
    upload replaces the whole content of its buffer, staged and uploaded,
    by the mesh just compiled (by nothing when there is no cell).  The
    compiled mesh [_parent] and the cell buffer are one scratch area
    used by both: every upload overwrites them with its own result. *)
Theorem targets_have_own_buffers_and_one_parent (sch : schedule)
    (index : list nat) (f : nat -> mesh) (terrain0 : mesh) (t : terrain) :
  let tv := fst (upload_geometry sch index f t) in
  let tp := fst (upload_preview terrain0 t) in
  (_pb tv = _pb t /\ _gb tp = _gb t)
  /\ (vb_data (_gb tv) = staged (view_cells index f)
      /\ vb_gpu (_gb tv) = staged (view_cells index f))
  /\ (vb_data (_pb tp) = staged (vertex terrain0)
      /\ vb_gpu (_pb tp) = staged (vertex terrain0))
  /\ (_parent tv = box_mesh (view_cells index f)
      /\ _cell_buffer tv = view_cells index f)
  /\ (_parent tp = box_mesh (vertex terrain0)
      /\ _cell_buffer tp = vertex terrain0).
Proof.
  cbv zeta. rewrite upload_geometry_result, upload_preview_result.
  repeat split.
Qed.

(** C9 as first stated fails on the compiled mesh: after the view was
    compiled from one cell, an upload of a preview made of another cell
    overwrites the parent mesh that held the view geometry. *)
Lemma preview_overwrites_view_mesh :
  let view := fun _ : nat => one_cell_mesh (Vec4 0 0 0 0) in
  let t1 := fst (upload_geometry two_workers [0] view fresh_terrain) in
  let t2 := fst (upload_preview (one_cell_mesh (Vec4 5 0 0 1)) t1) in
  vb_data (_gb t1) = [_parent t1]
  /\ _parent t2 <> _parent t1
  /\ _cell_buffer t2 <> _cell_buffer t1.
Proof.
  cbv zeta. rewrite upload_preview_result, upload_geometry_result.
  cbn [fst _gb _parent _cell_buffer vb_data one_cell_mesh vertex].
  change (view_cells [0] (fun _ => Mesh [Vec4 0 0 0 0] [] [] []))
    with [Vec4 0 0 0 0].
  split; [reflexivity|]. split.
  - intros Heq. apply (f_equal (fun m => vertex m !! 0)) in Heq.
    vm_compute in Heq. discriminate Heq.
  - discriminate.
Qed.

End UploadFacts.

(** ** The streaming trigger *)
Module WorldFacts.
Import Terrain World UploadFacts.

Lemma generate_terrain_result get_view_chunks get_chunk sch w :
  generate_terrain get_view_chunks get_chunk sch w
  = (Build_world
       (fst (upload_geometry sch (get_view_chunks (recent_chunk w))
               get_chunk (_terrain w)))
       (get_view_chunks (recent_chunk w)) (recent_chunk w)
       (view_uploads w ++ [get_view_chunks (recent_chunk w)]), None).
Proof.
  unfold generate_terrain.
  change (fun key : nat => get_chunk key) with get_chunk.
  rewrite upload_geometry_result. reflexivity.
Qed.

(** C7, amended. A frame update calls [upload_geometry] exactly once when
    the chunk key of the viewer position is valid and differs from the
    recent chunk key; the recent key is set to the new key first, and the
    chunk list uploaded is the view list of the new key.  It calls it not
    at all when the key is the recent one, and not at all when the
    position has no valid key, whatever the key returned. *)
Theorem update_uploads_on_valid_chunk_change
    (chunk_key : vec3 -> nat * bool) (get_view_chunks : nat -> list nat)
    (get_chunk : nat -> mesh) (sch : schedule) (p : vec3) (w : world) :
  let current := fst (chunk_key p) in
  let is_valid := snd (chunk_key p) in
  let w' := fst (update chunk_key get_view_chunks get_chunk sch p w) in
  snd (update chunk_key get_view_chunks get_chunk sch p w) = None
  /\ (is_valid = true -> current <> recent_chunk w ->
        view_uploads w' = view_uploads w ++ [get_view_chunks current]
        /\ recent_chunk w' = current
        /\ _view_chunks w' = get_view_chunks current
        /\ vb_data (_gb (_terrain w'))
           = staged (view_cells (get_view_chunks current) get_chunk))
  /\ (is_valid = false \/ current = recent_chunk w -> w' = w).
Proof.
  cbv zeta. unfold update.
  destruct (chunk_key p) as [current is_valid]; cbn [fst snd].
  destruct is_valid; cbn [andb].
  - destruct (Nat.eqb_spec (recent_chunk w) current) as [Heq|Hne];
      cbn [negb].
    + split; [done|]. split; [congruence|done].
    + rewrite generate_terrain_result. cbn [fst snd].
      split; [done|]. split.
      * intros _ _. unfold update_chunk; cbn [recent_chunk view_uploads
          _view_chunks _terrain].
        by rewrite upload_geometry_result.
      * intros [Hf|He]; [discriminate|congruence].
  - split; [done|]. split; [discriminate|done].
Qed.

Lemma update_uploads_on_valid_chunk_change_witness :
  let p := Vec3 17 0 0 in
  let w' := fst (update line_chunk_key line_view_chunks line_get_chunk
                   two_workers p start_world) in
  line_chunk_key p = (2, true)
  /\ view_uploads w' = [[2; 3]]
  /\ recent_chunk w' = 2.
Proof.
  cbv zeta.
  destruct (update_uploads_on_valid_chunk_change line_chunk_key
              line_view_chunks line_get_chunk two_workers (Vec3 17 0 0)
              start_world) as (_ & Hmove & _).
  split; [reflexivity|].
  destruct Hmove as (Hup & Hrecent & _); [reflexivity|discriminate|].
  split; [exact Hup|exact Hrecent].
Defined.

(** C7 as first stated fails for a position without a valid key: the
    viewer at x = -1 is outside the grid, the key returned (0) differs
    from the recent key (1), and no upload is made. *)
Lemma invalid_position_uploads_nothing :
  let p := Vec3 (-1) 0 0 in
  fst (line_chunk_key p) <> recent_chunk start_world
  /\ view_uploads
       (fst (update line_chunk_key line_view_chunks line_get_chunk
               two_workers p start_world))
     = view_uploads start_world
  /\ fst (update line_chunk_key line_view_chunks line_get_chunk
            two_workers p start_world) = start_world.
Proof. cbv zeta. split; [discriminate|]. split; reflexivity. Qed.

End WorldFacts.

(** ** The point build *)
Module PointFacts.
Import Terrain.

(** [iota] has a result exactly when the running value stays an [int],
    and then stores the values one after the other. *)
Lemma iota_spec l : forall value,
  (value <= int_max)%Z ->
  iota l value
  = if decide (value + Z.of_nat (length l) <= int_max)%Z
    then Some (map (fun i => to_uint32 (value + Z.of_nat i))
                 (seq 0 (length l)))
    else None.
Proof.
  induction l as [|x l IH]; intros value Hv.
  - cbn [iota length seq map]. rewrite decide_True by (simpl; lia). done.
  - cbn [iota length].
    destruct (Z.ltb_spec value int_max) as [Hlt|Hge].
    + rewrite IH by lia.
      destruct (decide (value + 1 + Z.of_nat (length l) <= int_max)%Z)
        as [Hfit|Hover].
      * rewrite decide_True by lia. cbn [option_map seq map].
        rewrite Z.add_0_r. do 2 f_equal.
        rewrite <- seq_shift, map_map. apply map_ext. intros i.
        f_equal. lia.
      * rewrite decide_False by lia. done.
    + rewrite decide_False by lia. done.
Qed.

Lemma generate_indices_defined (m : mesh) :
  (Z.of_nat (length (vertex m)) <= int_max)%Z ->
  generate_indices m = Some (point_mesh m).
Proof.
  intros Hfit. unfold generate_indices, point_mesh.
  rewrite iota_spec by (unfold int_max; lia).
  rewrite length_resize, decide_True by lia. done.
Qed.

Lemma generate_indices_undefined (m : mesh) :
  (int_max < Z.of_nat (length (vertex m)))%Z ->
  generate_indices m = None.
Proof.
  intros Hover. unfold generate_indices.
  rewrite iota_spec by (unfold int_max; lia).
  rewrite length_resize, decide_False by lia. done.
Qed.

Lemma point_mesh_lookup (m : mesh) i :
  i < length (vertex m) ->
  index (point_mesh m) !! i = Some (to_uint32 (Z.of_nat i)).
Proof.
  intros Hi. unfold point_mesh; cbn [index].
  change (map ?f ?l) with (f <$> l).
  by rewrite list_lookup_fmap, lookup_seq_lt.
Qed.

Lemma point_mesh_index_length (m : mesh) :
  length (index (point_mesh m)) = length (vertex m).
Proof. unfold point_mesh; cbn [index]. by rewrite length_map, length_seq. Qed.

(** C8, amended. [generate_indices] gives a point mesh of N vertices,
    N at most 2^31 - 1, an index array of length N and leaves the
    vertices, and whatever uv and normal arrays there are, as they were;
    entry [i] is [i].  (Past 2^31 - 1 vertices the [int] that [std::iota]
    counts in overflows.) *)
Theorem generate_indices_identity (m : mesh) :
  (Z.of_nat (length (vertex m)) <= int_max)%Z ->
  exists m',
    generate_indices m = Some m'
    /\ vertex m' = vertex m
    /\ uv m' = uv m
    /\ normal m' = normal m
    /\ length (index m') = length (vertex m)
    /\ forall i, i < length (vertex m) -> index m' !! i = Some (Z.of_nat i).
Proof.
  intros Hfit. exists (point_mesh m).
  split; [by apply generate_indices_defined|].
  split; [done|]. split; [done|]. split; [done|].
  split; [apply point_mesh_index_length|].
  intros i Hi. rewrite point_mesh_lookup by done. f_equal.
  unfold to_uint32. apply Z.mod_small. unfold int_max in Hfit. lia.
Qed.

Lemma generate_indices_identity_witness :
  exists m',
    generate_indices five_points = Some m'
    /\ vertex m' = vertex five_points
    /\ index m' = [0; 1; 2; 3; 4]%Z.
Proof.
  destruct (generate_indices_identity five_points)
    as (m' & Hgen & Hv & _ & _ & Hlen & Hidx).
  - vm_compute. discriminate.
  - exists m'. split; [exact Hgen|]. split; [exact Hv|].
    change (length (vertex five_points)) with 5 in Hlen, Hidx.
    apply (list_eq_same_length _ _ 5); [reflexivity|exact Hlen|].
    intros i x y Hi Hx Hy. rewrite (Hidx i Hi) in Hx.
    do 5 (destruct i as [|i];
          [injection Hx as <-; injection Hy as <-; reflexivity|]).
    lia.
Defined.

(** C8 as first stated fails for large N: in a point mesh of 2^31
    vertices the counter of [std::iota] would have to pass the largest
    [int], so the call has no defined result and there is no index array
    to speak of. *)
Lemma generate_indices_overflows :
  length (vertex many_points) = N.to_nat 2147483648
  /\ generate_indices many_points = None.
Proof.
  assert (Hlen : length (vertex many_points) = N.to_nat 2147483648)
    by (unfold many_points; cbn [vertex]; apply length_replicate).
  split; [exact Hlen|].
  apply generate_indices_undefined. rewrite Hlen, N_nat_Z.
  unfold int_max. lia.
Qed.

End PointFacts.

(** ** The interleaved layout written by [copy] *)
Module VertexLayoutFacts.
Import Terrain ArrayFacts CompileFacts BoxMeshFacts VertexLayout.

Lemma concat_pick_on {A} (threads : list (list A)) j s rest :
  threads !! j = Some (s :: rest) ->
  concat threads ≡ₚ s :: concat (<[j:=rest]> threads).
Proof.
  intros Hj.
  rewrite insert_take_drop by (by eapply lookup_lt_Some).
  rewrite <- (take_drop_middle threads j (s :: rest)) at 1 by done.
  rewrite !concat_app. simpl.
  by rewrite <- Permutation_middle.
Qed.

Lemma run_threads_on_write {A} picks : forall (threads : list (list (nat * A))) l,
  NoDup (map fst (concat threads)) ->
  run_threads_on picks threads l = write_all (concat threads) l.
Proof.
  induction picks as [|j picks IH]; intros threads l Hd; [done|].
  simpl. destruct (threads !! j) as [[|[p x] rest]|] eqn:Hj; try by apply IH.
  pose proof (concat_pick_on _ _ _ _ Hj) as Hperm.
  assert (Hd' : NoDup (map fst ((p, x) :: concat (<[j:=rest]> threads)))).
  { assert (Hq : map fst (concat threads)
                 ≡ₚ map fst ((p, x) :: concat (<[j:=rest]> threads)))
      by by apply Permutation_map.
    by rewrite <- Hq. }
  rewrite IH.
  - rewrite (write_all_perm _ _ l Hperm Hd). reflexivity.
  - simpl in Hd'. by apply NoDup_cons in Hd' as [_ Hd'].
Qed.

Lemma split_range_concat {A} (work : nat -> list A) cuts : forall start size,
  concat (map (fun r => concat (map work (seq (fst r) (snd r))))
            (split_range cuts start size))
  = concat (map work (seq start size)).
Proof.
  induction cuts as [|c cuts IH]; intros start size; simpl.
  - by rewrite app_nil_r.
  - rewrite IH. rewrite <- concat_app, <- map_app, <- seq_app.
    do 3 f_equal. lia.
Qed.

(** Whatever the schedule, a parallel for whose stores go to pairwise
    distinct elements leaves what the stores give in index order. *)
Lemma run_on_write {A} sch (work : nat -> list (nat * A)) n l :
  NoDup (map fst (concat (map work (seq 0 n)))) ->
  run_on sch work 0 n l = write_all (concat (map work (seq 0 n))) l.
Proof.
  intros Hd. unfold run_on. rewrite Nat.sub_0_r.
  rewrite run_threads_on_write; rewrite split_range_concat; done.
Qed.

(** Stores that visit the elements [off, off + 1, ...] once each, in
    order, replace that stretch and nothing else. *)
Lemma write_all_range {A} (ws : list (nat * A)) (l : list A) off :
  map fst ws = seq off (length ws) -> off + length ws <= length l ->
  write_all ws l = take off l ++ map snd ws ++ drop (off + length ws) l.
Proof.
  intros Hpos Hfit. apply list_eq. intros p.
  assert (Hnd : NoDup (map fst ws)) by (rewrite Hpos; apply NoDup_seq).
  destruct (decide (p < off)) as [Hlo|Hge].
  - rewrite write_all_lookup_other.
    + rewrite lookup_app_l by (rewrite length_take; lia).
      by rewrite lookup_take_lt.
    + rewrite Hpos. rewrite elem_of_seq. lia.
  - destruct (decide (p < off + length ws)) as [Hin|Hhi].
    + destruct (lookup_lt_is_Some_2 ws (p - off)) as [[q v] Hq]; [lia|].
      assert (q = p) as ->.
      { assert (Hs : map fst ws !! (p - off) = Some q)
          by by rewrite map_lookup, Hq.
        rewrite Hpos in Hs. apply lookup_seq in Hs. lia. }
      rewrite (write_all_lookup_stored ws l p v);
        [|done|by eapply list_elem_of_lookup_2|lia].
      rewrite lookup_app_r by (rewrite length_take; lia).
      rewrite length_take, Nat.min_l by lia.
      rewrite lookup_app_l by (rewrite length_map; lia).
      by rewrite map_lookup, Hq.
    + rewrite write_all_lookup_other.
      * rewrite lookup_app_r by (rewrite length_take; lia).
        rewrite length_take, Nat.min_l by lia.
        rewrite lookup_app_r by (rewrite length_map; lia).
        rewrite length_map, lookup_drop. f_equal. lia.
      * rewrite Hpos. rewrite elem_of_seq. lia.
Qed.

(** Rows of [n] elements each, written one after the other from [off]. *)
Lemma rows_stores {A} (n off : nat) (rs : list (list A)) :
  Forall (fun r => length r = n) rs ->
  forall s,
    map fst (concat (imap (fun i r =>
                             imap (fun k x => (off + n * (s + i) + k, x)) r)
                       rs))
    = seq (off + n * s) (n * length rs)
    /\ map snd (concat (imap (fun i r =>
                                imap (fun k x => (off + n * (s + i) + k, x)) r)
                          rs))
       = concat rs.
Proof.
  induction 1 as [|r rs Hr Hall IH]; intros s.
  - simpl. rewrite Nat.mul_0_r. done.
  - cbn [imap concat length]. rewrite !map_app.
    rewrite (imap_ext _ (fun i r =>
               imap (fun k x => (off + n * (S s + i) + k, x)) r))
      by (intros; cbn; apply imap_ext; intros; f_equal; lia).
    destruct (IH (S s)) as [-> ->]. split.
    + assert (Hfst : map fst (imap (fun k x => (off + n * (s + 0) + k, x)) r)
                     = seq (off + n * s) (length r)).
      { apply (imap_fst_seq id r (fun k => off + n * (s + 0) + k)).
        intros; lia. }
      rewrite Hfst, Hr. replace (n * S (length rs)) with (n + n * length rs) by lia.
      rewrite seq_app. do 2 f_equal. lia.
    + f_equal. apply (imap_snd_id r).
Qed.

Lemma copy_work_row m off i v t n :
  vertex m !! i = Some v -> uv m !! i = Some t -> normal m !! i = Some n ->
  copy_work m off i
  = imap (fun k x => (off + width_size * (0 + i) + k, x)) (row v t n).
Proof.
  intros Hv Ht Hn. unfold copy_work. rewrite Hv, Ht, Hn.
  change width_size with 9. change uv_off with 4. change normal_off with 6.
  unfold memcpy, row, floats4, floats2, floats3.
  change (vertex_size / sizeof_T) with 4.
  change (uv_size / sizeof_T) with 2.
  change (normal_size / sizeof_T) with 3.
  cbn [take imap app compose].
  repeat (f_equal; try lia).
Qed.

Lemma rows_lookup m i :
  rows m !! i
  = match vertex m !! i, uv m !! i, normal m !! i with
    | Some v, Some t, Some n => Some (row v t n)
    | _, _, _ => None
    end.
Proof.
  unfold rows. rewrite lookup_zip_with.
  destruct (vertex m !! i) as [v|]; [|done]. simpl.
  rewrite lookup_zip_with.
  destruct (uv m !! i) as [t|]; [|done]. simpl.
  destruct (normal m !! i) as [n|]; done.
Qed.

Lemma rows_length m :
  TerrainVertex.check m = None -> length (rows m) = length (vertex m).
Proof.
  intros Hc. apply UploadFacts.check_spec in Hc as [Hu Hn].
  unfold rows. rewrite length_zip_with, length_zip. lia.
Qed.

Lemma rows_width m : Forall (fun r => length r = width_size) (rows m).
Proof.
  apply Forall_lookup. intros i r Hi. rewrite rows_lookup in Hi.
  destruct (vertex m !! i), (uv m !! i), (normal m !! i); try done.
  by injection Hi as <-.
Qed.

Lemma copy_stores_rows m off :
  TerrainVertex.check m = None ->
  concat (map (copy_work m off) (seq 0 (length (vertex m))))
  = concat (imap (fun i r =>
                    imap (fun k x => (off + width_size * (0 + i) + k, x)) r)
              (rows m)).
Proof.
  intros Hc. f_equal. apply list_eq. intros i.
  rewrite map_lookup, list_lookup_imap, rows_lookup.
  pose proof (UploadFacts.check_spec m) as [Hlen _].
  destruct (Hlen Hc) as [Hu Hn].
  destruct (decide (i < length (vertex m))) as [Hi|Hi].
  - rewrite lookup_seq_lt by done.
    destruct (lookup_lt_is_Some_2 (vertex m) i Hi) as [v Hv].
    destruct (lookup_lt_is_Some_2 (uv m) i) as [t Ht]; [lia|].
    destruct (lookup_lt_is_Some_2 (normal m) i) as [n Hn']; [lia|].
    rewrite Hv, Ht, Hn'. simpl. f_equal. by apply copy_work_row.
  - rewrite lookup_seq_ge by lia.
    rewrite (lookup_ge_None_2 (vertex m)) by lia. done.
Qed.

Lemma concat_rows_length m :
  TerrainVertex.check m = None ->
  length (concat (rows m)) = width_size * length (vertex m).
Proof.
  intros Hc.
  rewrite (concat_blocks_length width_size) by apply rows_width.
  by rewrite rows_length.
Qed.

(** [copy] stores to the positions from [mesh_offset] on, each once, and
    the values stored are the rows of the mesh. *)
Lemma copy_writes_stores sch data m mesh_offset :
  TerrainVertex.check m = None ->
  let stores :=
    concat (map (copy_work m mesh_offset) (seq 0 (length (vertex m)))) in
  copy sch data m mesh_offset = write_all stores data
  /\ map fst stores = seq mesh_offset (width_size * length (vertex m))
  /\ map snd stores = concat (rows m)
  /\ length stores = width_size * length (vertex m).
Proof.
  intros Hc. cbv zeta. unfold copy.
  pose proof (rows_stores width_size mesh_offset (rows m) (rows_width m) 0)
    as [Hfst Hsnd].
  rewrite <- (copy_stores_rows m mesh_offset Hc) in Hfst, Hsnd.
  rewrite Nat.mul_0_r, Nat.add_0_r, (rows_length m Hc) in Hfst.
  split; [|split; [exact Hfst|split; [exact Hsnd|]]].
  - apply run_on_write. rewrite Hfst. apply NoDup_seq.
  - rewrite <- (length_map fst), Hfst. apply length_seq.
Qed.

Lemma copy_layout sch data m mesh_offset :
  TerrainVertex.check m = None ->
  mesh_offset + width_size * length (vertex m) <= length data ->
  copy sch data m mesh_offset
  = take mesh_offset data ++ concat (rows m)
    ++ drop (mesh_offset + width_size * length (vertex m)) data.
Proof.
  intros Hc Hfit.
  destruct (copy_writes_stores sch data m mesh_offset Hc)
    as (-> & Hfst & Hsnd & Hlen).
  rewrite (write_all_range _ data mesh_offset); rewrite Hlen; try done.
  by rewrite Hsnd.
Qed.

(** X1. [copy] of a mesh that passes [check] writes, for every vertex in
    turn, its four position floats, two uv floats and three normal floats
    into the nine floats from [mesh_offset + 9 * i] on, and leaves every
    other element of [data] as it was; this holds for every cut of the
    range and every interleaving of the workers. *)
Theorem copy_interleaves sch data m mesh_offset :
  TerrainVertex.check m = None ->
  mesh_offset + width_size * length (vertex m) <= length data ->
  copy sch data m mesh_offset
  = take mesh_offset data ++ concat (rows m)
    ++ drop (mesh_offset + width_size * length (vertex m)) data.
Proof.
  intros Hc Hfit.
  destruct (copy_writes_stores sch data m mesh_offset Hc)
    as (Hcopy & Hfst & Hsnd & Hlen).
  rewrite Hcopy, (write_all_range _ data mesh_offset);
    rewrite Hlen; try done.
  by rewrite Hsnd.
Qed.

Lemma copy_interleaves_witness :
  copy two_workers (replicate 20 0%Q) two_vertex_mesh 1
  = take 1 (replicate 20 0%Q) ++ concat (rows two_vertex_mesh)
    ++ drop (1 + width_size * 2) (replicate 20 0%Q).
Proof.
  apply (copy_interleaves two_workers (replicate 20 0%Q) two_vertex_mesh 1).
  - reflexivity.
  - simpl. lia.
Defined.

Lemma take_drop_lookups {A} (l xs : list A) d :
  (forall j, j < length xs -> l !! (d + j) = xs !! j) ->
  take (length xs) (drop d l) = xs.
Proof.
  intros Hl. apply list_eq. intros j.
  destruct (decide (j < length xs)) as [Hj|Hj].
  - by rewrite lookup_take_lt, lookup_drop, Hl.
  - rewrite lookup_take_ge by lia. by rewrite lookup_ge_None_2 by lia.
Qed.

Lemma copy_lookup sch data m off i v t n k :
  TerrainVertex.check m = None ->
  off + width_size * length (vertex m) <= length data ->
  vertex m !! i = Some v -> uv m !! i = Some t -> normal m !! i = Some n ->
  k < width_size ->
  copy sch data m off !! (off + width_size * i + k) = row v t n !! k.
Proof.
  intros Hc Hfit Hv Ht Hn Hk.
  rewrite copy_layout by done.
  pose proof (lookup_lt_Some _ _ _ Hv) as Hi.
  rewrite lookup_app_r by (rewrite length_take; lia).
  rewrite length_take, Nat.min_l by lia.
  rewrite lookup_app_l by (rewrite concat_rows_length by done; nia).
  replace (off + width_size * i + k - off) with (width_size * i + k) by lia.
  apply concat_block_lookup; [apply rows_width| |done].
  by rewrite rows_lookup, Hv, Ht, Hn.
Qed.

Lemma fetch_floats (loc c q : nat) (buffer : list Q) (g : nat) :
  fetch (Attrib loc c width_bytes (q * sizeof_T)) buffer g
  = take c (drop (width_size * g + q) buffer).
Proof.
  unfold fetch; cbn [components pointer stride].
  change width_bytes with (9 * sizeof_T). change width_size with 9.
  replace (q * sizeof_T + 9 * sizeof_T * g) with ((9 * g + q) * sizeof_T)
    by lia.
  by rewrite Nat.div_mul.
Qed.

(** X2. The attribute pointers that [create] declares read back what
    [copy] wrote: for a mesh copied at the offset of vertex ordinal
    [base], attribute 0 of vertex [base + i] is the position of vertex
    [i] of the mesh, attribute 1 its uv and attribute 2 its normal; the
    three attributes tile the 36-byte stride exactly. *)
Theorem create_reads_what_copy_wrote sch data m base i v t n :
  TerrainVertex.check m = None ->
  width_size * base + width_size * length (vertex m) <= length data ->
  vertex m !! i = Some v -> uv m !! i = Some t -> normal m !! i = Some n ->
  map (fun a => fetch a (copy sch data m (width_size * base)) (base + i))
    create
  = [floats4 v; floats2 t; floats3 n]
  /\ map (fun a => (pointer a, pointer a + components a * sizeof_T)) create
     = [(0, 16); (16, 24); (24, 36)]
  /\ Forall (fun a => stride a = 36) create.
Proof.
  intros Hc Hfit Hv Ht Hn. split; [|split; [reflexivity|]].
  2:{ repeat constructor. }
  unfold create. cbn [map].
  change (Attrib 0 4 width_bytes 0)
    with (Attrib 0 4 width_bytes (0 * sizeof_T)).
  rewrite !fetch_floats.
  assert (Hat : forall q xs,
             (forall j, j < length xs -> row v t n !! (q + j) = xs !! j) ->
             q + length xs <= width_size ->
             take (length xs)
               (drop (width_size * (base + i) + q)
                  (copy sch data m (width_size * base))) = xs).
  { intros q xs Hxs Hq. apply take_drop_lookups. intros j Hj.
    replace (width_size * (base + i) + q + j)
      with (width_size * base + width_size * i + (q + j)) by lia.
    rewrite (copy_lookup _ _ _ _ _ v t n) by (done || lia). by apply Hxs. }
  f_equal; [|f_equal; [|f_equal]].
  - apply (Hat 0 (floats4 v)); [|cbn; lia].
    intros j Hj. do 4 (destruct j as [|j]; [done|]). simpl in Hj. lia.
  - apply (Hat uv_off (floats2 t)); [|cbn; lia].
    intros j Hj. do 2 (destruct j as [|j]; [done|]). simpl in Hj. lia.
  - apply (Hat normal_off (floats3 n)); [|cbn; lia].
    intros j Hj. do 3 (destruct j as [|j]; [done|]). simpl in Hj. lia.
Qed.

Lemma create_reads_what_copy_wrote_witness :
  map (fun a => fetch a (copy two_workers (replicate 20 0%Q)
                           two_vertex_mesh (width_size * 0)) (0 + 1))
    create
  = [floats4 (Vec4 4 5 6 1); floats2 (Vec2 1 0); floats3 (Vec3 0 0 1)].
Proof.
  apply (create_reads_what_copy_wrote two_workers (replicate 20 0%Q)
           two_vertex_mesh 0 1); try reflexivity.
  simpl. lia.
Defined.

(** *** The point build *)

Lemma write_all_app {A} (ws1 ws2 : list (nat * A)) l :
  write_all (ws1 ++ ws2) l = write_all ws2 (write_all ws1 l).
Proof. apply foldl_app. Qed.

Lemma copy_gs_loop (vs : list vec4) : forall data j,
  foldl (fun '(data, j) v =>
           (write_all (memcpy j (floats4 v) sizeof_vec4) data,
            j + gs_width_size))
    (data, j) vs
  = (write_all
       (concat (imap (fun i r =>
                        imap (fun k x => (j + gs_width_size * (0 + i) + k, x))
                          r)
                  (map floats4 vs)))
       data,
     j + gs_width_size * length vs).
Proof.
  induction vs as [|v vs IH]; intros data j.
  - simpl. f_equal. lia.
  - cbn [foldl map imap concat length]. rewrite IH, write_all_app.
    f_equal; [|lia].
    assert (Hhead : memcpy j (floats4 v) sizeof_vec4
                    = imap (fun k x => (j + gs_width_size * (0 + 0) + k, x))
                        (floats4 v)).
    { unfold memcpy, floats4. change (sizeof_vec4 / sizeof_T) with 4.
      cbn [take imap compose]. repeat (f_equal; try lia). }
    rewrite Hhead. f_equal. f_equal.
    apply imap_ext. intros i r _. cbn.
    apply imap_ext. intros k x _. f_equal. lia.
Qed.

(** X3. [copy] of the point build writes the four floats of every vertex,
    one vertex after the other, from [mesh_offset] on and leaves the rest
    of [data] as it was, whatever the uv and normal arrays of the mesh
    hold; the single attribute that [create] declares reads vertex [i]
    back. *)
Theorem copy_gs_packs_vertices data m base :
  gs_width_size * base + gs_width_size * length (vertex m) <= length data ->
  copy_gs data m (gs_width_size * base)
  = take (gs_width_size * base) data ++ concat (map floats4 (vertex m))
    ++ drop (gs_width_size * base + gs_width_size * length (vertex m)) data
  /\ forall i v, vertex m !! i = Some v ->
       map (fun a => fetch a (copy_gs data m (gs_width_size * base))
                       (base + i)) create_gs
       = [floats4 v].
Proof.
  intros Hfit.
  assert (Hall : Forall (fun r => length r = gs_width_size)
                   (map floats4 (vertex m))).
  { by apply Forall_map_const. }
  assert (Hcopy : copy_gs data m (gs_width_size * base)
            = take (gs_width_size * base) data
              ++ concat (map floats4 (vertex m))
              ++ drop (gs_width_size * base
                       + gs_width_size * length (vertex m)) data).
  { unfold copy_gs. rewrite copy_gs_loop. cbn [fst].
    pose proof (rows_stores gs_width_size (gs_width_size * base)
                  (map floats4 (vertex m)) Hall 0) as [Hfst Hsnd].
    rewrite Nat.mul_0_r, Nat.add_0_r, length_map in Hfst.
    match goal with |- write_all ?ws _ = _ => set (W := ws) in * end.
    assert (Hlen : length W = gs_width_size * length (vertex m)).
    { rewrite <- (length_map fst), Hfst. apply length_seq. }
    rewrite (write_all_range W data (gs_width_size * base));
      rewrite Hlen; try done.
    by rewrite Hsnd. }
  split; [exact Hcopy|].
  intros i v Hv. unfold create_gs, fetch; cbn [map components pointer stride].
  change gs_width_bytes with (4 * sizeof_T).
  replace (0 + 4 * sizeof_T * (base + i)) with ((4 * (base + i)) * sizeof_T)
    by lia.
  rewrite Nat.div_mul by done. f_equal.
  apply (take_drop_lookups _ (floats4 v)). intros j Hj.
  rewrite Hcopy. pose proof (lookup_lt_Some _ _ _ Hv) as Hi.
  change gs_width_size with 4 in *. simpl in Hj.
  rewrite lookup_app_r by (rewrite length_take; lia).
  rewrite length_take, Nat.min_l by lia.
  rewrite lookup_app_l
    by (rewrite (concat_blocks_length 4), length_map by done; lia).
  replace (4 * (base + i) + j - 4 * base) with (4 * i + j) by lia.
  apply concat_block_lookup; [done| |done].
  by rewrite map_lookup, Hv.
Qed.

Lemma copy_gs_packs_vertices_witness :
  copy_gs (replicate 12 0%Q) short_uv_mesh (gs_width_size * 1)
  = take (gs_width_size * 1) (replicate 12 0%Q)
    ++ concat (map floats4 (vertex short_uv_mesh))
    ++ drop (gs_width_size * 1 + gs_width_size * 1) (replicate 12 0%Q).
Proof.
  apply (copy_gs_packs_vertices (replicate 12 0%Q) short_uv_mesh 1).
  simpl. lia.
Defined.

End VertexLayoutFacts.

(** ** The box of a cell as a solid *)
Module BoxGeometryFacts.
Import Terrain ArrayFacts CompileFacts BoxMeshFacts BoxGeometry.

Lemma box_triangles_bound :
  Forall (fun t => fst (fst t) < 24 /\ snd (fst t) < 24 /\ snd t < 24)
    box_triangles.
Proof. apply (bool_decide_unpack _). by vm_compute. Qed.

Ltac box_unfold :=
  cbv [vec3_eqv cross edge vec3_of vec3_times face_area extent other_axes
       coord3 unit_normal fst snd x3 y3 z3 x4 y4 z4 get_min get_max
       create_box vec3_sub vec3_add cell_position].

Lemma cell_triangle_outward (c : vec4) tau a b d :
  box_triangles !! tau = Some (a, b, d) ->
  exists va vb vd ax up,
    face_axes !! triangle_face tau = Some (ax, up)
    /\ cell_box_vertices c !! a = Some va
    /\ cell_box_vertices c !! b = Some vb
    /\ cell_box_vertices c !! d = Some vd
    /\ box_normals !! a = Some (unit_normal ax up)
    /\ box_normals !! b = Some (unit_normal ax up)
    /\ box_normals !! d = Some (unit_normal ax up)
    /\ vec3_eqv (cross (edge (vec3_of vb) (vec3_of va))
                   (edge (vec3_of vd) (vec3_of va)))
         (vec3_times (face_area (create_box (cell_position c)) ax)
            (unit_normal ax up)).
Proof.
  intros Htau.
  do 12 (destruct tau as [|tau];
         [apply (inj Some) in Htau; injection Htau as <- <- <-;
          eexists _, _, _, _, _;
          do 7 (split; [reflexivity|]);
          box_unfold; repeat split; ring|]).
  discriminate Htau.
Qed.

(** Where nothing is rounded the box is the unit cube. *)
Lemma unit_extent (p : vec3) (a : axis) :
  exact_box p -> (extent (create_box p) a == 1)%Q.
Proof.
  intros Hexact. destruct (Hexact a) as [Rlo Rhi].
  destruct (FloatFacts.box_sides (coord3 a p)) as (_ & Hlo & Hhi).
  specialize (Hlo Rlo). specialize (Hhi Rhi).
  unfold box_lo, box_hi in Hlo, Hhi.
  destruct a; box_unfold; cbn [coord3] in Hlo, Hhi; rewrite Hlo, Hhi; ring.
Qed.

Lemma unit_area (p : vec3) (a : axis) :
  exact_box p -> (face_area (create_box p) a == 1)%Q.
Proof.
  intros Hexact. unfold face_area.
  rewrite !unit_extent by done. ring.
Qed.

(** Rounding keeps [min] below or at [max]: no face has a negative
    area. *)
Lemma extent_nonneg (p : vec3) (a : axis) :
  (0 <= extent (create_box p) a)%Q.
Proof.
  destruct (FloatFacts.box_sides (coord3 a p)) as (Hle & _).
  unfold box_lo, box_hi in Hle. unfold extent, create_box.
  destruct a;
    cbn [vec3_sub vec3_add coord3 get_min get_max x3 y3 z3] in Hle |- *;
    lra.
Qed.

Lemma face_area_nonneg (p : vec3) (a : axis) :
  (0 <= face_area (create_box p) a)%Q.
Proof.
  unfold face_area. apply Qmult_le_0_compat; apply extent_nonneg.
Qed.

Lemma half_grid_exact_box (p : vec3) :
  (forall a, on_half_grid (coord3 a p)) -> exact_box p.
Proof. intros Hgrid a. by apply FloatFacts.half_grid_representable. Qed.

(** X4. Every one of the twelve triangles of a cell is wound so that the
    cross product of its edges, (b - a) x (c - a), points along the
    normal stored for its three vertices: it is that normal times the
    area of the face, the product of the extents of the box along the two
    other axes, which is never negative.  No triangle faces inward.
    Where [create_box] does not round, the area is 1 and the cross
    product is the normal itself. *)
Theorem box_triangles_face_outward sch cells parent m i c tau a b d :
  In m [compile_view sch cells parent; compile_preview cells parent] ->
  cells !! i = Some c ->
  box_triangles !! tau = Some (a, b, d) ->
  exists va vb vd ax up,
    face_axes !! triangle_face tau = Some (ax, up)
    /\ vertex m !! (24 * i + a) = Some va
    /\ vertex m !! (24 * i + b) = Some vb
    /\ vertex m !! (24 * i + d) = Some vd
    /\ normal m !! (24 * i + a) = Some (unit_normal ax up)
    /\ normal m !! (24 * i + b) = Some (unit_normal ax up)
    /\ normal m !! (24 * i + d) = Some (unit_normal ax up)
    /\ vec3_eqv (cross (edge (vec3_of vb) (vec3_of va))
                   (edge (vec3_of vd) (vec3_of va)))
         (vec3_times (face_area (create_box (cell_position c)) ax)
            (unit_normal ax up))
    /\ (0 <= face_area (create_box (cell_position c)) ax)%Q
    /\ (exact_box (cell_position c) ->
        vec3_eqv (cross (edge (vec3_of vb) (vec3_of va))
                    (edge (vec3_of vd) (vec3_of va)))
          (unit_normal ax up)).
Proof.
  intros Hm Hc Htau. rewrite (compiled_is_box_mesh _ _ _ _ Hm).
  pose proof (lookup_lt_Some _ _ _ Hc) as Hi.
  destruct (proj1 (Forall_lookup _ _) box_triangles_bound _ _ Htau)
    as (Ha & Hb & Hd). cbn [fst snd] in Ha, Hb, Hd.
  destruct (cell_triangle_outward c tau a b d Htau)
    as (va & vb & vd & ax & up & Hface & Hva & Hvb & Hvd & Hna & Hnb & Hnd
        & Hcross).
  exists va, vb, vd, ax, up.
  rewrite !(box_mesh_vertex_lookup cells i c) by done.
  rewrite !(box_mesh_normal_lookup cells i) by done.
  do 8 (split; [done|]).
  split; [apply face_area_nonneg|].
  intros Hgrid. pose proof (unit_area _ ax Hgrid) as Harea.
  destruct Hcross as (Hx & Hy & Hz).
  unfold vec3_times in Hx, Hy, Hz; cbn [x3 y3 z3] in Hx, Hy, Hz.
  rewrite Harea, Qmult_1_l in Hx, Hy, Hz. by repeat split.
Qed.

Lemma box_triangles_face_outward_witness :
  let m := compile_preview two_cells empty_mesh in
  exists va vb vd ax up,
    face_axes !! triangle_face 6 = Some (ax, up)
    /\ vertex m !! (24 * 1 + 0) = Some va
    /\ vertex m !! (24 * 1 + 18) = Some vb
    /\ vertex m !! (24 * 1 + 1) = Some vd
    /\ normal m !! (24 * 1 + 0) = Some (unit_normal ax up)
    /\ normal m !! (24 * 1 + 18) = Some (unit_normal ax up)
    /\ normal m !! (24 * 1 + 1) = Some (unit_normal ax up)
    /\ vec3_eqv (cross (edge (vec3_of vb) (vec3_of va))
                   (edge (vec3_of vd) (vec3_of va)))
         (unit_normal ax up).
Proof.
  destruct (box_triangles_face_outward two_workers two_cells empty_mesh
              (compile_preview two_cells empty_mesh) 1 (Vec4 1 0 0 9)
              6 0 18 1 (or_intror (or_introl eq_refl)) eq_refl eq_refl)
    as (va & vb & vd & ax & up & Hf & Hva & Hvb & Hvd & Hna & Hnb & Hnd
        & _ & _ & Hunit).
  exists va, vb, vd, ax, up. do 7 (split; [assumption|]).
  apply Hunit, half_grid_exact_box. intros [| |].
  - exists 2%Z. split; [simpl; lia|reflexivity].
  - exists 0%Z. split; [simpl; lia|reflexivity].
  - exists 0%Z. split; [simpl; lia|reflexivity].
Defined.









Lemma material_ids_range (id : Z) :
  (0 <= id <= 15)%Z -> In id material_ids.
Proof. intros Hid. unfold material_ids. simpl. lia. Qed.

Lemma forallb_In {A} (f : A -> bool) (l : list A) x :
  forallb f l = true -> In x l -> f x = true.
Proof. intros Hall Hx. by apply (proj1 (forallb_forall f l) Hall). Qed.

(** The table of all materials, evaluated. *)
Lemma atlas_table (id : Z) : In id material_ids -> atlas_ok id = true.
Proof.
  assert (Hall : forallb atlas_ok material_ids = true)
    by (vm_compute; reflexivity).
  apply forallb_In, Hall.
Qed.

Lemma atlas_apart_table :
  apart_in (map (fun id => (id, uv_rectangle id)) material_ids) = true.
Proof. vm_compute. reflexivity. Qed.

Lemma apart_in_spec (g : Z -> rectangle) (ids : list Z) (id1 id2 : Z) :
  apart_in (map (fun id => (id, g id)) ids) = true ->
  In id1 ids -> In id2 ids ->
  Z.eqb id1 id2 || rectangles_apart (g id1) (g id2) = true.
Proof.
  intros Hall H1 H2. unfold apart_in in Hall.
  pose proof (forallb_In _ _ (id1, g id1) Hall
                (in_map (fun id => (id, g id)) _ _ H1)) as Hrow.
  cbv beta in Hrow.
  exact (forallb_In _ _ (id2, g id2) Hrow
           (in_map (fun id => (id, g id)) _ _ H2)).
Qed.

Lemma rectangle_corner_spec r t :
  rectangle_corner_b r t = true -> rectangle_corner r t.
Proof.
  unfold rectangle_corner_b, rectangle_corner. intros H.
  apply andb_true_iff in H as [Hx Hy].
  apply orb_true_iff in Hx. apply orb_true_iff in Hy.
  rewrite !Qeq_bool_iff in Hx, Hy. done.
Qed.

Lemma opposite_spec t1 t2 : opposite_b t1 t2 = true -> opposite t1 t2.
Proof.
  unfold opposite_b, opposite. intros H.
  apply andb_true_iff in H as [Hx Hy].
  apply negb_true_iff in Hx, Hy.
  split; intros Heq; apply Qeq_bool_iff in Heq; congruence.
Qed.

Lemma same_uv_spec t1 t2 : same_uv_b t1 t2 = false -> ~ same_uv t1 t2.
Proof.
  unfold same_uv_b, same_uv. intros H [Hx Hy].
  apply Qeq_bool_iff in Hx, Hy. by rewrite Hx, Hy in H.
Qed.

Lemma near_slot_spec id r : near_slot_b id r = true -> near_slot id r.
Proof.
  unfold near_slot_b, near_slot. intros H.
  repeat (apply andb_true_iff in H as [H ?]).
  repeat match goal with
         | H : negb (Qle_bool _ _) = true |- _ =>
             apply negb_true_iff in H
         end.
  do 4 (split; [done|]).
  split; apply Qnot_le_lt; intros Hle; apply Qle_bool_iff in Hle;
    congruence.
Qed.

Lemma face_uvs_ok_spec r uvs f :
  face_uvs_ok r uvs f = true ->
  exists t0 t1 t2 t3,
    map (fun k => uvs !! k) (face_quad f)
    = [Some t0; Some t1; Some t2; Some t3]
    /\ Forall (rectangle_corner r) [t0; t1; t2; t3]
    /\ opposite t0 t1 /\ opposite t2 t3
    /\ ~ same_uv t2 t0 /\ ~ same_uv t2 t1.
Proof.
  unfold face_uvs_ok.
  destruct (map (fun k => uvs !! k) (face_quad f))
    as [|[t0|] [|[t1|] [|[t2|] [|[t3|] [|]]]]]; try discriminate.
  intros H. exists t0, t1, t2, t3. split; [done|].
  apply andb_true_iff in H as [H Hn1]. apply andb_true_iff in H as [H Hn0].
  apply andb_true_iff in H as [H Ho23]. apply andb_true_iff in H as [H Ho01].
  cbn [forallb] in H.
  apply andb_true_iff in H as [Hc0 H]. apply andb_true_iff in H as [Hc1 H].
  apply andb_true_iff in H as [Hc2 H]. apply andb_true_iff in H as [Hc3 _].
  split.
  - repeat (constructor; [by apply rectangle_corner_spec|]). constructor.
  - split; [by apply opposite_spec|]. split; [by apply opposite_spec|].
    split; apply same_uv_spec; by apply negb_true_iff.
Qed.

(** X6. For a material id in 0..15 the four uv coordinates of a face are
    the four corners of one rectangle, the same for all faces: the
    rectangle between the stored uv of the base corner (0, 0) and that of
    the base corner (1, 1), which is the atlas slot of the material up to
    2^-26 on each side.  The two vertices on the edge shared by the
    triangles of the face get opposite corners, the two others get the
    two remaining corners: every face shows the whole slot, and the
    diagonal of the face lies on a diagonal of the slot. *)
Theorem face_uvs_cover_slot (id : Z) (f : nat) :
  (0 <= id <= 15)%Z -> f < 6 ->
  exists t0 t1 t2 t3,
    map (fun k => create_uvs id !! k) (face_quad f)
    = [Some t0; Some t1; Some t2; Some t3]
    /\ Forall (rectangle_corner (uv_rectangle id)) [t0; t1; t2; t3]
    /\ near_slot id (uv_rectangle id)
    /\ opposite t0 t1 /\ opposite t2 t3
    /\ ~ same_uv t2 t0 /\ ~ same_uv t2 t1.
Proof.
  intros Hid Hf.
  pose proof (atlas_table id (material_ids_range id Hid)) as Hok.
  unfold atlas_ok in Hok. cbv zeta in Hok.
  apply andb_true_iff in Hok as [Hok _].
  apply andb_true_iff in Hok as [Hnear Hfaces].
  assert (Hface : face_uvs_ok (uv_rectangle id) (create_uvs id) f = true).
  { apply (forallb_In _ _ f Hfaces). apply in_seq. lia. }
  destruct (face_uvs_ok_spec _ _ _ Hface)
    as (t0 & t1 & t2 & t3 & Hmap & Hcorners & Hrest).
  exists t0, t1, t2, t3. split; [exact Hmap|]. split; [exact Hcorners|].
  split; [by apply near_slot_spec|exact Hrest].
Qed.

Lemma face_uvs_cover_slot_witness :
  exists t0 t1 t2 t3,
    map (fun k => create_uvs 9 !! k) (face_quad 4)
    = [Some t0; Some t1; Some t2; Some t3]
    /\ Forall (rectangle_corner (uv_rectangle 9)) [t0; t1; t2; t3]
    /\ near_slot 9 (uv_rectangle 9)
    /\ opposite t0 t1 /\ opposite t2 t3
    /\ ~ same_uv t2 t0 /\ ~ same_uv t2 t1.
Proof. apply (face_uvs_cover_slot 9 4); lia. Defined.

Lemma uvs_inside (id : Z) (t : vec2) :
  In id material_ids -> In t (create_uvs id) ->
  inside_rectangle (uv_rectangle id) t && inside_slot id t
  && inside_texture t = true.
Proof.
  intros Hid Ht. pose proof (atlas_table id Hid) as Hok.
  unfold atlas_ok in Hok. cbv zeta in Hok.
  apply andb_true_iff in Hok as [_ Hall].
  exact (forallb_In _ _ t Hall Ht).
Qed.

Lemma rectangles_apart_pairs (id1 id2 : Z) :
  In id1 material_ids -> In id2 material_ids ->
  Z.eqb id1 id2 || rectangles_apart (uv_rectangle id1) (uv_rectangle id2)
  = true.
Proof.
  intros H1 H2.
  exact (apart_in_spec uv_rectangle material_ids id1 id2 atlas_apart_table
           H1 H2).
Qed.

(** X7. The atlas slots of two different materials in 0..15 never touch:
    a uv coordinate of the one and a uv coordinate of the other are at
    least 0.000999 apart in x or in y.  Every uv coordinate of a material
    lies in its slot up to 2^-26, and between 0.001 and 1 in both
    directions. *)
Theorem atlas_slots_do_not_overlap (id1 id2 : Z) (t1 t2 : vec2) :
  (0 <= id1 <= 15)%Z -> (0 <= id2 <= 15)%Z -> id1 <> id2 ->
  t1 ∈ create_uvs id1 -> t2 ∈ create_uvs id2 ->
  ((x2 t1 + 0.000999 <= x2 t2 \/ x2 t2 + 0.000999 <= x2 t1
    \/ y2 t1 + 0.000999 <= y2 t2 \/ y2 t2 + 0.000999 <= y2 t1)
   /\ (slot_x0 id1 - uv_eps <= x2 t1
       /\ x2 t1 <= slot_x0 id1 + slot_side + uv_eps)
   /\ (slot_y0 id1 - uv_eps <= y2 t1
       /\ y2 t1 <= slot_y0 id1 + slot_side + uv_eps)
   /\ (0.001 <= x2 t1 /\ x2 t1 <= 1) /\ (0.001 <= y2 t1 /\ y2 t1 <= 1))%Q.
Proof.
  intros H1 H2 Hne Ht1 Ht2.
  apply material_ids_range in H1. apply material_ids_range in H2.
  apply list_elem_of_In in Ht1. apply list_elem_of_In in Ht2.
  pose proof (uvs_inside id1 t1 H1 Ht1) as Hin1.
  pose proof (uvs_inside id2 t2 H2 Ht2) as Hin2.
  pose proof (rectangles_apart_pairs id1 id2 H1 H2) as Hap.
  apply orb_true_iff in Hap as [Heq|Hap]; [apply Z.eqb_eq in Heq; done|].
  apply andb_true_iff in Hin1 as [Hin1 Htex1].
  apply andb_true_iff in Hin1 as [Hrect1 Hslot1].
  apply andb_true_iff in Hin2 as [Hin2 _].
  apply andb_true_iff in Hin2 as [Hrect2 _].
  unfold inside_rectangle in Hrect1, Hrect2.
  unfold inside_slot in Hslot1. unfold inside_texture in Htex1.
  unfold rectangles_apart, slot_gap in Hap.
  repeat match goal with
         | H : _ && _ = true |- _ => apply andb_true_iff in H as [H ?]
         end.
  repeat match goal with
         | H : Qle_bool _ _ = true |- _ => apply Qle_bool_iff in H
         end.
  split; [|by repeat split].
  apply orb_true_iff in Hap as [Hap|Hy2];
    [apply orb_true_iff in Hap as [Hap|Hy1];
     [apply orb_true_iff in Hap as [Hx1|Hx2]|]|].
  - apply Qle_bool_iff in Hx1. left. lra.
  - apply Qle_bool_iff in Hx2. right. left. lra.
  - apply Qle_bool_iff in Hy1. right. right. left. lra.
  - apply Qle_bool_iff in Hy2. right. right. right. lra.
Qed.

Lemma atlas_slots_do_not_overlap_witness :
  let t1 := Vec2 (1 # 4) (14696841 # 16777216) in
  let t2 := Vec2 (4211081 # 16777216) 1 in
  ((x2 t1 + 0.000999 <= x2 t2 \/ x2 t2 + 0.000999 <= x2 t1
    \/ y2 t1 + 0.000999 <= y2 t2 \/ y2 t2 + 0.000999 <= y2 t1)
   /\ (slot_x0 1 - uv_eps <= x2 t1
       /\ x2 t1 <= slot_x0 1 + slot_side + uv_eps)
   /\ (slot_y0 1 - uv_eps <= y2 t1
       /\ y2 t1 <= slot_y0 1 + slot_side + uv_eps)
   /\ (0.001 <= x2 t1 /\ x2 t1 <= 1) /\ (0.001 <= y2 t1 /\ y2 t1 <= 1))%Q.
Proof.
  apply (atlas_slots_do_not_overlap 1 2); try lia.
  - apply list_elem_of_In. vm_compute. left. reflexivity.
  - apply list_elem_of_In. vm_compute. right. left. reflexivity.
Defined.

End BoxGeometryFacts.

(** ** The point build, and what a draw submits *)
Module PointBuildFacts.
Import Terrain UploadFacts PointFacts.

Lemma view_cells_from index (f : nat -> mesh) : forall cb,
  foldl (fun cb i => populate_cell_buffer (f i) cb) cb index
  = cb ++ concat (map (fun i => vertex (f i)) index).
Proof.
  induction index as [|i index IH]; intros cb; simpl.
  - by rewrite app_nil_r.
  - rewrite IH. unfold populate_cell_buffer. by rewrite <- app_assoc.
Qed.

Lemma view_cells_concat index f :
  view_cells index f = concat (map (fun i => vertex (f i)) index).
Proof. unfold view_cells. by rewrite view_cells_from. Qed.

Lemma filled_app index1 index2 (f : nat -> mesh) :
  TerrainGS.filled (index1 ++ index2) f
  = TerrainGS.filled index1 f ++ TerrainGS.filled index2 f.
Proof. unfold TerrainGS.filled. by rewrite filter_app. Qed.

Lemma filled_one i (f : nat -> mesh) :
  TerrainGS.filled [i] f
  = if decide (0 < length (vertex (f i))) then [i] else [].
Proof. unfold TerrainGS.filled. by rewrite filter_cons, filter_nil. Qed.

Lemma filled_vertices index (f : nat -> mesh) :
  concat (map (fun i => vertex (f i)) (TerrainGS.filled index f))
  = concat (map (fun i => vertex (f i)) index).
Proof.
  induction index as [|i index IH]; [done|].
  unfold TerrainGS.filled in *. rewrite filter_cons.
  destruct (decide (0 < length (vertex (f i)))) as [Hi|Hi]; simpl.
  - by rewrite IH.
  - rewrite IH. destruct (vertex (f i)); [done|simpl in Hi; lia].
Qed.

Lemma add_chunks_snoc index i st :
  TerrainGS.add_chunks (index ++ [i]) st
  = match TerrainGS.add_chunks index st with
    | Some st' => TerrainGS.add_chunk st' i
    | None => None
    end.
Proof. unfold TerrainGS.add_chunks. by rewrite foldl_app. Qed.

Lemma visited_snoc index i (f : nat -> mesh) k :
  k <> i -> TerrainGS.visited (index ++ [i]) f k = TerrainGS.visited index f k.
Proof.
  intros Hk. unfold TerrainGS.visited.
  assert (Hdec : bool_decide (k ∈ index ++ [i]) = bool_decide (k ∈ index))
    by (apply bool_decide_ext;
        rewrite elem_of_app, list_elem_of_singleton; tauto).
  by rewrite Hdec.
Qed.

Lemma visited_vertex index (f : nat -> mesh) k :
  vertex (TerrainGS.visited index f k) = vertex (f k).
Proof.
  unfold TerrainGS.visited.
  by destruct (bool_decide (k ∈ index) && (0 <? length (vertex (f k)))).
Qed.

(** The loop over the chunks, when every chunk mesh can be counted: the
    chunk store and the buffer after the chunks of [index] were
    visited. *)
Lemma add_chunks_defined index : forall (f : nat -> mesh) gb,
  Forall (fun i => TerrainGS.fits_int (f i)) index ->
  exists f',
    TerrainGS.add_chunks index (f, gb, None)
    = Some (f',
            VertexBuffer
              (vb_data gb
               ++ map (fun i => point_mesh (f i)) (TerrainGS.filled index f))
              (vb_gpu gb)
              (vb_calls gb
               ++ replicate (length (TerrainGS.filled index f)) VbAddMesh),
            None)
    /\ forall k, f' k = TerrainGS.visited index f k.
Proof.
  induction index as [|i index IH] using rev_ind; intros f gb Hfit.
  - exists f. split.
    + cbn. rewrite !app_nil_r. by destruct gb.
    + intros k. unfold TerrainGS.visited.
      by rewrite bool_decide_eq_false_2 by apply not_elem_of_nil.
  - apply Forall_app in Hfit as [Hfit Hi]. apply Forall_inv in Hi.
    destruct (IH f gb Hfit) as (f1 & Hfold & Hf1).
    rewrite add_chunks_snoc, Hfold. cbn [TerrainGS.add_chunk].
    rewrite filled_app, filled_one.
    assert (Hv : vertex (f1 i) = vertex (f i))
      by (rewrite Hf1; apply visited_vertex).
    rewrite Hv.
    destruct (decide (0 < length (vertex (f i)))) as [Hpos|Hpos].
    + rewrite (proj2 (Nat.ltb_lt _ _) Hpos).
      rewrite generate_indices_defined
        by (unfold TerrainGS.fits_int in Hi; by rewrite Hv).
      assert (Hgen : point_mesh (f1 i) = point_mesh (f i)).
      { rewrite Hf1. unfold TerrainGS.visited.
        by destruct (bool_decide (i ∈ index)
                     && (0 <? length (vertex (f i)))). }
      rewrite Hgen.
      unfold vb_add_mesh, TerrainVertex.check_gs;
        cbn [vb_data vb_gpu vb_calls].
      exists (TerrainGS.set_mesh i (point_mesh (f i)) f1). split.
      * rewrite map_app, length_app, replicate_add. simpl.
        by rewrite <- !app_assoc.
      * intros k. unfold TerrainGS.set_mesh.
        destruct (Nat.eqb_spec k i) as [->|Hk].
        -- unfold TerrainGS.visited.
           rewrite bool_decide_eq_true_2
             by (apply elem_of_app; right;
                 apply list_elem_of_singleton; reflexivity).
           by rewrite (proj2 (Nat.ltb_lt _ _) Hpos).
        -- by rewrite visited_snoc, Hf1.
    + rewrite (proj2 (Nat.ltb_ge _ _)) by lia.
      exists f1. split.
      * simpl. by rewrite !app_nil_r.
      * intros k. destruct (Nat.eq_dec k i) as [->|Hk].
        -- rewrite Hf1. unfold TerrainGS.visited.
           rewrite (proj2 (Nat.ltb_ge _ _)) by lia.
           by rewrite !andb_false_r.
        -- by rewrite visited_snoc, Hf1.
Qed.

(** The loop has no defined outcome when one of the chunk meshes has
    more vertices than an [int] can count. *)
Lemma add_chunks_undefined index : forall (f : nat -> mesh) gb,
  ~ Forall (fun i => TerrainGS.fits_int (f i)) index ->
  TerrainGS.add_chunks index (f, gb, None) = None.
Proof.
  induction index as [|i index IH] using rev_ind; intros f gb Hbad.
  - destruct Hbad. constructor.
  - rewrite add_chunks_snoc.
    destruct (decide (Forall (fun i => TerrainGS.fits_int (f i)) index))
      as [Hfit|Hno]; [|by rewrite IH].
    destruct (add_chunks_defined index f gb Hfit) as (f1 & -> & Hf1).
    assert (Hi : ~ TerrainGS.fits_int (f i)).
    { intros Hi. apply Hbad, Forall_app. split; [done|]. by constructor. }
    unfold TerrainGS.fits_int in Hi. cbn [TerrainGS.add_chunk].
    assert (Hv : vertex (f1 i) = vertex (f i))
      by (rewrite Hf1; apply visited_vertex).
    rewrite Hv.
    rewrite (proj2 (Nat.ltb_lt _ _)) by (unfold int_max in Hi; lia).
    rewrite generate_indices_undefined by (rewrite Hv; lia). done.
Qed.

Lemma sum_index_lengths (ms : list mesh) :
  Forall (fun m => length (index m) = length (vertex m)) ms ->
  sum_list (map (fun m => length (index m)) ms)
  = length (concat (map vertex ms)).
Proof.
  induction 1 as [|m ms Hm _ IH]; [done|].
  simpl. rewrite length_app, IH, Hm. done.
Qed.

(** What [upload_geometry] of the point build leaves. *)
Lemma upload_geometry_gs_result index f t :
  Forall (fun i => TerrainGS.fits_int (f i)) index ->
  exists f',
    TerrainGS.upload_geometry index f t
    = Some (f',
            TerrainGS.Build_terrain (TerrainGS._pb t)
              (VertexBuffer
                 (map (fun i => point_mesh (f i)) (TerrainGS.filled index f))
                 (map (fun i => point_mesh (f i)) (TerrainGS.filled index f))
                 (vb_calls (TerrainGS._gb t) ++ [VbClear]
                  ++ replicate (length (TerrainGS.filled index f)) VbAddMesh
                  ++ [VbBind; VbUpload])),
            None)
    /\ forall k, f' k = TerrainGS.visited index f k.
Proof.
  intros Hfit. unfold TerrainGS.upload_geometry.
  destruct (add_chunks_defined index f (vb_clear (TerrainGS._gb t)) Hfit)
    as (f' & -> & Hf').
  exists f'. split; [|done].
  unfold vb_upload, vb_bind; cbn [vb_clear vb_data vb_gpu vb_calls].
  by rewrite <- !app_assoc.
Qed.

Lemma upload_geometry_gs_undefined index f t :
  ~ Forall (fun i => TerrainGS.fits_int (f i)) index ->
  TerrainGS.upload_geometry index f t = None.
Proof.
  intros Hbad. unfold TerrainGS.upload_geometry.
  by rewrite add_chunks_undefined.
Qed.

Lemma upload_preview_gs_result terrain0 t :
  TerrainGS.fits_int terrain0 ->
  TerrainGS.upload_preview terrain0 t
  = Some (point_mesh terrain0,
          TerrainGS.Build_terrain
            (VertexBuffer [point_mesh terrain0] [point_mesh terrain0]
               (vb_calls (TerrainGS._pb t)
                ++ [VbClear; VbAddMesh; VbBind; VbUpload]))
            (TerrainGS._gb t),
          None).
Proof.
  intros Hfit. unfold TerrainGS.upload_preview.
  rewrite generate_indices_defined by done.
  unfold vb_add_mesh, TerrainVertex.check_gs, vb_upload, vb_bind, vb_clear.
  cbn [vb_data vb_gpu vb_calls]. by rewrite <- !app_assoc.
Qed.

Lemma staged_gs_cells index (f : nat -> mesh) :
  concat (map vertex (map (fun i => point_mesh (f i))
                        (TerrainGS.filled index f)))
  = view_cells index f.
Proof.
  rewrite map_map. cbn [point_mesh vertex].
  by rewrite filled_vertices, view_cells_concat.
Qed.

Lemma staged_gs_elements index (f : nat -> mesh) :
  sum_list (map (fun m => length (Min.index m))
              (map (fun i => point_mesh (f i)) (TerrainGS.filled index f)))
  = length (view_cells index f).
Proof.
  rewrite sum_index_lengths, staged_gs_cells; [done|].
  apply Forall_map, Forall_forall. intros i _. unfold compose.
  exact (point_mesh_index_length (f i)).
Qed.

(** X8. In the point build, when every chunk mesh and the preview mesh
    have at most 2^31 - 1 vertices, an upload has a defined outcome and
    does not throw.  [upload_geometry] stages and uploads, in the order
    of [index], the mesh of every chunk that has cells, with identity
    indices; chunks without cells are skipped.  The vertices staged are
    exactly the cell buffer the box build collects from the same chunks,
    and a draw submits one element for each of these cells.  The upload
    writes through the references it is given: afterwards every chunk
    mesh that was visited and has cells carries the generated index
    array, every other chunk mesh is as before, and no vertex of any
    chunk has changed.  A chunk listed twice is staged twice.
    [upload_preview] adds the mesh it is given even when it has no
    cell. *)
Theorem point_upload_stages_cells (index : list nat) (f : nat -> mesh)
    (terrain0 : mesh) (t : TerrainGS.terrain) :
  Forall (fun i => TerrainGS.fits_int (f i)) index ->
  TerrainGS.fits_int terrain0 ->
  exists r p,
    TerrainGS.upload_geometry index f t = Some r
    /\ TerrainGS.upload_preview terrain0 t = Some p
    /\ let f' := fst (fst r) in
       let gb := TerrainGS._gb (snd (fst r)) in
       let pb := TerrainGS._pb (snd (fst p)) in
       (snd r = None
        /\ vb_data gb
           = map (fun i => point_mesh (f i)) (TerrainGS.filled index f)
        /\ vb_gpu gb = vb_data gb
        /\ vb_calls gb
           = vb_calls (TerrainGS._gb t) ++ [VbClear]
             ++ replicate (length (TerrainGS.filled index f)) VbAddMesh
             ++ [VbBind; VbUpload]
        /\ TerrainGS._pb (snd (fst r)) = TerrainGS._pb t)
       /\ (concat (map vertex (vb_data gb)) = view_cells index f
           /\ snd (TerrainGS.draw_terrain (snd (fst r)))
              = length (view_cells index f))
       /\ (forall k,
             f' k = (if bool_decide (k ∈ index)
                        && (0 <? length (vertex (f k)))
                     then point_mesh (f k) else f k)
             /\ vertex (f' k) = vertex (f k))
       /\ (snd p = None
           /\ fst (fst p) = point_mesh terrain0
           /\ vb_data pb = [point_mesh terrain0]
           /\ vb_gpu pb = [point_mesh terrain0]
           /\ vb_calls pb
              = vb_calls (TerrainGS._pb t)
                ++ [VbClear; VbAddMesh; VbBind; VbUpload]
           /\ TerrainGS._gb (snd (fst p)) = TerrainGS._gb t
           /\ snd (TerrainGS.draw_placemark (snd (fst p)))
              = length (vertex terrain0)).
Proof.
  intros Hfit Hfit0.
  destruct (upload_geometry_gs_result index f t Hfit) as (f' & Hr & Hf').
  eexists _, _. split; [exact Hr|].
  split; [by apply upload_preview_gs_result|].
  cbv zeta.
  cbn [fst snd TerrainGS._gb TerrainGS._pb vb_data vb_gpu vb_calls].
  split; [|split; [|split]].
  - repeat split.
  - split; [apply staged_gs_cells|].
    unfold TerrainGS.draw_terrain, vb_draw_all, vb_elements, vb_bind;
      cbn [fst snd TerrainGS._gb vb_data].
    apply staged_gs_elements.
  - intros k. rewrite Hf'. split; [done|apply visited_vertex].
  - repeat split.
    unfold TerrainGS.draw_placemark, vb_draw_all, vb_elements, vb_bind;
      cbn [snd TerrainGS._pb vb_data map sum_list app].
    rewrite point_mesh_index_length. unfold id. lia.
Qed.

Lemma point_upload_stages_cells_witness :
  exists r p,
    TerrainGS.upload_geometry [0; 1; 2; 0] TerrainGS.some_chunks
      TerrainGS.fresh_terrain = Some r
    /\ TerrainGS.upload_preview empty_mesh TerrainGS.fresh_terrain = Some p
    /\ vb_data (TerrainGS._gb (snd (fst r)))
       = [point_mesh TerrainGS.three_points; point_mesh TerrainGS.three_points;
          point_mesh TerrainGS.three_points]
    /\ snd (TerrainGS.draw_terrain (snd (fst r))) = 9
    /\ vb_data (TerrainGS._pb (snd (fst p))) = [point_mesh empty_mesh]
    /\ snd (TerrainGS.draw_placemark (snd (fst p))) = 0.
Proof.
  destruct (point_upload_stages_cells [0; 1; 2; 0] TerrainGS.some_chunks
              empty_mesh TerrainGS.fresh_terrain)
    as (r & p & Hr & Hp & (_ & Hdata & _) & (_ & Hdraw) & _
        & (_ & _ & Hpdata & _ & _ & _ & Hpdraw)).
  - repeat (constructor; [vm_compute; discriminate|]). constructor.
  - vm_compute. discriminate.
  - exists r, p. split; [exact Hr|]. split; [exact Hp|].
    split; [exact Hdata|]. split; [exact Hdraw|].
    split; [exact Hpdata|exact Hpdraw].
Defined.

Lemma elements_staged cells :
  sum_list (map (fun m => length (index m)) (staged cells))
  = 36 * length cells.
Proof.
  destruct cells as [|c cells]; [done|].
  unfold staged. cbn [map sum_list].
  destruct (BoxMeshFacts.box_mesh_lengths (c :: cells)) as (_ & _ & _ & ->).
  unfold id. lia.
Qed.

(** X9. In the box build a draw after an upload submits 36 index
    elements (twelve triangles) for every cell: [draw_terrain] for every
    vertex of every chunk mesh listed in [index], a chunk listed twice
    counting twice, and [draw_placemark] for every vertex of the preview
    mesh.  The cell buffer is the concatenation of the vertex arrays of
    the chunk meshes, in the order of [index].  A draw leaves the staged
    geometry in place: a second draw submits the same elements.  On the
    same chunks the point build, whenever its upload has a defined
    outcome, submits one element where the box build submits 36. *)
Theorem draw_submits_36_per_cell (sch : schedule) (index : list nat)
    (f : nat -> mesh) (terrain0 : mesh) (t : terrain)
    (tg : TerrainGS.terrain) :
  let tv := fst (upload_geometry sch index f t) in
  let tp := fst (upload_preview terrain0 t) in
  view_cells index f = concat (map (fun i => vertex (f i)) index)
  /\ snd (draw_terrain tv)
     = 36 * sum_list (map (fun i => length (vertex (f i))) index)
  /\ snd (draw_placemark tp) = 36 * length (vertex terrain0)
  /\ snd (draw_terrain (fst (draw_terrain tv))) = snd (draw_terrain tv)
  /\ snd (draw_terrain (fst (draw_placemark tv))) = snd (draw_terrain tv)
  /\ forall r, TerrainGS.upload_geometry index f tg = Some r ->
       snd (draw_terrain tv) = 36 * snd (TerrainGS.draw_terrain (snd (fst r))).
Proof.
  cbv zeta. rewrite upload_geometry_result, upload_preview_result.
  assert (Hlen : length (view_cells index f)
                 = sum_list (map (fun i => length (vertex (f i))) index)).
  { rewrite view_cells_concat.
    induction index as [|i index IH]; [done|].
    simpl. by rewrite length_app, IH. }
  split; [apply view_cells_concat|].
  unfold draw_terrain, draw_placemark, vb_draw_all, vb_elements, vb_bind;
    cbn [fst snd _gb _pb vb_data].
  rewrite !elements_staged, <- Hlen.
  do 4 (split; [reflexivity|]).
  intros r Hr.
  destruct (decide (Forall (fun i => TerrainGS.fits_int (f i)) index))
    as [Hfit|Hbad].
  - destruct (upload_geometry_gs_result index f tg Hfit) as (f' & Hr' & _).
    rewrite Hr' in Hr. injection Hr as <-.
    unfold TerrainGS.draw_terrain, vb_draw_all, vb_elements, vb_bind;
      cbn [fst snd TerrainGS._gb vb_data].
    by rewrite staged_gs_elements.
  - by rewrite upload_geometry_gs_undefined in Hr.
Qed.

Lemma draw_submits_36_per_cell_witness :
  snd (draw_terrain
         (fst (upload_geometry two_workers [0; 1; 2; 0]
                 TerrainGS.some_chunks fresh_terrain)))
  = 36 * 9.
Proof.
  exact (proj1 (proj2 (draw_submits_36_per_cell two_workers [0; 1; 2; 0]
                         TerrainGS.some_chunks empty_mesh fresh_terrain
                         TerrainGS.fresh_terrain))).
Defined.

End PointBuildFacts.

(** ** Uploads without cells *)
Module EmptyUploadFacts.
Import Terrain UploadFacts PointFacts PointBuildFacts.

Lemma no_cells_no_vertices index (f : nat -> mesh) :
  view_cells index f = [] -> Forall (fun i => vertex (f i) = []) index.
Proof.
  rewrite view_cells_concat.
  induction index as [|i index IH]; intros Hnil; [constructor|].
  cbn [map concat] in Hnil. apply app_eq_nil in Hnil as [Hi Hrest].
  constructor; [done|by apply IH].
Qed.

Lemma no_cells_fit index (f : nat -> mesh) :
  view_cells index f = [] ->
  Forall (fun i => TerrainGS.fits_int (f i)) index.
Proof.
  intros Hnil. eapply Forall_impl; [by apply no_cells_no_vertices|].
  intros i Hi. unfold TerrainGS.fits_int. by rewrite Hi.
Qed.

Lemma no_cells_none_filled index (f : nat -> mesh) :
  view_cells index f = [] -> TerrainGS.filled index f = [].
Proof.
  intros Hnil. pose proof (no_cells_no_vertices index f Hnil) as Hall.
  clear Hnil. unfold TerrainGS.filled.
  induction Hall as [|i index Hi _ IH]; [done|].
  rewrite filter_cons, decide_False by (rewrite Hi; simpl; lia). done.
Qed.

Lemma no_cells_none_visited index (f : nat -> mesh) k :
  view_cells index f = [] -> TerrainGS.visited index f k = f k.
Proof.
  intros Hnil. pose proof (no_cells_no_vertices index f Hnil) as Hall.
  unfold TerrainGS.visited.
  destruct (decide (k ∈ index)) as [Hk|Hk].
  - rewrite (proj1 (Forall_forall _ _) Hall k Hk).
    by rewrite andb_false_r.
  - by rewrite bool_decide_eq_false_2.
Qed.

(** C6, amended. When the chunk meshes hold no cell at all, or the
    preview mesh holds none, no cell is converted and nothing is thrown,
    the buffer of the target is cleared, bound and uploaded all the
    same, and a draw of the target submits no element.  In the box build
    [add_mesh] is skipped in both calls and the buffer is left empty.  In
    the point build ([USE_GS_RENDER]) [upload_geometry] skips every chunk
    mesh, which it leaves as it was, while [upload_preview] still adds
    the mesh it is given: the buffer then holds one mesh without a vertex
    and without an index. *)
Theorem empty_upload_adds_no_cell (sch : schedule) (index : list nat)
    (f : nat -> mesh) (terrain0 : mesh) (t : terrain)
    (tg : TerrainGS.terrain) :
  view_cells index f = [] ->
  vertex terrain0 = [] ->
  (upload_geometry sch index f t
   = (Build_terrain (_pb t)
        (VertexBuffer [] [] (vb_calls (_gb t) ++ [VbClear; VbBind; VbUpload]))
        empty_mesh [], None)
   /\ snd (draw_terrain (fst (upload_geometry sch index f t))) = 0)
  /\ (upload_preview terrain0 t
      = (Build_terrain
           (VertexBuffer [] []
              (vb_calls (_pb t) ++ [VbClear; VbBind; VbUpload]))
           (_gb t) empty_mesh [], None)
      /\ snd (draw_placemark (fst (upload_preview terrain0 t))) = 0)
  /\ (exists f',
        TerrainGS.upload_geometry index f tg
        = Some (f',
                TerrainGS.Build_terrain (TerrainGS._pb tg)
                  (VertexBuffer [] []
                     (vb_calls (TerrainGS._gb tg)
                      ++ [VbClear; VbBind; VbUpload])),
                None)
        /\ (forall k, f' k = f k)
        /\ snd (TerrainGS.draw_terrain
                  (TerrainGS.Build_terrain (TerrainGS._pb tg)
                     (VertexBuffer [] []
                        (vb_calls (TerrainGS._gb tg)
                         ++ [VbClear; VbBind; VbUpload])))) = 0)
  /\ (exists m p,
        TerrainGS.upload_preview terrain0 tg = Some (m, p, None)
        /\ vertex m = [] /\ Min.index m = []
        /\ uv m = uv terrain0 /\ normal m = normal terrain0
        /\ TerrainGS._pb p
           = VertexBuffer [m] [m]
               (vb_calls (TerrainGS._pb tg)
                ++ [VbClear; VbAddMesh; VbBind; VbUpload])
        /\ TerrainGS._gb p = TerrainGS._gb tg
        /\ snd (TerrainGS.draw_placemark p) = 0).
Proof.
  intros Hview Hprev.
  rewrite upload_geometry_result, upload_preview_result, Hview, Hprev.
  split; [by repeat split|]. split; [by repeat split|]. split.
  - destruct (upload_geometry_gs_result index f tg (no_cells_fit _ _ Hview))
      as (f' & Hr & Hf').
    rewrite (no_cells_none_filled _ _ Hview) in Hr.
    exists f'. split; [exact Hr|]. split; [|reflexivity].
    intros k. rewrite Hf'. by apply no_cells_none_visited.
  - exists (point_mesh terrain0). eexists. split.
    + apply upload_preview_gs_result.
      unfold TerrainGS.fits_int. by rewrite Hprev.
    + unfold point_mesh. cbn [vertex uv normal Min.index TerrainGS._pb
                               TerrainGS._gb].
      rewrite Hprev. repeat split.
Qed.

Lemma empty_upload_adds_no_cell_witness :
  (upload_geometry two_workers [1; 1] TerrainGS.some_chunks fresh_terrain
   = (Build_terrain vb_new
        (VertexBuffer [] [] ([] ++ [VbClear; VbBind; VbUpload]))
        empty_mesh [], None))
  /\ (exists f',
        TerrainGS.upload_geometry [1; 1] TerrainGS.some_chunks
          TerrainGS.fresh_terrain
        = Some (f',
                TerrainGS.Build_terrain vb_new
                  (VertexBuffer [] [] ([] ++ [VbClear; VbBind; VbUpload])),
                None))
  /\ (exists m p,
        TerrainGS.upload_preview empty_mesh TerrainGS.fresh_terrain
        = Some (m, p, None)
        /\ TerrainGS._pb p
           = VertexBuffer [m] [m]
               ([] ++ [VbClear; VbAddMesh; VbBind; VbUpload])
        /\ snd (TerrainGS.draw_placemark p) = 0).
Proof.
  destruct (empty_upload_adds_no_cell two_workers [1; 1]
              TerrainGS.some_chunks empty_mesh fresh_terrain
              TerrainGS.fresh_terrain eq_refl eq_refl)
    as ((Hbox & _) & _ & (f' & Hgs & _) & (m & p & Hp & _ & _ & _ & _ & Hpb
        & _ & Hdraw)).
  split; [exact Hbox|]. split; [by exists f'|].
  exists m, p. split; [exact Hp|]. split; [exact Hpb|exact Hdraw].
Defined.

(** C6 as first stated fails on "the upload is skipped": with an empty
    chunk list [upload_geometry] still calls [upload] on the view buffer,
    and [upload_preview] with no cell still calls it on the preview
    buffer; in the point build [upload_preview] with no cell even adds
    its mesh before. *)
Lemma empty_upload_still_uploads :
  vb_calls (_gb (fst (upload_geometry two_workers [] (fun _ => empty_mesh)
                        fresh_terrain)))
  = [VbClear; VbBind; VbUpload]
  /\ vb_calls (_pb (fst (upload_preview empty_mesh fresh_terrain)))
     = [VbClear; VbBind; VbUpload]
  /\ TerrainGS.upload_preview empty_mesh TerrainGS.fresh_terrain
     = Some (empty_mesh,
             TerrainGS.Build_terrain
               (VertexBuffer [empty_mesh] [empty_mesh]
                  [VbClear; VbAddMesh; VbBind; VbUpload])
               vb_new,
             None).
Proof.
  rewrite upload_geometry_result, upload_preview_result.
  split; [done|]. split; [done|]. reflexivity.
Qed.

End EmptyUploadFacts.

(** ** Editing the world *)
Module EditFacts.
Import Terrain UploadFacts PointBuildFacts Edit.

Section Facts.
Context {G : Type} {grid : Cgrid G}.

Lemma and_then_ok (w : world G) k : and_then (w, None) k = k w.
Proof. reflexivity. Qed.

Lemma upload_geometry_view sch index f t :
  upload_geometry sch index f t
  = (view_uploaded (view_cells index f) t, None).
Proof. apply upload_geometry_result. Qed.

Lemma upload_preview_view terrain0 t :
  upload_preview terrain0 t = (preview_uploaded (vertex terrain0) t, None).
Proof. apply upload_preview_result. Qed.

(** An upload of the terrain never throws. *)
Lemma generate_terrain_eq sch (w : world G) :
  generate_terrain sch w
  = (set_terrain (view_uploaded (grid_cells (_grid w)) (_terrain w))
       (set_view_chunks (get_view_chunks (_grid w)) w), None).
Proof.
  unfold generate_terrain.
  cbn [set_view_chunks _grid _view_chunks _terrain].
  change (fun key : nat => get_chunk (_grid w) key)
    with (get_chunk (_grid w)).
  by rewrite upload_geometry_view.
Qed.

Lemma generate_preview_eq (w : world G) :
  let m :=
    atlas_preview (_grid w) (_terr_mesh w) (_cached_offset w) (_scale w) in
  generate_preview w
  = (set_terrain (preview_uploaded (vertex m) (_terrain w))
       (set_terr_mesh m (set_preview_offset (_cached_offset w) w)), None).
Proof.
  cbv zeta. unfold generate_preview.
  cbn [set_preview_offset set_terr_mesh _grid _terr_mesh _preview_offset
       _scale _terrain _cached_offset].
  by rewrite upload_preview_view.
Qed.

Lemma remove_block_at_eq sch point direction (w : world G) :
  let gr :=
    set_geometry point (_scale w) (_preview_offset w) (-1) (_grid w) in
  remove_block_at sch point direction w
  = (if (0 <? snd gr)%Z
     then
       particles_load point direction 5
         (set_terrain (view_uploaded (grid_cells (fst gr)) (_terrain w))
            (set_view_chunks (get_view_chunks (fst gr))
               (set_grid (fst gr) w)))
     else set_grid (fst gr) w, None).
Proof.
  cbv zeta. unfold remove_block_at.
  destruct (set_geometry point (_scale w) (_preview_offset w) (-1) (_grid w))
    as [g removed].
  cbn [fst snd]. destruct (0 <? removed)%Z; [|done].
  by rewrite generate_terrain_eq, and_then_ok.
Qed.

Ltac edit_unfold :=
  unfold do_call, update, add_block, ray_block, remove_block, grappling,
    reset_scale, set_atlas_id, set_scale_x, set_scale_y, set_scale_z, draw,
    toggle_ai_mode, toggle_edit_mode, draw_terrain, draw_placemark.

Ltac edit_cbn :=
  cbn [fst snd _terrain _view_chunks _terr_mesh _scale _cached_offset
       _preview_offset _grid _particles _ai_mode _edit_mode
       set_terrain set_view_chunks set_terr_mesh set_scale set_cached_offset
       set_preview_offset set_grid particles_load set_ai_mode set_edit_mode
       update_uniform view_uploaded preview_uploaded
       _pb _gb _parent _cell_buffer vb_data vb_gpu vb_calls
       vb_draw_all vb_bind ix iy iz].

(** Resolves the calls of a member function down to the worlds they
    leave. *)
Ltac edit_cases :=
  repeat first
    [ rewrite generate_terrain_eq
    | rewrite generate_preview_eq
    | rewrite remove_block_at_eq
    | rewrite and_then_ok
    | progress cbv zeta
    | progress edit_cbn
    | match goal with
      | |- context [let '(_, _) := ?p in _] => destruct p eqn:?
      | |- context [if ?b then _ else _] => destruct b eqn:?
      end ].

(** No call throws. *)
Lemma do_call_returns sch c (w : world G) : snd (do_call sch c w) = None.
Proof. destruct c; edit_unfold; edit_cbn; edit_cases; reflexivity. Qed.

Lemma do_calls_snoc sch cs c (w : world G) :
  do_calls sch (cs ++ [c]) w = and_then (do_calls sch cs w) (do_call sch c).
Proof. unfold do_calls. by rewrite foldl_app. Qed.

(** A property that every call keeps holds after any list of calls. *)
Lemma do_calls_invariant (P : world G -> Prop) (Q : call -> Prop) sch cs :
  (forall c w, Q c -> P w -> P (fst (do_call sch c w))) ->
  Forall Q cs ->
  forall w, P w ->
    snd (do_calls sch cs w) = None /\ P (fst (do_calls sch cs w)).
Proof.
  intros Hkeep. induction cs as [|c cs IH] using rev_ind; intros HQ w Hw.
  - by split.
  - apply Forall_app in HQ as [HQ Hc]. apply Forall_inv in Hc.
    destruct (IH HQ w Hw) as [Hnone HP].
    rewrite do_calls_snoc.
    destruct (do_calls sch cs w) as [w1 thrown]. cbn [fst snd] in *.
    subst thrown. rewrite and_then_ok.
    split; [apply do_call_returns|by apply Hkeep].
Qed.

Lemma do_call_offsets sch c (w : world G) :
  unit_offset (_cached_offset w) /\ unit_offset (_preview_offset w) ->
  unit_offset (_cached_offset (fst (do_call sch c w)))
  /\ unit_offset (_preview_offset (fst (do_call sch c w))).
Proof.
  intros [Hc Hp]. unfold unit_offset in *.
  destruct c; edit_unfold; edit_cbn; edit_cases; edit_cbn;
    repeat destruct (Qle_bool _ _); edit_cbn; repeat split; tauto || lia.
Qed.

Lemma do_call_scale (D : Z) sch c (w : world G) :
  (1 <= D)%Z -> (4 + D < 2 ^ 32)%Z ->
  (forall d, increment c = Some d -> (0 <= d <= D)%Z) ->
  scale_within (4 + D) (_scale w) ->
  scale_within (4 + D) (_scale (fst (do_call sch c w))).
Proof.
  intros HD Hmax Hinc Hs. unfold scale_within, _pre_max_scale in *.
  change (2 ^ 32)%Z with 4294967296%Z in Hmax.
  destruct c; edit_unfold; edit_cbn; edit_cases; edit_cbn; try lia;
    (specialize (Hinc _ eq_refl);
     match goal with
     | H : (_ <? _pre_max_scale)%Z = true |- _ =>
         apply Z.ltb_lt in H; unfold _pre_max_scale in H
     end;
     rewrite BoxMeshFacts.to_uint32_small
       by (change (2 ^ 32)%Z with 4294967296%Z; lia);
     lia).
Qed.

Lemma do_call_view sch c (w : world G) :
  quiet_grid ->
  view_current w /\ preview_current w ->
  view_current (fst (do_call sch c w))
  /\ preview_current (fst (do_call sch c w)).
Proof.
  intros [Hgeom Hatlas] [[Hv1 Hv2] [Hp1 Hp2]].
  unfold view_current, preview_current in *.
  destruct c; edit_unfold; edit_cbn; edit_cases; edit_cbn;
    rewrite ?Hatlas; try done;
    match goal with
    | H : (0 <? snd ?gr)%Z = false |- _ =>
        apply Z.ltb_ge in H; apply Hgeom in H; rewrite ?H; done
    end.
Qed.

(** X10. The constructor throws exactly when [grid_size] is not a
    multiple of [chunk_size] (for a [chunk_size] other than zero; the
    message words the condition the other way round), and nothing else in
    it throws.  The world it builds has scale (1, 1, 1), both offsets
    (1, 1, 1) and both modes off; the preview buffer holds the compiled
    preview mesh.  On a first load the cells around the player were
    removed with scale (3, 3, 3) and offset (1, 1, 1), and the view was
    uploaded again if that removed a cell. *)
Theorem new_world_checks_sizes (normalize : vec3 -> vec3) (sch : schedule)
    (state : vec3 * bool) (grid_size chunk_size view_chunk_size : nat) :
  chunk_size <> 0 ->
  let r :=
    new_world normalize sch state grid_size chunk_size view_chunk_size in
  let w := fst r in
  let g1 :=
    update_chunk_at (fst state)
      (cgrid (G := G) grid_size chunk_size view_chunk_size) in
  let cleared :=
    set_geometry (snap (fst state)) (IVec3 3 3 3) (IVec3 1 1 1) (-1) g1 in
  (snd r = None <-> Nat.divide chunk_size grid_size)
  /\ (Nat.divide chunk_size grid_size ->
      _scale w = IVec3 1 1 1
      /\ _cached_offset w = IVec3 1 1 1
      /\ _preview_offset w = IVec3 1 1 1
      /\ _ai_mode w = false /\ _edit_mode w = false
      /\ _grid w = (if snd state then g1 else fst cleared)
      /\ preview_current w
      /\ vb_data (_gb (_terrain w))
         = staged (grid_cells (if snd state then g1
                               else if (0 <? snd cleared)%Z then fst cleared
                               else g1))).
Proof.
  intros _. cbv zeta. destruct state as [position loaded].
  unfold new_world.
  destruct (Nat.eqb_spec (grid_size mod chunk_size) 0) as [Hmod|Hmod];
    cbn [negb].
  - assert (Hdiv := proj1 (Nat.Lcm0.mod_divide _ _) Hmod).
    rewrite generate_preview_eq, and_then_ok. cbv zeta.
    unfold character_load. edit_cbn.
    rewrite generate_terrain_eq, and_then_ok. edit_cbn.
    destruct loaded; cbn [negb].
    + unfold preview_current; edit_cbn. repeat split; done.
    + rewrite remove_block_at_eq, and_then_ok. cbv zeta. edit_cbn.
      unfold preview_current.
      destruct (0 <? snd _)%Z; edit_cbn; repeat split; done.
  - cbn [fst snd]. split.
    + split; [done|]. intros Hdiv. by apply Nat.Lcm0.mod_divide in Hdiv.
    + intros Hdiv. by apply Nat.Lcm0.mod_divide in Hdiv.
Qed.

(** X11. In a world whose cached and preview offsets have x and z
    components of 1 or -1 and y component 1, as the constructor leaves
    them, every list of calls of the public member functions returns
    without an exception and leaves offsets of that form.  The y
    components of the two offsets therefore never differ: [set_scale_y]
    never takes its first branch, and in edit mode with a y scale below
    5 it always adds [dy]. *)
Theorem offsets_stay_unit (sch : schedule) (cs : list call) (w : world G)
    (dy : Z) :
  unit_offset (_cached_offset w) -> unit_offset (_preview_offset w) ->
  let w' := fst (do_calls sch cs w) in
  snd (do_calls sch cs w) = None
  /\ unit_offset (_cached_offset w') /\ unit_offset (_preview_offset w')
  /\ iy (_cached_offset w') = iy (_preview_offset w')
  /\ _scale (fst (set_scale_y dy w'))
     = (if _edit_mode w' && (iy (_scale w') <? 5)%Z
        then IVec3 (ix (_scale w')) (to_uint32 (iy (_scale w') + dy))
               (iz (_scale w'))
        else _scale w').
Proof.
  intros Hc Hp. cbv zeta.
  destruct (do_calls_invariant
              (fun w => unit_offset (_cached_offset w)
                        /\ unit_offset (_preview_offset w))
              (fun _ => True) sch cs) with (w := w)
    as (Hnone & Hc' & Hp').
  - intros c w0 _. apply do_call_offsets.
  - by apply Forall_true.
  - by split.
  - assert (Hy : iy (_cached_offset (fst (do_calls sch cs w)))
                 = iy (_preview_offset (fst (do_calls sch cs w))))
      by (destruct Hc' as (_ & -> & _), Hp' as (_ & -> & _); done).
    repeat split; try done; try apply Hc'; try apply Hp'.
    unfold set_scale_y. rewrite Hy, Z.eqb_refl. cbn [negb].
    unfold _pre_max_scale.
    destruct (_edit_mode (fst (do_calls sch cs w))); [|done].
    destruct (iy (_scale (fst (do_calls sch cs w))) <? 5)%Z; [|done].
    cbn [andb]. rewrite generate_preview_eq. cbv zeta. edit_cbn.
    reflexivity.
Qed.

(** X12. When every increment passed to [set_scale_x], [set_scale_y]
    and [set_scale_z] lies between 0 and [D], a scale with components
    between 1 and 4 + [D] stays so under every list of calls: the test
    against [_pre_max_scale] is made before the increment is added.
    With increments of at most one the scale stays within
    [_pre_max_scale]. *)
Theorem scale_stays_bounded (D : Z) (sch : schedule) (cs : list call)
    (w : world G) :
  (1 <= D)%Z -> (4 + D < 2 ^ 32)%Z ->
  Forall (fun c => forall d, increment c = Some d -> (0 <= d <= D)%Z) cs ->
  scale_within (4 + D) (_scale w) ->
  scale_within (4 + D) (_scale (fst (do_calls sch cs w))).
Proof.
  intros HD Hmax Hinc Hs.
  apply (do_calls_invariant
           (fun w => scale_within (4 + D) (_scale w))
           (fun c => forall d, increment c = Some d -> (0 <= d <= D)%Z)
           sch cs); try done.
  intros c w0 Hc Hw0. by apply do_call_scale.
Qed.

(** X13. Edits keep the buffers current.  When a removal that reports
    no cell removed and a change of the atlas id leave the cells of the
    view chunks as they are, the view buffer holds after every list of
    calls the mesh compiled from the view chunks of the grid as it then
    is, staged and uploaded, and the preview buffer the mesh compiled
    from the preview mesh; no call throws. *)
Theorem buffers_follow_edits (sch : schedule) (cs : list call)
    (w : world G) :
  quiet_grid -> view_current w -> preview_current w ->
  snd (do_calls sch cs w) = None
  /\ view_current (fst (do_calls sch cs w))
  /\ preview_current (fst (do_calls sch cs w)).
Proof.
  intros Hquiet Hv Hp.
  apply (do_calls_invariant
           (fun w => view_current w /\ preview_current w)
           (fun _ => True) sch cs); try done.
  - intros c w0 _. by apply do_call_view.
  - by apply Forall_true.
Qed.

(** X14. [remove_block] of a ray that ends in a cell with a value of 0 or
    more returns that value and removes, at the traced point, with the
    scale and the preview offset of the world as they are.  The scale,
    the offsets, the modes, the preview mesh and the preview buffer stay
    as they were.  If the grid reports a cell removed, the view is
    uploaded from the grid after the removal and one particle effect is
    loaded at the traced point, against the direction of the ray;
    otherwise neither happens. *)
Theorem remove_block_hit (sch : schedule) (r : ray) (w : world G) :
  (0 <= grid_value (_grid w) (ray_trace_last (_grid w) r 6))%Z ->
  let traced := ray_trace_last (_grid w) r 6 in
  let gr :=
    set_geometry traced (_scale w) (_preview_offset w) (-1) (_grid w) in
  let res := remove_block sch r w in
  let w' := fst (snd res) in
  fst res = grid_value (_grid w) traced
  /\ snd (snd res) = None
  /\ _grid w' = fst gr
  /\ (_scale w' = _scale w /\ _cached_offset w' = _cached_offset w
      /\ _preview_offset w' = _preview_offset w
      /\ _ai_mode w' = _ai_mode w /\ _edit_mode w' = _edit_mode w
      /\ _terr_mesh w' = _terr_mesh w
      /\ _pb (_terrain w') = _pb (_terrain w))
  /\ _terrain w'
     = (if (0 <? snd gr)%Z
        then view_uploaded (grid_cells (fst gr)) (_terrain w)
        else _terrain w)
  /\ _particles w'
     = (if (0 <? snd gr)%Z
        then _particles w
             ++ [(traced,
                  Vec3 (x3 (get_direction r) * -1)
                    (y3 (get_direction r) * -1)
                    (z3 (get_direction r) * -1), 5%Q)]
        else _particles w).
Proof.
  intros Hhit. cbv zeta. unfold remove_block.
  rewrite (proj2 (Z.leb_le _ _) Hhit). cbn [fst snd].
  rewrite remove_block_at_eq. cbv zeta. cbn [fst snd].
  destruct (0 <? snd _)%Z; edit_cbn; repeat split.
Qed.

(** X15. [grappling] along a ray that ends in a cell with a value other
    than -1 returns that value and gives up the scale of the edit: the
    scale is (1, 1, 1) afterwards, the preview was generated again at the
    cached offset, and the removal at the traced point was made with
    scale (1, 1, 1) and that offset, whatever the scale was.  The
    particle effect, if a cell was removed, goes along the ray.  A value
    below -1 is a hit for [grappling], and none for [remove_block]. *)
Theorem grappling_resets_scale (sch : schedule) (r : ray) (w : world G) :
  grid_value (_grid w) (ray_trace_last (_grid w) r 100) <> (-1)%Z ->
  let traced := ray_trace_last (_grid w) r 100 in
  let gr :=
    set_geometry traced (IVec3 1 1 1) (_cached_offset w) (-1) (_grid w) in
  let res := grappling sch r w in
  let w' := fst (snd res) in
  fst res = grid_value (_grid w) traced
  /\ snd (snd res) = None
  /\ _scale w' = IVec3 1 1 1
  /\ _preview_offset w' = _cached_offset w
  /\ _cached_offset w' = _cached_offset w
  /\ _grid w' = fst gr
  /\ _terr_mesh w'
     = atlas_preview (_grid w) (_terr_mesh w) (_cached_offset w)
         (IVec3 1 1 1)
  /\ preview_current w'
  /\ _particles w'
     = (if (0 <? snd gr)%Z
        then _particles w ++ [(traced, get_direction r, 5%Q)]
        else _particles w)
  /\ ((grid_value (_grid w) (ray_trace_last (_grid w) r 6) < 0)%Z ->
      fst (snd (remove_block sch r w)) = w).
Proof.
  intros Hhit. cbv zeta. unfold grappling, reset_scale.
  rewrite (proj2 (Z.eqb_neq _ _) Hhit). cbn [negb fst snd].
  rewrite generate_preview_eq, and_then_ok, remove_block_at_eq.
  cbv zeta. edit_cbn. unfold preview_current.
  destruct (0 <? snd _)%Z; edit_cbn; repeat split;
    intros Hmiss; unfold remove_block;
    by rewrite (proj2 (Z.leb_gt _ _) Hmiss).
Qed.

(** X16. [draw] draws the terrain always and the placemark only in edit
    mode.  With buffers that are current the terrain submits 36 elements
    for every cell of the view chunks of the grid and the placemark 36
    for every cell of the preview mesh.  A draw changes nothing but the
    record of the calls made on the buffers, so that a second draw
    submits the same, and toggling the edit mode twice gives the world
    back. *)
Theorem draw_placemark_in_edit_mode (w : world G) :
  view_current w -> preview_current w ->
  let w' := fst (draw w) in
  snd (draw w)
  = 36 * length (grid_cells (_grid w))
    :: (if _edit_mode w then [36 * length (vertex (_terr_mesh w))] else [])
  /\ snd (draw w') = snd (draw w)
  /\ view_current w' /\ preview_current w'
  /\ (_grid w' = _grid w /\ _scale w' = _scale w
      /\ _cached_offset w' = _cached_offset w
      /\ _preview_offset w' = _preview_offset w
      /\ _edit_mode w' = _edit_mode w)
  /\ snd (draw (fst (toggle_edit_mode w)))
     = 36 * length (grid_cells (_grid w))
       :: (if _edit_mode w then [] else [36 * length (vertex (_terr_mesh w))])
  /\ fst (toggle_edit_mode (fst (toggle_edit_mode w))) = w.
Proof.
  intros [Hv1 Hv2] [Hp1 Hp2]. cbv zeta.
  destruct w as [t vc m s co po g ps ai ed].
  cbn [_terrain _grid _terr_mesh] in Hv1, Hv2, Hp1, Hp2.
  unfold view_current, preview_current, toggle_edit_mode, draw, draw_terrain,
    draw_placemark, vb_draw_all, vb_bind, vb_elements.
  edit_cbn. rewrite negb_involutive.
  destruct ed; edit_cbn; rewrite ?Hv1, ?Hv2, ?Hp1, ?Hp2, ?elements_staged;
    repeat split.
Qed.

(** X17. In edit mode, when the camera has turned so that the x
    component of the cached offset differs from that of the preview
    offset, a call of [set_scale_x] only moves the preview to the
    cached offset and leaves the scale; the same call made again adds
    [dx] to an x scale below 5.  When the x components agree, the first
    call already adds [dx] to an x scale below 5.  Likewise for
    [set_scale_z] and the z components, whatever the x components are.
    Outside edit mode the calls change nothing. *)
Theorem set_scale_reanchors_first (dx : Z) (w : world G) :
  _edit_mode w = true ->
  let wx := fst (set_scale_x dx w) in
  let wz := fst (set_scale_z dx w) in
  let grown_x :=
    if (ix (_scale w) <? 5)%Z
    then IVec3 (to_uint32 (ix (_scale w) + dx)) (iy (_scale w))
           (iz (_scale w))
    else _scale w in
  let grown_z :=
    if (iz (_scale w) <? 5)%Z
    then IVec3 (ix (_scale w)) (iy (_scale w))
           (to_uint32 (iz (_scale w) + dx))
    else _scale w in
  (ix (_cached_offset w) <> ix (_preview_offset w) ->
   _scale wx = _scale w /\ _preview_offset wx = _cached_offset w
   /\ _scale (fst (set_scale_x dx wx)) = grown_x)
  /\ (ix (_cached_offset w) = ix (_preview_offset w) -> _scale wx = grown_x)
  /\ (iz (_cached_offset w) <> iz (_preview_offset w) ->
      _scale wz = _scale w /\ _preview_offset wz = _cached_offset w
      /\ _scale (fst (set_scale_z dx wz)) = grown_z)
  /\ (iz (_cached_offset w) = iz (_preview_offset w) -> _scale wz = grown_z)
  /\ set_scale_x dx (set_edit_mode false w) = (set_edit_mode false w, None)
  /\ set_scale_z dx (set_edit_mode false w) = (set_edit_mode false w, None).
Proof.
  intros Hedit. cbv zeta.
  unfold set_scale_x, set_scale_z, _pre_max_scale.
  rewrite Hedit.
  split; [|split; [|split; [|split; [|split; reflexivity]]]].
  - intros Hx. rewrite (proj2 (Z.eqb_neq _ _) Hx). cbn [negb].
    rewrite !generate_preview_eq. cbv zeta. edit_cbn.
    rewrite Hedit, !Z.eqb_refl. cbn [negb].
    repeat split.
    destruct (ix (_scale w) <? 5)%Z; edit_cbn; reflexivity.
  - intros Hx. rewrite (proj2 (Z.eqb_eq _ _) Hx). cbn [negb].
    destruct (ix (_scale w) <? 5)%Z; [|reflexivity].
    rewrite generate_preview_eq. cbv zeta. edit_cbn. reflexivity.
  - intros Hz. rewrite (proj2 (Z.eqb_neq _ _) Hz). cbn [negb].
    rewrite !generate_preview_eq. cbv zeta. edit_cbn.
    rewrite Hedit, !Z.eqb_refl. cbn [negb].
    repeat split.
    destruct (iz (_scale w) <? 5)%Z; edit_cbn; reflexivity.
  - intros Hz. rewrite (proj2 (Z.eqb_eq _ _) Hz). cbn [negb].
    destruct (iz (_scale w) <? 5)%Z; [|reflexivity].
    rewrite generate_preview_eq. cbv zeta. edit_cbn. reflexivity.
Qed.

End Facts.

(** *** The example grid *)

Lemma list_grid_cells (g : list vec4) : grid_cells (G := list vec4) g = g.
Proof. reflexivity. Qed.

Lemma filter_none_removed p (g : list vec4) :
  length (filter (fun c => same_place p c = true) g) = 0 ->
  filter (fun c => same_place p c = false) g = g.
Proof.
  induction g as [|c g IH]; [done|].
  rewrite !filter_cons. destruct (same_place p c); simpl; [done|].
  intros Hlen. by rewrite IH.
Qed.

Lemma list_grid_quiet : quiet_grid (G := list vec4).
Proof.
  split; [|done].
  intros point scale offset g. rewrite !list_grid_cells.
  cbn [set_geometry list_grid Z.eqb Pos.eqb fst snd].
  intros Hlen. apply filter_none_removed. lia.
Qed.

Lemma start_world_current :
  view_current start_world /\ preview_current start_world.
Proof. repeat split; vm_compute; reflexivity. Qed.

Lemma new_world_checks_sizes_witness :
  snd (new_world (G := list vec4) (fun v => v) two_workers start_state 8 4 3)
  = None
  /\ _scale start_world = IVec3 1 1 1
  /\ _grid start_world = [Vec4 1 0 0 2].
Proof.
  pose proof (new_world_checks_sizes (G := list vec4) (fun v => v)
                two_workers start_state 8 4 3) as Hnew.
  cbv zeta in Hnew. destruct Hnew as [Hthrow Hw]; [lia|].
  assert (Hdiv : Nat.divide 4 8) by (exists 2; reflexivity).
  split; [by apply Hthrow|].
  destruct (Hw Hdiv) as (Hs & _ & _ & _ & _ & Hg & _).
  split; [exact Hs|exact Hg].
Defined.

Lemma offsets_stay_unit_witness :
  let w' := fst (do_calls two_workers turn_and_grow start_world) in
  snd (do_calls two_workers turn_and_grow start_world) = None
  /\ iy (_cached_offset w') = iy (_preview_offset w').
Proof.
  cbv zeta.
  pose proof (offsets_stay_unit two_workers turn_and_grow start_world 1)
    as Hunit.
  cbv zeta in Hunit.
  destruct Hunit as (Hnone & _ & _ & Hy & _).
  - vm_compute. repeat split; by left.
  - vm_compute. repeat split; by left.
  - split; [exact Hnone|exact Hy].
Defined.

Lemma scale_stays_bounded_witness :
  scale_within (4 + 1)
    (_scale (fst (do_calls two_workers grow_six_times start_world))).
Proof.
  apply (scale_stays_bounded 1 two_workers grow_six_times start_world).
  - lia.
  - reflexivity.
  - unfold grow_six_times.
    repeat (constructor;
            [intros d Hd; try discriminate Hd; injection Hd as <-; lia|]).
    constructor.
  - vm_compute. repeat split; discriminate.
Defined.

Lemma buffers_follow_edits_witness :
  snd (do_calls two_workers build_and_break start_world) = None
  /\ view_current (fst (do_calls two_workers build_and_break start_world))
  /\ preview_current
       (fst (do_calls two_workers build_and_break start_world)).
Proof.
  apply (buffers_follow_edits two_workers build_and_break start_world).
  - apply list_grid_quiet.
  - apply start_world_current.
  - apply start_world_current.
Defined.

Lemma remove_block_hit_witness :
  let r := Ray (Vec3 1 0 0) (Vec3 0 0 1) in
  fst (remove_block two_workers r start_world) = 2%Z
  /\ _grid (fst (snd (remove_block two_workers r start_world))) = [].
Proof.
  cbv zeta.
  pose proof (remove_block_hit two_workers (Ray (Vec3 1 0 0) (Vec3 0 0 1))
                start_world) as Hhit.
  cbv zeta in Hhit.
  destruct Hhit as (Hvalue & _ & Hgrid & _).
  - vm_compute. discriminate.
  - split; [exact Hvalue|exact Hgrid].
Defined.

Lemma grappling_resets_scale_witness :
  let r := Ray (Vec3 1 0 0) (Vec3 0 0 1) in
  let w := fst (do_calls two_workers grow_six_times start_world) in
  _scale w = IVec3 5 1 1
  /\ _scale (fst (snd (grappling two_workers r w))) = IVec3 1 1 1.
Proof.
  cbv zeta.
  pose proof (grappling_resets_scale two_workers
                (Ray (Vec3 1 0 0) (Vec3 0 0 1))
                (fst (do_calls two_workers grow_six_times start_world)))
    as Hhit.
  cbv zeta in Hhit.
  destruct Hhit as (_ & _ & Hscale & _).
  - vm_compute. discriminate.
  - split; [vm_compute; reflexivity|exact Hscale].
Defined.

Lemma draw_placemark_in_edit_mode_witness :
  snd (draw start_world) = [36]
  /\ snd (draw (fst (toggle_edit_mode start_world))) = [36; 36].
Proof.
  pose proof (draw_placemark_in_edit_mode start_world) as Hdraw.
  cbv zeta in Hdraw.
  destruct Hdraw as (Hoff & _ & _ & _ & _ & Hon & _).
  - apply start_world_current.
  - apply start_world_current.
  - split; [exact Hoff|exact Hon].
Defined.

Lemma set_scale_reanchors_first_witness :
  let w1 := fst (set_scale_x 1 turned_x_world) in
  _cached_offset turned_x_world = IVec3 (-1) 1 1
  /\ _preview_offset turned_x_world = IVec3 1 1 1
  /\ _scale w1 = IVec3 1 1 1
  /\ _preview_offset w1 = IVec3 (-1) 1 1
  /\ _scale (fst (set_scale_x 1 w1)) = IVec3 2 1 1
  /\ _scale (fst (set_scale_z 1 turned_x_world)) = IVec3 1 1 2.
Proof.
  cbv zeta.
  pose proof (set_scale_reanchors_first 1 turned_x_world eq_refl) as Hturn.
  cbv zeta in Hturn.
  destruct Hturn as (Hx & _ & _ & Hz & _).
  split; [reflexivity|]. split; [reflexivity|].
  destruct Hx as (Hs & Hp & Hgrow); [vm_compute; discriminate|].
  split; [exact Hs|]. split; [exact Hp|]. split; [exact Hgrow|].
  apply Hz. reflexivity.
Defined.

End EditFacts.

(** ** The energy and the timers of the gun *)
Module GunStateFacts.
Import GunState.

Lemma shift_left_pow (a n : Z) :
  (0 <= n)%Z -> (0 <= a * 2 ^ n < 2 ^ 32)%Z ->
  shift_left a n = (a * 2 ^ n)%Z.
Proof.
  intros Hn Hr. unfold shift_left.
  rewrite Z.shiftl_mul_pow2 by done.
  by apply BoxMeshFacts.to_uint32_small.
Qed.

Lemma pow2_bounds (n : Z) :
  (0 <= n <= 29)%Z ->
  (1 <= 2 ^ n)%Z /\ (2 ^ (n + 1) = 2 * 2 ^ n)%Z /\ (2 * 2 ^ n <= 2 ^ 30)%Z.
Proof.
  intros Hn.
  assert (Hdouble : (2 ^ (n + 1) = 2 * 2 ^ n)%Z).
  { rewrite Z.pow_add_r by lia. change (2 ^ 1)%Z with 2%Z. lia. }
  split; [|split; [exact Hdouble|]].
  - apply (Z.pow_le_mono_r 2 0 n); lia.
  - rewrite <- Hdouble. apply Z.pow_le_mono_r; lia.
Qed.

Lemma set_energy_same (s : gun_state) : set_energy (_energy s) s = s.
Proof. by destruct s. Qed.

Lemma set_energy_twice (e1 e2 : Z) (s : gun_state) :
  set_energy e2 (set_energy e1 s) = set_energy e2 s.
Proof. reflexivity. Qed.

(** What [absorb] adds and what the consuming functions take. *)
Lemma absorb_energy (atlas_id : Z) (s : gun_state) :
  (0 <= atlas_id <= 29)%Z ->
  absorb atlas_id s = set_energy (to_uint32 (_energy s + 2 ^ atlas_id)) s.
Proof.
  intros Hid. destruct (pow2_bounds atlas_id Hid) as (H1 & _ & H2).
  unfold absorb. rewrite shift_left_pow; [by rewrite Z.mul_1_l|lia|].
  change (2 ^ 30)%Z with 1073741824%Z in H2.
  change (2 ^ 32)%Z with 4294967296%Z. lia.
Qed.

Lemma cost_energy (atlas_id : Z) :
  (0 <= atlas_id <= 29)%Z -> shift_left 2 atlas_id = (2 ^ (atlas_id + 1))%Z.
Proof.
  intros Hid. destruct (pow2_bounds atlas_id Hid) as (H1 & -> & H2).
  rewrite shift_left_pow; [done|lia|].
  change (2 ^ 30)%Z with 1073741824%Z in H2.
  change (2 ^ 32)%Z with 4294967296%Z. lia.
Qed.

(** X20. Consuming a material costs twice the energy that absorbing it
    gives: for an atlas id between 0 and 29 and an energy that does not
    overflow, two calls of [absorb] add 2^id each, [can_consume] then
    holds, and [consume] and [will_consume] give back the state before
    the two calls.  After one call of [absorb] the energy suffices only
    if there were 2^id before. *)
Theorem two_absorbs_pay_one_consume (atlas_id : Z) (s : gun_state) :
  (0 <= atlas_id <= 29)%Z -> (0 <= _energy s)%Z ->
  (_energy s + 2 ^ (atlas_id + 1) < 2 ^ 32)%Z ->
  let s1 := absorb atlas_id s in
  let s2 := absorb atlas_id s1 in
  _energy s1 = (_energy s + 2 ^ atlas_id)%Z
  /\ _energy s2 = (_energy s + 2 ^ (atlas_id + 1))%Z
  /\ can_consume atlas_id s2 = true
  /\ will_consume atlas_id s2 = (s, true)
  /\ consume atlas_id s2 = s
  /\ can_consume atlas_id s1 = (2 ^ atlas_id <=? _energy s)%Z.
Proof.
  intros Hid Hlo Hhi. cbv zeta.
  destruct (pow2_bounds atlas_id Hid) as (H1 & Hdouble & H2).
  rewrite !absorb_energy by done.
  unfold will_consume, consume, can_consume. rewrite cost_energy by done.
  cbn [_energy set_energy]. rewrite !set_energy_twice.
  rewrite (BoxMeshFacts.to_uint32_small (_energy s + 2 ^ atlas_id)) by lia.
  rewrite (BoxMeshFacts.to_uint32_small (_energy s + 2 ^ atlas_id + _))
    by lia.
  assert (Hback : to_uint32 (_energy s + 2 ^ atlas_id + 2 ^ atlas_id
                             - 2 ^ (atlas_id + 1)) = _energy s).
  { rewrite BoxMeshFacts.to_uint32_small by lia. lia. }
  rewrite Hback, set_energy_same.
  assert (Hle : (2 ^ (atlas_id + 1)
                 <=? _energy s + 2 ^ atlas_id + 2 ^ atlas_id)%Z = true)
    by (apply Z.leb_le; lia).
  rewrite Hle. repeat split; try lia.
  destruct (Z.leb_spec (2 ^ atlas_id) (_energy s));
    destruct (Z.leb_spec (2 ^ (atlas_id + 1)) (_energy s + 2 ^ atlas_id));
    try done; lia.
Qed.

Lemma two_absorbs_pay_one_consume_witness :
  _energy (absorb 3 (absorb 3 new_gun_state)) = 16%Z
  /\ will_consume 3 (absorb 3 (absorb 3 new_gun_state))
     = (new_gun_state, true)
  /\ can_consume 3 (absorb 3 new_gun_state) = false.
Proof.
  destruct (two_absorbs_pay_one_consume 3 new_gun_state)
    as (_ & He & _ & Hw & _ & Hc); [lia|reflexivity|reflexivity|].
  split; [exact He|]. split; [exact Hw|exact Hc].
Defined.

(** X21. [will_consume] takes the energy exactly when [can_consume]
    holds and never lets it wrap: the energy it leaves is not negative
    and not above what there was.  [consume] does not test: when the
    energy is short of the cost 2^(id+1), it leaves 2^32 minus what is
    missing. *)
Theorem will_consume_never_wraps (atlas_id : Z) (s : gun_state) :
  (0 <= atlas_id <= 29)%Z -> (0 <= _energy s < 2 ^ 32)%Z ->
  let cost := (2 ^ (atlas_id + 1))%Z in
  snd (will_consume atlas_id s) = can_consume atlas_id s
  /\ can_consume atlas_id s = (cost <=? _energy s)%Z
  /\ (0 <= _energy (fst (will_consume atlas_id s)) <= _energy s)%Z
  /\ fst (will_consume atlas_id s)
     = (if can_consume atlas_id s then consume atlas_id s else s)
  /\ _energy (consume atlas_id s)
     = (if can_consume atlas_id s then _energy s - cost
        else 2 ^ 32 - (cost - _energy s))%Z.
Proof.
  intros Hid He. cbv zeta.
  destruct (pow2_bounds atlas_id Hid) as (H1 & Hdouble & H2).
  change (2 ^ 30)%Z with 1073741824%Z in H2.
  unfold will_consume, consume, can_consume. rewrite cost_energy by done.
  cbn [_energy set_energy].
  change (2 ^ 32)%Z with 4294967296%Z in *.
  destruct (Z.leb_spec (2 ^ (atlas_id + 1)) (_energy s)) as [Hle|Hlt];
    cbn [fst snd _energy set_energy].
  - rewrite BoxMeshFacts.to_uint32_small
      by (change (2 ^ 32)%Z with 4294967296%Z; lia).
    repeat split; lia.
  - repeat split; try lia.
    unfold to_uint32. change (2 ^ 32)%Z with 4294967296%Z.
    rewrite <- (Z.mod_add _ 1) by lia.
    rewrite Z.mod_small; lia.
Qed.

Lemma will_consume_never_wraps_witness :
  will_consume 0 (absorb 0 new_gun_state) = (absorb 0 new_gun_state, false)
  /\ _energy (consume 0 (absorb 0 new_gun_state)) = 4294967295%Z.
Proof.
  destruct (will_consume_never_wraps 0 (absorb 0 new_gun_state))
    as (Hs & _ & _ & Hf & Hc);
    [lia|vm_compute; split; [discriminate|reflexivity]|].
  split; [|exact Hc].
  apply injective_projections; [exact Hf|exact Hs].
Defined.

Lemma check_cooldowns_snoc times now s :
  check_cooldowns (times ++ [now]) s
  = check_cooldown now (fst (check_cooldowns times s)).
Proof. unfold check_cooldowns. by rewrite foldl_app. Qed.

(** X22. After [start_cooldown] at time [t0], [check_cooldown] answers
    [true] from the first call made more than 2000 ms after [t0] on,
    also for a later call with an earlier time, and [false] before
    that; it changes nothing but the cooldown flag.  The beam counts as
    charged only in beam mode, outside the cooldown and more than 1000
    ms after the last [start_charge]. *)
Theorem cooldown_lasts_two_seconds (t0 now : Q) (times : list Q)
    (s : gun_state) :
  let r := check_cooldowns times (start_cooldown t0 s) in
  let over := existsb (fun t => negb (Qle_bool (t - t0) 2000)) times in
  snd r = over
  /\ fst r
     = Build_gun_state (_charge s) t0 (_energy s) (_beam_mode s)
         (_fire_mode s) (negb over)
  /\ is_beam_charged now (fst r)
     = _beam_mode s && over && negb (Qle_bool (now - _charge s) 1000).
Proof.
  cbv zeta.
  assert (Hr : check_cooldowns times (start_cooldown t0 s)
               = (Build_gun_state (_charge s) t0 (_energy s) (_beam_mode s)
                    (_fire_mode s)
                    (negb (existsb (fun t => negb (Qle_bool (t - t0) 2000))
                             times)),
                  existsb (fun t => negb (Qle_bool (t - t0) 2000)) times)).
  { induction times as [|t times IH] using rev_ind; [reflexivity|].
    rewrite check_cooldowns_snoc, IH, existsb_app. cbn [fst existsb].
    rewrite orb_false_r. unfold check_cooldown, get_cool_time.
    cbn [_shoot_cooldown _cool _charge _energy _beam_mode _fire_mode].
    destruct (existsb _ times); cbn [negb orb]; [reflexivity|].
    destruct (Qle_bool (t - t0) 2000); reflexivity. }
  rewrite Hr. cbn [fst snd]. repeat split.
  unfold is_beam_charged, get_charge_time.
  cbn [_shoot_cooldown _charge _beam_mode].
  by rewrite negb_involutive.
Qed.

End GunStateFacts.

(** ** The health and the jumps of the player *)
Module PlayerFacts.
Import Player.

Lemma do_health_keeps (c : health_call) (p : player) :
  fair c ->
  (_health p <= _health_cap)%Q ->
  (_dead p = false -> (0 < _health p)%Q) ->
  (_health (do_health c p) <= _health_cap)%Q
  /\ (_dead (do_health c p) = false -> (0 < _health (do_health c p))%Q)
  /\ (c <> Respawn -> _dead p = true -> _dead (do_health c p) = true).
Proof.
  unfold _health_cap. intros Hfair Hcap Halive.
  destruct c as [h|h| |]; cbn [do_health fair] in *;
    unfold drone_collide, add_health, consume_health, respawn, _health_cap.
  - destruct (Qle_bool 100 (_health p)) eqn:Hfull; cbn [negb];
      [by repeat split|].
    destruct (Qle_bool (_health p + h) 100) eqn:Hsum;
      cbn [negb set_health _health _dead].
    + apply Qle_bool_iff in Hsum. repeat split; try done.
      intros Hd. specialize (Halive Hd). lra.
    + repeat split; try done; lra.
  - destruct (Qle_bool (_health p - h) 0) eqn:Hzero;
      cbn [set_health _health _dead].
    + repeat split; try done; lra.
    + assert (Hpos : ~ (_health p - h <= 0)%Q)
        by (intros Hle; apply Qle_bool_iff in Hle; congruence).
      repeat split; try done; lra.
  - destruct (Qle_bool (_health p - 5) 0) eqn:Hzero;
      cbn [set_health _health _dead].
    + repeat split; try done; lra.
    + assert (Hpos : ~ (_health p - 5 <= 0)%Q)
        by (intros Hle; apply Qle_bool_iff in Hle; congruence).
      repeat split; try done; lra.
  - cbn [_health _dead]. repeat split; try done; lra.
Qed.

(** X23. A player that is not dead has health.  When the amounts added
    and taken are not negative, every list of calls of [add_health],
    [consume_health], [drone_collide] and [respawn] keeps the health at
    or below the cap of 100 and above zero as long as the player is not
    dead.  Only [respawn] brings a dead player back: [add_health] may
    give a dead player health and leaves it dead. *)
Theorem alive_has_health (cs : list health_call) (p : player) :
  Forall fair cs ->
  (_health p <= _health_cap)%Q ->
  (_dead p = false -> (0 < _health p)%Q) ->
  (_health (do_healths cs p) <= _health_cap)%Q
  /\ (_dead (do_healths cs p) = false -> (0 < _health (do_healths cs p))%Q)
  /\ (~ In Respawn cs -> _dead p = true -> _dead (do_healths cs p) = true).
Proof.
  revert p. induction cs as [|c cs IH]; intros p Hfair Hcap Halive.
  - by repeat split.
  - apply Forall_cons in Hfair as [Hc Hfair].
    destruct (do_health_keeps c p Hc Hcap Halive) as (Hcap' & Halive' & Hd).
    destruct (IH (do_health c p) Hfair Hcap' Halive') as (H1 & H2 & H3).
    change (do_healths (c :: cs) p) with (do_healths cs (do_health c p)).
    repeat split; try done.
    intros Hno Hdead. apply H3.
    + intros Hin. apply Hno. by right.
    + apply Hd; [|done]. intros ->. apply Hno. by left.
Qed.

Lemma alive_has_health_witness :
  let cs := [ConsumeHealth 100; AddHealth 30; DroneCollide] in
  _dead (do_healths cs new_player) = true
  /\ (_health (do_healths cs new_player) <= _health_cap)%Q.
Proof.
  cbv zeta.
  destruct (alive_has_health [AddHealth 30; DroneCollide]
              (consume_health 100 new_player)) as (Hcap & _ & Hdead).
  - repeat constructor; vm_compute; discriminate.
  - vm_compute. discriminate.
  - discriminate.
  - split; [|exact Hcap].
    apply Hdead; [|reflexivity].
    intros [H|[H|[]]]; discriminate H.
Defined.

Lemma jumps_succ n p : jumps (S n) p = jumps n (jump p).
Proof. unfold jumps. apply Nat.iter_succ_r. Qed.

Lemma jumps_stuck n p : jump p = p -> jumps n p = p.
Proof.
  intros Hp. induction n as [|n IH]; [done|].
  by rewrite jumps_succ, Hp.
Qed.

(** X24. At most two jumps.  Of any number of calls of [jump] in a row
    at most two push the player, with the force (0, 900, 0): two when
    the player stands (jump count 0, not airborn), one when one jump
    was made, none when the player hangs on the hook, is airborn
    without having jumped, or has jumped twice.  The jump count grows
    by the number of pushes. *)
Theorem at_most_two_jumps (n : nat) (p : player) :
  _forces (jumps n p)
  = _forces p ++ replicate (pushes n p) (Vec3 0 900 0)
  /\ _jump_count (jumps n p) = (_jump_count p + Z.of_nat (pushes n p))%Z
  /\ pushes n p <= 2.
Proof.
  assert (Hsecond : forall m q,
            _hooked q = false -> _jump_count q = 1%Z ->
            _forces (jumps m q)
            = _forces q ++ replicate (m `min` 1) (Vec3 0 900 0)
            /\ _jump_count (jumps m q)
               = (_jump_count q + Z.of_nat (m `min` 1))%Z).
  { intros m q Hh Hc. destruct m as [|m].
    - simpl. rewrite app_nil_r. split; [done|lia].
    - rewrite jumps_succ.
      assert (Hj : jump q
                   = force (Vec3 0 900 0) (set_jump_count 2 q))
        by (unfold jump; rewrite Hh, Hc; reflexivity).
      rewrite Hj, jumps_stuck
        by (unfold jump; cbn [force set_jump_count _hooked _jump_count
                              _airborn]; by rewrite Hh).
      cbn [force set_jump_count _forces _jump_count]. rewrite Hc.
      replace (S m `min` 1) with 1 by lia. split; reflexivity. }
  unfold pushes.
  destruct (_hooked p) eqn:Hh.
  { rewrite jumps_stuck by (unfold jump; by rewrite Hh).
    rewrite app_nil_r. split; [done|split; lia]. }
  destruct (Z.eqb_spec (_jump_count p) 0) as [Hc|Hc].
  - destruct (_airborn p) eqn:Ha.
    + rewrite jumps_stuck by (unfold jump; by rewrite Hh, Hc, Ha).
      rewrite app_nil_r. split; [done|split; lia].
    + destruct n as [|n].
      * simpl. rewrite app_nil_r. split; [done|split; lia].
      * rewrite jumps_succ.
        assert (Hj : jump p
                     = force (Vec3 0 900 0) (set_jump_count 1 p))
          by (unfold jump; rewrite Hh, Hc, Ha; reflexivity).
        rewrite Hj.
        destruct (Hsecond n (force (Vec3 0 900 0) (set_jump_count 1 p)))
          as [Hf Hk]; [done|done|].
        rewrite Hf, Hk. cbn [force set_jump_count _forces _jump_count].
        rewrite Hc, <- app_assoc.
        replace (S n `min` 2) with (S (n `min` 1)) by lia.
        split; [reflexivity|split; lia].
  - destruct (Z.eqb_spec (_jump_count p) 1) as [Hc1|Hc1].
    + destruct (Hsecond n p Hh Hc1) as [Hf Hk].
      split; [done|split; [done|lia]].
    + rewrite jumps_stuck.
      * rewrite app_nil_r. split; [done|split; lia].
      * unfold jump. rewrite Hh.
        rewrite (proj2 (Z.eqb_neq _ _) Hc), (proj2 (Z.eqb_neq _ _) Hc1).
        reflexivity.
Qed.




End PlayerFacts.

(** ** The timer of the particle *)
Module ExplodeParticleFacts.
Import ExplodeParticle.

Lemma timer_cons time dt dts k :
  timer time (dt :: dts) (S k) = timer (fsub time dt) dts k.
Proof. reflexivity. Qed.

Lemma frames_calls_cons k dt dts :
  frames_calls (S k) (dt :: dts)
  = [Step dt; Upload; Bind; DrawEmitter] ++ frames_calls k dts.
Proof. reflexivity. Qed.

Lemma frames_calls_none dt dts :
  frames_calls 0 (dt :: dts) = [Step dt; Upload] ++ frames_calls 0 dts.
Proof. reflexivity. Qed.

(** The frames from a state on: the first [k] are drawn, no later one. *)
Lemma draws_from dts : forall s,
  exists k,
    k <= length dts
    /\ (forall j, j < k -> (0 < timer (_time s) dts j)%Q)
    /\ (k < length dts -> (timer (_time s) dts k <= 0)%Q)
    /\ _time (draws dts s) = timer (_time s) dts k
    /\ _ebuffer (draws dts s) = _ebuffer s ++ frames_calls k dts.
Proof.
  induction dts as [|dt dts IH]; intros s.
  - exists 0. cbn. rewrite app_nil_r. repeat split; try lia.
  - unfold draws. cbn [foldl]. fold (draws dts (draw dt s)).
    destruct (IH (draw dt s)) as (k & Hk & Hlive & Hdead & Htime & Hlog).
    unfold draw, step in Hlive, Hdead, Htime, Hlog |- *.
    cbn [_time _ebuffer] in Hlive, Hdead, Htime, Hlog |- *.
    destruct (Qle_bool (_time s) 0) eqn:Hle;
      cbn [negb _time _ebuffer] in Hlive, Hdead, Htime, Hlog |- *.
    + apply Qle_bool_iff in Hle.
      assert (Hk0 : k = 0).
      { destruct k as [|k]; [done|].
        specialize (Hlive 0 ltac:(lia)).
        change (timer (_time s) dts 0) with (_time s) in Hlive. lra. }
      subst k. exists 0.
      split; [lia|]. split; [intros j Hj; lia|]. split; [done|].
      split; [done|].
      rewrite Hlog, frames_calls_none. by rewrite <- app_assoc.
    + assert (Hgt : (0 < _time s)%Q).
      { apply Qnot_le_lt. intros H. apply Qle_bool_iff in H. congruence. }
      exists (S k). cbn [length].
      split; [lia|]. split; [|split; [|split]].
      * intros [|j] Hj; [done|]. rewrite timer_cons. apply Hlive. lia.
      * intros Hlt. rewrite timer_cons. apply Hdead. lia.
      * by rewrite timer_cons.
      * rewrite Hlog, frames_calls_cons. by rewrite <- !app_assoc.
Qed.

Lemma frames_calls_count k : forall dts,
  k <= length dts ->
  length (filter (fun c => is_draw c = true) (frames_calls k dts)) = k
  /\ length (filter (fun c => is_step c = true) (frames_calls k dts))
     = length dts.
Proof.
  induction k as [|k IH]; intros dts Hk.
  - clear Hk. induction dts as [|dt dts IHd]; [done|].
    rewrite frames_calls_none. destruct IHd as [Hd Hs].
    rewrite !filter_app, !length_app, Hd, Hs. done.
  - destruct dts as [|dt dts]; [simpl in Hk; lia|].
    rewrite frames_calls_cons. destruct (IH dts) as [Hd Hs];
      [simpl in Hk; lia|].
    rewrite !filter_app, !length_app, Hd, Hs. done.
Qed.

(** X26. After [load] with a time, the particle is drawn on the first
    [k] frames and on no later one, where [k] is the number of leading
    frames that begin with the timer above zero; the timer starts at the
    time given and loses the frame time, in [float] arithmetic, on every
    frame that is drawn.  The emitter is stepped and uploaded on every
    frame, drawn or not, and once the timer is at or below zero it stays
    as it is. *)
Theorem particle_drawn_until_time_is_up (position direction : vec3)
    (time : Q) (dts : list Q) (s : explode_particle) :
  let s' := draws dts (load position direction time s) in
  exists k,
    k <= length dts
    /\ (forall j, j < k -> (0 < timer time dts j)%Q)
    /\ (k < length dts -> (timer time dts k <= 0)%Q)
    /\ _time s' = timer time dts k
    /\ _ebuffer s'
       = _ebuffer s ++ [SetSpeed direction; SetPosition position; Reset]
         ++ frames_calls k dts
    /\ drawn s' = drawn s + k
    /\ stepped s' = stepped s + length dts.
Proof.
  cbv zeta.
  destruct (draws_from dts (load position direction time s))
    as (k & Hk & Hlive & Hdead & Htime & Hlog).
  cbn [load _time _ebuffer] in Hlive, Hdead, Htime, Hlog.
  exists k. do 4 (split; [done|]).
  split; [by rewrite Hlog, <- app_assoc|].
  destruct (frames_calls_count k dts Hk) as [Hd Hs].
  assert (Hd0 : filter (fun c => is_draw c = true)
                  [SetSpeed direction; SetPosition position; Reset] = [])
    by reflexivity.
  assert (Hs0 : filter (fun c => is_step c = true)
                  [SetSpeed direction; SetPosition position; Reset] = [])
    by reflexivity.
  unfold drawn, stepped.
  rewrite Hlog, !filter_app, !length_app, Hd, Hs, Hd0, Hs0.
  cbn [length]. lia.
Qed.

(** With a time of five seconds and frames of a tenth of a second, the
    [float] nearest to 0.1, the particle is drawn on 51 frames: after 50
    frames the timer is still a little above zero. *)
Example fifty_one_frames :
  let s := draws sixty_frames (load vec3_zero vec3_zero 5 new_explode_particle) in
  drawn s = 51 /\ stepped s = 60
  /\ (0 < timer 5 sixty_frames 50)%Q /\ (timer 5 sixty_frames 51 <= 0)%Q.
Proof. vm_compute. repeat split; discriminate. Qed.

End ExplodeParticleFacts.

